(** * SuroDeals backend: moderation, ad lifecycle and dynamic filters

    A shallow embedding of the content-moderation pipeline (blacklist
    filter, blocked-ad logger, rate limiters), of the ad lifecycle
    (creation, one-click approval, expiration sweep) and of the dynamic
    filter generator, followed by the properties established for them.

    Conventions of the embedding:
    - a JavaScript string is a [string]; each [ascii] stands for one
      UTF-16 code unit in the range U+0000..U+00FF, a range closed under
      [toLowerCase];
    - an instant is the number of milliseconds since the epoch, in [Z];
    - [async] functions are run to completion; a rejected promise is the
      [Throw] outcome of the function;
    - a statement sent to the database either runs or is refused; what
      the schema enforces on the [ads] table (integer range, NOT NULL,
      primary and foreign keys, the [serial] sequence) is written out
      in [Store]. *)

From Stdlib Require Import List String Ascii ZArith NArith Lia Bool Arith.
From Stdlib Require Import Permutation Sorted DecimalString.
Import ListNotations.

Local Open Scope string_scope.

(* ================================================================== *)
(** * Part I: the embedding                                            *)
(* ================================================================== *)

(** ** JavaScript strings *)
Module Js.

Definition code (c : ascii) : N := N_of_ascii c.

Definition in_range (lo hi n : N) : bool := ((lo <=? n) && (n <=? hi))%N.

(** [String.prototype.toLowerCase] on one code unit: A-Z and the
    Latin-1 capitals U+00C0..U+00DE (U+00D7, the multiplication sign,
    excepted) move up by 32. *)
Definition lower_char (c : ascii) : ascii :=
  let n := code c in
  if in_range 65 90 n || (in_range 192 222 n && negb (n =? 215)%N)
  then ascii_of_N (n + 32) else c.

Fixpoint toLowerCase (s : string) : string :=
  match s with
  | EmptyString => EmptyString
  | String c r => String (lower_char c) (toLowerCase r)
  end.

(** [toUpperCase] on one code unit, for the ASCII letters (it is only
    applied to the first letter of the fixed keyword tables). *)
Definition upper_char (c : ascii) : ascii :=
  let n := code c in
  if in_range 97 122 n then ascii_of_N (n - 32) else c.

Fixpoint toUpperCase (s : string) : string :=
  match s with
  | EmptyString => EmptyString
  | String c r => String (upper_char c) (toUpperCase r)
  end.

(** [s.includes(t)] *)
Fixpoint includes (s t : string) : bool :=
  prefix t s ||
  match s with
  | EmptyString => false
  | String _ r => includes r t
  end.

(** [ls.join(sep)] *)
Definition join (sep : string) (ls : list string) : string := concat sep ls.

Definition first_char (s : string) : option ascii :=
  match s with
  | EmptyString => None
  | String c _ => Some c
  end.

(** Last code unit of [s], or [prev] when [s] is empty. *)
Fixpoint last_char (prev : option ascii) (s : string) : option ascii :=
  match s with
  | EmptyString => prev
  | String c r => last_char (Some c) r
  end.

(** [String(n)] for an integer. *)
Definition string_of_Z (n : Z) : string := NilZero.string_of_int (Z.to_int n).

(** [Array.prototype.sort(comparefn)].  [comparefn a b] is the number the
    comparator returns, [None] standing for NaN (which [sort] treats as
    0).  The sort is stable; for a consistent comparator that fixes the
    result, computed here by insertion.  [x] moves behind [y] only when
    [comparefn x y > 0].  For a comparator that is not consistent (one
    that answers NaN for some pairs only, as a difference of dates does
    when a date cannot be read) the order is left to the engine, and
    nothing is derived from it below. *)
Section Sort.
Context {A : Type} (comparefn : A -> A -> option Z).

Definition sorts_after (x y : A) : bool :=
  match comparefn x y with
  | Some v => (0 <? v)%Z
  | None => false
  end.

Fixpoint insert (x : A) (l : list A) : list A :=
  match l with
  | [] => [x]
  | y :: l' => if sorts_after x y then y :: insert x l' else x :: l
  end.

Definition sort (l : list A) : list A := fold_right insert [] l.
End Sort.

(** Order by descending [key]. *)
Definition descending {A : Type} (key : A -> Z) (a b : A) : Prop :=
  (key b <= key a)%Z.

(** The default comparator of [sort()] on strings: code-unit order. *)
Definition compare_strings (a b : string) : option Z :=
  Some (match String.compare a b with
        | Lt => (-1)%Z
        | Eq => 0%Z
        | Gt => 1%Z
        end).

(** [[...new Set(l)]]: the distinct values in order of first occurrence. *)
Fixpoint dedupe (l : list string) : list string :=
  match l with
  | [] => []
  | x :: r => x :: filter (fun y => negb (String.eqb y x)) (dedupe r)
  end.

(** A number that is an integer, or NaN.  Integers are kept exact: the
    rounding of the integers beyond 2^53 changes no outcome below, where
    every integer beyond 2^31 is refused. *)
Inductive number : Type :=
| NaN
| Num (n : Z).

(** White space and line terminators, among the code units below 256. *)
Definition isStrWhiteSpaceChar (c : ascii) : bool :=
  let n := code c in
  in_range 9 13 n || (n =? 32)%N || (n =? 160)%N.

Fixpoint skip_white_space (s : string) : string :=
  match s with
  | EmptyString => EmptyString
  | String c r => if isStrWhiteSpaceChar c then skip_white_space r else s
  end.

Definition digit_value (radix : N) (c : ascii) : option N :=
  let n := code c in
  let v := if in_range 48 57 n then Some (n - 48)%N
           else if in_range 97 122 n then Some (n - 87)%N
           else if in_range 65 90 n then Some (n - 55)%N
           else None in
  match v with
  | Some d => if (d <? radix)%N then Some d else None
  | None => None
  end.

(** The value of the longest run of digits in front of [s]; [acc] is the
    value read so far, [None] when no digit was read. *)
Fixpoint digits (radix : N) (acc : option N) (s : string) : option N :=
  match s with
  | EmptyString => acc
  | String c r =>
      match digit_value radix c with
      | Some d =>
          digits radix
            (Some (match acc with
                   | Some a => a * radix + d
                   | None => d
                   end)%N) r
      | None => acc
      end
  end.

(** [parseInt(s)], with no radix given. *)
Definition parseInt (s : string) : number :=
  let s1 := skip_white_space s in
  let signed :=
    match s1 with
    | String c r =>
        if Ascii.eqb c "-" then (true, r)
        else if Ascii.eqb c "+" then (false, r)
        else (false, s1)
    | EmptyString => (false, s1)
    end in
  let s2 := snd signed in
  let based :=
    match s2 with
    | String c (String x r) =>
        if Ascii.eqb c "0" && (Ascii.eqb x "x" || Ascii.eqb x "X")
        then (16%N, r) else (10%N, s2)
    | _ => (10%N, s2)
    end in
  match digits (fst based) None (snd based) with
  | None => NaN
  | Some n => Num (if fst signed then - Z.of_N n else Z.of_N n)
  end.

End Js.

(** ** Outcomes of code that may throw *)
Module Exn.

Inductive result (A : Type) : Type :=
| Ok (a : A)
| Throw.
Arguments Ok {A} a.
Arguments Throw {A}.

Definition bind {A B : Type} (r : result A) (k : A -> result B) : result B :=
  match r with
  | Ok a => k a
  | Throw => Throw
  end.

End Exn.

Notation "x <- c1 ;; c2" := (Exn.bind c1 (fun x => c2))
  (at level 61, c1 at next level, right associativity).

(** ** Regular expressions: the patterns [`\\b${word}\\b`] with flag [i] *)
Module RegExp.
Import Js.

(** A matcher of one code unit: a pattern character, or the dot. *)
Inductive single : Type :=
| Char (c : ascii)
| Dot.

Inductive quantifier : Type :=
| Star          (* [*] *)
| Plus          (* [+] *)
| Optional.     (* [?] *)

(** The terms of an alternative.  An atom that carries no quantifier is
    a [Literal] or the [Wildcard]; [Repeat m q greedy] is the atom [m]
    under the quantifier [q], lazy when it is followed by [?]. *)
Inductive atom : Type :=
| WordBoundary                                      (* [\b] *)
| InputStart                                        (* [^] *)
| InputEnd                                          (* [$] *)
| Literal (c : ascii)
| Wildcard                                          (* [.] *)
| Repeat (m : single) (q : quantifier) (greedy : bool).

(** An alternative; a pattern is a list of alternatives, separated by
    [|] in the source text. *)
Definition pattern : Type := list atom.

(** SyntaxCharacter of the pattern grammar. *)
Definition isSyntaxCharacter (c : ascii) : bool :=
  existsb (Ascii.eqb c) (list_ascii_of_string "^$\.*+?()[]{}|").

Fixpoint literal_only (w : string) : bool :=
  match w with
  | EmptyString => true
  | String c r => negb (isSyntaxCharacter c) && literal_only r
  end.

Fixpoint literals (w : string) : pattern :=
  match w with
  | EmptyString => []
  | String c r => Literal c :: literals r
  end.

(** What [new RegExp(source, 'i')] comes to: a pattern, a SyntaxError,
    or a source text beyond the grammar embedded here (one that opens a
    group, a character class or a braced quantifier, or holds a
    backslash), of which nothing is said. *)
Inductive compiled : Type :=
| Regex (alternatives : list pattern)
| SyntaxError
| Beyond.

Definition quantifier_of (c : ascii) : option quantifier :=
  if Ascii.eqb c "*" then Some Star
  else if Ascii.eqb c "+" then Some Plus
  else if Ascii.eqb c "?" then Some Optional
  else None.

(** The characters that start a construct outside the embedded grammar. *)
Definition opens_beyond (c : ascii) : bool :=
  existsb (Ascii.eqb c) (list_ascii_of_string "([{\").

Definition unquantified (m : single) : atom :=
  match m with
  | Char c => Literal c
  | Dot => Wildcard
  end.

(** Put a term in front of the first alternative. *)
Definition push (a : atom) (r : compiled) : compiled :=
  match r with
  | Regex [] => Regex [[a]]
  | Regex (p :: alternatives) => Regex ((a :: p) :: alternatives)
  | SyntaxError => SyntaxError
  | Beyond => Beyond
  end.

(** The pattern grammar (with the legacy extensions of web browsers, so
    that a lone [] ] or [}] is a pattern character), read from left to
    right.  A quantifier with no atom before it (at the start, after an
    assertion, after [|] or after a quantified atom) is the SyntaxError
    "nothing to repeat"; so is a [)] that closes no group. *)
Fixpoint parse (w : string) : compiled :=
  match w with
  | EmptyString => Regex [[]]
  | String c r =>
      if opens_beyond c then Beyond
      else if Ascii.eqb c ")" then SyntaxError
      else
        match quantifier_of c with
        | Some _ => SyntaxError
        | None =>
            if Ascii.eqb c "|" then
              match parse r with
              | Regex alternatives => Regex ([] :: alternatives)
              | SyntaxError => SyntaxError
              | Beyond => Beyond
              end
            else if Ascii.eqb c "^" then push InputStart (parse r)
            else if Ascii.eqb c "$" then push InputEnd (parse r)
            else
              let m := if Ascii.eqb c "." then Dot else Char c in
              match r with
              | EmptyString => push (unquantified m) (parse r)
              | String q r1 =>
                  match quantifier_of q with
                  | None => push (unquantified m) (parse r)
                  | Some qu =>
                      match r1 with
                      | EmptyString => push (Repeat m qu true) (parse r1)
                      | String l r2 =>
                          if Ascii.eqb l "?"
                          then push (Repeat m qu false) (parse r2)
                          else push (Repeat m qu true) (parse r1)
                      end
                  end
              end
        end
  end.

(** Put [\b] behind the last alternative. *)
Fixpoint close (alternatives : list pattern) : list pattern :=
  match alternatives with
  | [] => []
  | [p] => [(p ++ [WordBoundary])%list]
  | p :: rest => p :: close rest
  end.

(** [new RegExp(`\\b${w}\\b`, 'i')] *)
Definition compile_bounded (w : string) : compiled :=
  match parse w with
  | Regex alternatives => push WordBoundary (Regex (close alternatives))
  | SyntaxError => SyntaxError
  | Beyond => Beyond
  end.

(** [\w] without the unicode flag. *)
Definition isWordChar (c : ascii) : bool :=
  let n := code c in
  in_range 48 57 n || in_range 65 90 n || in_range 97 122 n || (n =? 95)%N.

Definition is_word (c : option ascii) : bool :=
  match c with
  | None => false
  | Some c => isWordChar c
  end.

(** Canonicalize of the ignore-case matcher (non-unicode mode): the code
    unit of the upper-case form when that form is a single code unit.
    U+00FF maps to U+0178 and U+00B5 to U+039C; U+00DF has a
    two-letter upper-case form and stays. *)
Definition canonicalize (c : ascii) : N :=
  let n := code c in
  if in_range 97 122 n || (in_range 224 254 n && negb (n =? 247)%N)
  then (n - 32)%N
  else if (n =? 255)%N then 376%N
  else if (n =? 181)%N then 924%N
  else n.

(** The lower-case code unit a canonical code stands for. *)
Definition decode (n : N) : ascii :=
  if (n =? 376)%N then ascii_of_N 255
  else if (n =? 924)%N then ascii_of_N 181
  else lower_char (ascii_of_N n).

(** LineTerminator, among the code units below 256. *)
Definition isLineTerminator (c : ascii) : bool :=
  let n := code c in (n =? 10)%N || (n =? 13)%N.

Definition accepts (m : single) (x : ascii) : bool :=
  match m with
  | Char c => (canonicalize c =? canonicalize x)%N
  | Dot => negb (isLineTerminator x)
  end.

(** Match [p] at one position: [prev] is the code unit before the
    position and [s] the input from the position on.  A greedy quantifier
    tries one more repetition before it tries the rest of the pattern, a
    lazy one the other way round. *)
Fixpoint match_here (p : pattern) (prev : option ascii) (s : string) : bool :=
  match p with
  | [] => true
  | WordBoundary :: p' =>
      xorb (is_word prev) (is_word (first_char s)) && match_here p' prev s
  | InputStart :: p' =>
      match prev with
      | None => match_here p' prev s
      | Some _ => false
      end
  | InputEnd :: p' =>
      match s with
      | EmptyString => match_here p' prev s
      | String _ _ => false
      end
  | Literal c :: p' =>
      match s with
      | EmptyString => false
      | String x r =>
          (canonicalize c =? canonicalize x)%N && match_here p' (Some x) r
      end
  | Wildcard :: p' =>
      match s with
      | EmptyString => false
      | String x r => negb (isLineTerminator x) && match_here p' (Some x) r
      end
  | Repeat m q greedy :: p' =>
      let fix more (prev : option ascii) (s : string) {struct s} : bool :=
        let once :=
          match s with
          | EmptyString => false
          | String x r => accepts m x && more (Some x) r
          end in
        if greedy then once || match_here p' prev s
        else match_here p' prev s || once in
      match q with
      | Star => more prev s
      | Plus =>
          match s with
          | EmptyString => false
          | String x r => accepts m x && more (Some x) r
          end
      | Optional =>
          let once :=
            match s with
            | EmptyString => false
            | String x r => accepts m x && match_here p' (Some x) r
            end in
          if greedy then once || match_here p' prev s
          else match_here p' prev s || once
      end
  end.

(** The alternatives are tried in order. *)
Definition match_any (alternatives : list pattern) (prev : option ascii)
    (s : string) : bool :=
  existsb (fun p => match_here p prev s) alternatives.

Fixpoint search (alternatives : list pattern) (prev : option ascii)
    (s : string) : bool :=
  match_any alternatives prev s ||
  match s with
  | EmptyString => false
  | String x r => search alternatives (Some x) r
  end.

(** [regex.test(s)] for a regex without the global or sticky flag. *)
Definition test (alternatives : list pattern) (s : string) : bool :=
  search alternatives None s.

End RegExp.

(** ** The blacklist filter *)
Module Blacklist.
Import Js Exn.

(** The initial value of the module-level array. *)
Definition blacklistWords : list string :=
  [ "seks"; "porno"; "gokken"; "drugs"; "wapen"; "nep"; "scam"; "escort";
    "nude"; "fake";
    "sex"; "porn"; "gambling"; "weapon"; "fraud"; "cocaine"; "heroin";
    "marihuana"; "weed";
    "prostitutie"; "hoer"; "bordeel"; "illegaal"; "gestolen"; "namaak";
    "oplichting";
    "bitcoin scam"; "pyramid scheme"; "ponzi"; "money laundering";
    "witwassen" ].

Record ContentCheckResult : Type := {
  allowed : bool;
  blockedWords : list string;
  reason : option string
}.

(** The loop of [checkAdContent].  The first entry whose pattern is a
    SyntaxError makes the constructor throw, and the function with it;
    [None] when an entry beyond the embedded grammar comes before that. *)
Fixpoint foundWords (bl : list string) (content : string)
  : option (result (list string)) :=
  match bl with
  | [] => Some (Ok [])
  | word :: rest =>
      match RegExp.compile_bounded (toLowerCase word) with
      | RegExp.Beyond => None
      | RegExp.SyntaxError => Some Throw
      | RegExp.Regex regex =>
          match foundWords rest content with
          | Some (Ok found) =>
              Some (Ok (if RegExp.test regex content
                        then word :: found else found))
          | Some Throw => Some Throw
          | None => None
          end
      end
  end.

(** [checkAdContent(title, description)] run against the blacklist [bl]. *)
Definition checkAdContent (bl : list string) (title description : string)
  : option (result ContentCheckResult) :=
  let content := toLowerCase (title ++ " " ++ description) in
  match foundWords bl content with
  | None => None
  | Some Throw => Some Throw
  | Some (Ok found) =>
      if (0 <? List.length found)%nat then
        Some (Ok {| allowed := false;
                    blockedWords := found;
                    reason := Some ("Advertentie bevat verboden woorden: "
                                    ++ join ", " found) |})
      else
        Some (Ok {| allowed := true; blockedWords := []; reason := None |})
  end.

(** [addToBlacklist(words)] *)
Definition addToBlacklist (bl : list string) (words : list string)
  : list string :=
  bl ++ map toLowerCase words.

(** [indexOf] followed by [splice(index, 1)] when the index is not -1. *)
Fixpoint remove_first (w : string) (bl : list string) : list string :=
  match bl with
  | [] => []
  | x :: rest => if String.eqb x w then rest else x :: remove_first w rest
  end.

(** [removeFromBlacklist(words)] *)
Definition removeFromBlacklist (bl : list string) (words : list string)
  : list string :=
  fold_left (fun acc word => remove_first (toLowerCase word) acc) words bl.

(** [getBlacklist()] *)
Definition getBlacklist (bl : list string) : list string := bl.

End Blacklist.

(** ** The blocked-ad logger ([logging/blockedAdsLogger.ts]) *)
Module Logger.
Import Js Exn.

(** The [timestamp] field holds the ISO-8601 rendering of an instant;
    the embedding keeps the instant, which [new Date(..).getTime()]
    recovers from the rendering. *)
Record BlockedAdEntry : Type := {
  id : string;
  timestamp : Z;
  ipAddress : string;
  title : string;
  description : string;
  blockedWords : list string;
  userAgent : option string
}.

Definition MAX_LOG_ENTRIES : nat := 1000.

(** An element of the array found in the log file. *)
Inductive log_item : Type :=
| Entry (e : BlockedAdEntry)
    (* an entry as [logBlockedAd] writes it *)
| Foreign (time : option Z)
    (* any other non-null JSON value; [time] is what
       [new Date(item.timestamp).getTime()] gives, [None] for NaN *)
| Null.
    (* JSON null: reading its [timestamp] throws a TypeError *)

(** What [JSON.parse] can return, by truthiness and iterability. *)
Inductive json_value : Type :=
| JArray (items : list log_item)
| JString (len : nat)   (* a string of [len] code units *)
| JFalsy                (* null, false, 0 *)
| JOther.               (* an object, true, a non-zero number *)

(** The log file. *)
Inductive Disk : Type :=
| Missing                 (* no file *)
| Corrupt                 (* content that is not JSON *)
| Value (v : json_value).

Inductive ConsoleMsg : Type :=
| LogBlocked (words : list string) (ip : string)
| ErrorWriting
| ErrorLogging.

Record World : Type := {
  LOG_BLOCKED_ADS : option string;   (* the environment variable *)
  disk : Disk;
  console : list ConsoleMsg
}.

Definition set_disk (d : Disk) (w : World) : World :=
  {| LOG_BLOCKED_ADS := LOG_BLOCKED_ADS w; disk := d; console := console w |}.

Definition print (m : ConsoleMsg) (w : World) : World :=
  {| LOG_BLOCKED_ADS := LOG_BLOCKED_ADS w; disk := disk w;
     console := (console w ++ [m])%list |}.

(** What one call takes from its environment: the two clock readings,
    the random suffix, and the fate of its file operations. *)
Record Io : Type := {
  now_id : Z;                   (* [Date.now()] in [generateLogId] *)
  now : Z;                      (* [new Date()] for the timestamp *)
  random_suffix : string;
  read_fails : bool;            (* [fs.readFile] rejects *)
  write_fails : option Disk     (* [mkdir] or [writeFile] rejects, leaving
                                   this on disk *)
}.

Definition isLoggingEnabled (w : World) : bool :=
  match LOG_BLOCKED_ADS w with
  | Some v => String.eqb v "true"
  | None => false
  end.

Definition generateLogId (io : Io) : string :=
  "blocked_" ++ string_of_Z (now_id io) ++ "_" ++ random_suffix io.

Definition readFile (io : Io) (w : World) : result Disk :=
  if read_fails io then Throw
  else match disk w with
       | Missing => Throw
       | d => Ok d
       end.

Definition JSON_parse (d : Disk) : result json_value :=
  match d with
  | Value v => Ok v
  | _ => Throw
  end.

Definition truthy (v : json_value) : bool :=
  match v with
  | JArray _ => true
  | JString len => negb (Nat.eqb len 0)
  | JFalsy => false
  | JOther => true
  end.

(** [readExistingLogs()]: the [try] block, and [[]] from the [catch]. *)
Definition readExistingLogs (io : Io) (w : World) : json_value :=
  match (data <- readFile io w ;;
         v <- JSON_parse data ;;
         Ok (if truthy v then v else JArray [])) with
  | Ok v => v
  | Throw => JArray []
  end.

(** [writeLogsToFile(logs)]: a failure is caught and reported on the
    console. *)
Definition writeLogsToFile (io : Io) (logs : list log_item) (w : World)
  : World :=
  match write_fails io with
  | None => set_disk (Value (JArray logs)) w
  | Some remains => print ErrorWriting (set_disk remains w)
  end.

(** [[...v]]: the characters of a string have no [timestamp]. *)
Definition spread (v : json_value) : result (list log_item) :=
  match v with
  | JArray items => Ok items
  | JString len => Ok (repeat (Foreign None) len)
  | JFalsy => Throw
  | JOther => Throw
  end.

Definition item_time (i : log_item) : option Z :=
  match i with
  | Entry e => Some (timestamp e)
  | Foreign t => t
  | Null => None
  end.

Definition is_null (i : log_item) : bool :=
  match i with
  | Null => true
  | _ => false
  end.

(** [(a, b) => new Date(b.timestamp).getTime() - new Date(a.timestamp).getTime()] *)
Definition newest_first (a b : log_item) : option Z :=
  match item_time b, item_time a with
  | Some tb, Some ta => Some (tb - ta)%Z
  | _, _ => None
  end.

(** [logs.sort(newest_first)] on two or more items: every item meets the
    comparator, which throws on a null item. *)
Definition sort_newest_first (logs : list log_item) : result (list log_item) :=
  if existsb is_null logs then Throw else Ok (sort newest_first logs).

Definition limitLogEntries (logs : list log_item) : result (list log_item) :=
  if (List.length logs <=? MAX_LOG_ENTRIES)%nat then Ok logs
  else sorted <- sort_newest_first logs ;; Ok (firstn MAX_LOG_ENTRIES sorted).

Definition newEntry (io : Io) (ip title description : string)
    (blockedWords : list string) (userAgent : option string)
  : BlockedAdEntry :=
  {| id := generateLogId io;
     timestamp := now io;
     ipAddress := ip;
     title := substring 0 200 title;
     description := substring 0 500 description;
     blockedWords := blockedWords;
     userAgent := option_map (substring 0 200) userAgent |}.

(** The [try] block of [logBlockedAd]: the world it leaves and whether it
    completed. *)
Definition logBlockedAd_try (io : Io) (ip title description : string)
    (blockedWords : list string) (userAgent : option string) (w : World)
  : World * result unit :=
  let logEntry := newEntry io ip title description blockedWords userAgent in
  let existingLogs := readExistingLogs io w in
  match (rest <- spread existingLogs ;;
         limitLogEntries (Entry logEntry :: rest)) with
  | Throw => (w, Throw)
  | Ok limitedLogs =>
      let w1 := writeLogsToFile io limitedLogs w in
      (print (LogBlocked blockedWords ip) w1, Ok tt)
  end.

(** [logBlockedAd(ipAddress, title, description, blockedWords, userAgent)] *)
Definition logBlockedAd (io : Io) (ip title description : string)
    (blockedWords : list string) (userAgent : option string) (w : World)
  : result World :=
  if negb (isLoggingEnabled w) then Ok w
  else
    match logBlockedAd_try io ip title description blockedWords userAgent w with
    | (w', Ok _) => Ok w'
    | (w', Throw) => Ok (print ErrorLogging w')
    end.

(** One logged submission, and a run of them in sequence. *)
Record Call : Type := {
  call_io : Io;
  call_ip : string;
  call_title : string;
  call_description : string;
  call_words : list string;
  call_agent : option string
}.

Definition entry_of (c : Call) : BlockedAdEntry :=
  newEntry (call_io c) (call_ip c) (call_title c) (call_description c)
           (call_words c) (call_agent c).

Definition logCall (c : Call) (w : World) : result World :=
  logBlockedAd (call_io c) (call_ip c) (call_title c) (call_description c)
               (call_words c) (call_agent c) w.

Fixpoint logAll (calls : list Call) (w : World) : result World :=
  match calls with
  | [] => Ok w
  | c :: rest => w' <- logCall c w ;; logAll rest w'
  end.

(** The order [limitLogEntries] sorts well-formed entries in. *)
Definition newest_entry_first (a b : BlockedAdEntry) : option Z :=
  Some (timestamp b - timestamp a)%Z.

(** A log file that reads as the empty collection. *)
Definition reads_as_empty (d : Disk) : Prop :=
  d = Missing \/ d = Corrupt \/ d = Value JFalsy \/
  d = Value (JString 0) \/ d = Value (JArray []).

(** The file operations of a call succeed. *)
Definition io_succeeds (io : Io) : Prop :=
  read_fails io = false /\ write_fails io = None.

(** The log file holds the entries [es], and nothing else. *)
Definition holds (w : World) (es : list BlockedAdEntry) : Prop :=
  forall io, read_fails io = false ->
             readExistingLogs io w = JArray (map Entry es).

(** A world with logging switched on and no log file yet, and the
    [n]-th of a series of refused submissions, logged at instant [n]. *)
Definition fresh_world : World :=
  {| LOG_BLOCKED_ADS := Some "true"; disk := Missing; console := [] |}.

Definition nth_call (n : nat) : Call :=
  {| call_io := {| now_id := Z.of_nat n; now := Z.of_nat n;
                   random_suffix := "k3j9x0q1z";
                   read_fails := false; write_fails := None |};
     call_ip := "10.0.0.7";
     call_title := "Gratis gokken aanbieding";
     call_description := "";
     call_words := ["gokken"];
     call_agent := None |}.

End Logger.

(** ** The relational store ([shared/schema.ts], [storage.ts]) *)
Module Store.
Import Js Exn.

(** The values the [status] column of an ad takes. *)
Inductive Status : Type := pending | approved | rejected | expired.

Definition Status_eqb (a b : Status) : bool :=
  match a, b with
  | pending, pending | approved, approved
  | rejected, rejected | expired, expired => true
  | _, _ => false
  end.

(** A row of [ads].  The columns that carry a default and that no
    operation below sets to NULL hold a value. *)
Record Ad : Type := {
  ad_id : Z;
  title : string;
  description : string;
  price : option Z;            (* in cents; nullable *)
  currency : string;
  categoryId : option Z;
  subcategoryId : option Z;
  location : string;
  phone : string;
  email : string;
  images : list string;
  primaryImageIndex : Z;
  status : Status;
  views : Z;
  userId : string;
  createdAt : Z;
  updatedAt : Z;
  expiresAt : Z
}.

Record Category : Type := {
  cat_id : Z;
  cat_name : string;
  cat_slug : string
}.

Record AdminSetting : Type := {
  setting_key : string;
  setting_value : string
}.

(** The identifier of a filter definition: the serial of a stored row,
    or the name of a synthesized one. *)
Inductive FilterId : Type :=
| Serial (n : Z)
| Dynamic (name : string).

(** A placeholder is a text, or the euro sign followed by a whole
    amount, as in [`€${Math.floor(minPrice / 100)}`]. *)
Inductive Placeholder : Type :=
| PlaceholderText (text : string)
| PlaceholderEuro (amount : Z).

Record FilterDefinition : Type := {
  filter_id : FilterId;
  categorySlug : string;
  field : string;
  label : string;
  type : string;
  options : option (list string);
  placeholder : Placeholder;
  required : bool;
  sortOrder : Z;
  isActive : bool
}.

(** The tables with a column [ad_id] that references [ads.id]; none of
    the references says what happens on delete. *)
Inductive ReferringTable : Type :=
| Messages
| Conversations
| ChatMessages
| Favorites
| Bids
| RecentlyViewed.

Record Database : Type := {
  ads : list Ad;
  categories : list Category;
  adminSettings : list AdminSetting;
  filterDefinitions : list FilterDefinition;
  users : list string;         (* the [id] of each row of [users] *)
  adReferences : list (ReferringTable * Z);
                               (* the [ad_id] of each row that has one *)
  next_ad_id : Z               (* the sequence behind [serial("id")] *)
}.

Definition with_ads (l : list Ad) (d : Database) : Database :=
  {| ads := l; categories := categories d; adminSettings := adminSettings d;
     filterDefinitions := filterDefinitions d; users := users d;
     adReferences := adReferences d; next_ad_id := next_ad_id d |}.

Definition with_next_ad_id (n : Z) (d : Database) : Database :=
  {| ads := ads d; categories := categories d;
     adminSettings := adminSettings d;
     filterDefinitions := filterDefinitions d; users := users d;
     adReferences := adReferences d; next_ad_id := n |}.

Definition set_status (s : Status) (a : Ad) : Ad :=
  {| ad_id := ad_id a; title := title a; description := description a;
     price := price a; currency := currency a; categoryId := categoryId a;
     subcategoryId := subcategoryId a;
     location := location a; phone := phone a; email := email a;
     images := images a; primaryImageIndex := primaryImageIndex a;
     status := s; views := views a; userId := userId a;
     createdAt := createdAt a; updatedAt := updatedAt a;
     expiresAt := expiresAt a |}.

Definition set_updatedAt (t : Z) (a : Ad) : Ad :=
  {| ad_id := ad_id a; title := title a; description := description a;
     price := price a; currency := currency a; categoryId := categoryId a;
     subcategoryId := subcategoryId a;
     location := location a; phone := phone a; email := email a;
     images := images a; primaryImageIndex := primaryImageIndex a;
     status := status a; views := views a;
     userId := userId a; createdAt := createdAt a; updatedAt := t;
     expiresAt := expiresAt a |}.

(** The first row with the given id, as [select ... where id = ?] and
    array destructuring give it. *)
Definition getAd (d : Database) (id : Z) : option Ad :=
  find (fun a => (ad_id a =? id)%Z) (ads d).

(** The range of the column type [integer]. *)
Definition INT_MAX : Z := 2147483647.
Definition INT_MIN : Z := -2147483648.

Definition is_integer (n : Z) : bool :=
  (INT_MIN <=? n)%Z && (n <=? INT_MAX)%Z.

(** A number sent as the value of an [integer] column or compared with
    one: the statement is refused unless it is in range. *)
Definition integer_parameter (n : number) : bool :=
  match n with
  | NaN => false
  | Num v => is_integer v
  end.

(** A string sent as a [text] value: the zero code unit is refused. *)
Definition text_parameter (s : string) : bool :=
  negb (existsb (fun c => (code c =? 0)%N) (list_ascii_of_string s)).

(** [getCategory(id)] *)
Definition getCategory (d : Database) (id : Z) : result (option Category) :=
  if is_integer id
  then Ok (find (fun c => (cat_id c =? id)%Z) (categories d))
  else Throw.

(** [getAdminSetting(key)]: [setting?.value || null]. *)
Definition getAdminSetting (d : Database) (key : string) : option string :=
  match find (fun r => String.eqb (setting_key r) key) (adminSettings d) with
  | Some r => if String.eqb (setting_value r) "" then None
              else Some (setting_value r)
  | None => None
  end.

(** What the caller hands to [createAd]: for each column the value of
    the key that names it, [None] when the object has no such key (the
    column then takes its default).  The creation route always gives
    [images], [status] and [userId]. *)
Record InsertAd : Type := {
  ins_id : option number;
  ins_title : option string;
  ins_description : option string;
  ins_price : option number;
  ins_currency : option string;
  ins_categoryId : option number;
  ins_subcategoryId : option number;
  ins_location : option string;
  ins_phone : option string;
  ins_email : option string;
  ins_images : list string;
  ins_primaryImageIndex : option number;
  ins_status : Status;
  ins_views : option number;
  ins_userId : string
}.

Definition optional {A : Type} (check : A -> bool) (o : option A) : bool :=
  match o with
  | None => true
  | Some a => check a
  end.

(** The values of the statement are read before it runs. *)
Definition parameters_accepted (ins : InsertAd) : bool :=
  optional integer_parameter (ins_id ins) &&
  optional text_parameter (ins_title ins) &&
  optional text_parameter (ins_description ins) &&
  optional integer_parameter (ins_price ins) &&
  optional text_parameter (ins_currency ins) &&
  optional integer_parameter (ins_categoryId ins) &&
  optional integer_parameter (ins_subcategoryId ins) &&
  optional text_parameter (ins_location ins) &&
  optional text_parameter (ins_phone ins) &&
  optional text_parameter (ins_email ins) &&
  forallb text_parameter (ins_images ins) &&
  optional integer_parameter (ins_primaryImageIndex ins) &&
  optional integer_parameter (ins_views ins) &&
  text_parameter (ins_userId ins).

Definition column (o : option number) : option Z :=
  match o with
  | Some (Num v) => Some v
  | _ => None
  end.

Definition with_default {A : Type} (default : A) (o : option A) : A :=
  match o with
  | Some a => a
  | None => default
  end.

Definition is_category (d : Database) (id : Z) : bool :=
  existsb (fun c => (cat_id c =? id)%Z) (categories d).

Definition is_user (d : Database) (id : string) : bool :=
  existsb (String.eqb id) (users d).

Definition is_ad (d : Database) (id : Z) : bool :=
  existsb (fun a => (ad_id a =? id)%Z) (ads d).

(** [interval '60 days'], in milliseconds. *)
Definition EXPIRES_AFTER : Z := 60 * 24 * 60 * 60 * 1000.

(** The row an insert at instant [t] makes under the id [id]. *)
Definition new_row (ins : InsertAd) (id t : Z)
    (title description location : string) : Ad :=
  {| ad_id := id; title := title; description := description;
     price := column (ins_price ins);
     currency := with_default "EUR" (ins_currency ins);
     categoryId := column (ins_categoryId ins);
     subcategoryId := column (ins_subcategoryId ins);
     location := location;
     phone := with_default "" (ins_phone ins);
     email := with_default "" (ins_email ins);
     images := ins_images ins;
     primaryImageIndex := with_default 0%Z (column (ins_primaryImageIndex ins));
     status := ins_status ins;
     views := with_default 0%Z (column (ins_views ins));
     userId := ins_userId ins;
     createdAt := t; updatedAt := t; expiresAt := (t + EXPIRES_AFTER)%Z |}.

(** The constraints of [ads] on a new row: the primary key, and the
    references to [categories] and [users]. *)
Definition row_accepted (d : Database) (a : Ad) : bool :=
  negb (is_ad d (ad_id a)) &&
  optional (is_category d) (categoryId a) &&
  optional (is_category d) (subcategoryId a) &&
  is_user d (userId a).

(** [createAd(insertAd)] at instant [t]: the inserted row is returned.
    A value the statement cannot take is refused before the statement
    runs.  When it runs, an id that is not given is drawn from the
    sequence, which keeps what it has handed out also when the row is
    then refused: for a missing [title], [description] or [location]
    (the columns without default that must not be NULL), or by
    [row_accepted]. *)
Definition createAd (ins : InsertAd) (t : Z) (d : Database)
  : result Ad * Database :=
  if negb (parameters_accepted ins) then (Throw, d)
  else
    match
      match column (ins_id ins) with
      | Some id => Some (id, d)
      | None =>
          if is_integer (next_ad_id d)
          then Some (next_ad_id d,
                     with_next_ad_id (next_ad_id d + 1)%Z d)
          else None
      end
    with
    | None => (Throw, d)
    | Some (id, d1) =>
        match ins_title ins, ins_description ins, ins_location ins with
        | Some title, Some description, Some location =>
            let ad := new_row ins id t title description location in
            if row_accepted d1 ad
            then (Ok ad, with_ads (ads d1 ++ [ad])%list d1)
            else (Throw, d1)
        | _, _, _ => (Throw, d1)
        end
    end.

(** [updateAdStatus(id, status)] at instant [t]: every row with the id is
    updated and the first one returned. *)
Definition updateAdStatus (id : Z) (s : Status) (t : Z) (d : Database)
  : option Ad * Database :=
  let d' :=
    with_ads (map (fun a => if (ad_id a =? id)%Z
                            then set_updatedAt t (set_status s a) else a)
                  (ads d)) d in
  (getAd d' id, d').

(** Some row of a referring table names the ad. *)
Definition is_referenced (d : Database) (id : Z) : bool :=
  existsb (fun r => (snd r =? id)%Z) (adReferences d).

(** [deleteAd(id)]: whether a row was deleted.  The statement is refused
    for an id out of range; it fails, and deletes nothing, when a row it
    would delete is still referenced. *)
Definition deleteAd (id : Z) (d : Database) : result bool * Database :=
  let gone := filter (fun a => (ad_id a =? id)%Z) (ads d) in
  if negb (is_integer id) then (Throw, d)
  else if (0 <? List.length gone)%nat && is_referenced d id then (Throw, d)
  else
    (Ok (0 <? List.length gone)%nat,
     with_ads (filter (fun a => negb (ad_id a =? id)%Z) (ads d)) d).

End Store.

(** ** The scheduled jobs ([cron.ts]) *)
Module Cron.
Import Store.

Definition SIXTY_DAYS : Z := 60 * 24 * 60 * 60 * 1000.

(** [and(lt(ads.createdAt, sixtyDaysAgo), ne(ads.status, 'expired'))] *)
Definition is_overdue (sixtyDaysAgo : Z) (a : Ad) : bool :=
  (createdAt a <? sixtyDaysAgo)%Z && negb (Status_eqb (status a) expired).

(** [checkExpiredAds()] run at instant [now]; [None] is the missing
    database connection, on which the job returns at once. *)
Definition checkExpiredAds (now : Z) (db : option Database)
  : option Database :=
  match db with
  | None => None
  | Some d =>
      let sixtyDaysAgo := (now - SIXTY_DAYS)%Z in
      let expiredAds := filter (is_overdue sixtyDaysAgo) (ads d) in
      if (0 <? List.length expiredAds)%nat then
        Some (with_ads
                (map (fun a => if is_overdue sixtyDaysAgo a
                               then set_status expired a else a)
                     (ads d)) d)
      else Some d
  end.

(** What the sweep at instant [now] does to one stored ad. *)
Definition sweep_ad (now : Z) (a : Ad) : Ad :=
  if is_overdue (now - SIXTY_DAYS) a then set_status expired a else a.

Definition DAY : Z := 24 * 60 * 60 * 1000.

End Cron.

(** ** The ad routes ([routes.ts]) *)
Module Routes.
Import Js Exn Store.

(** The process state the ad routes work on. *)
Record Server : Type := {
  db : Database;
  blacklist : list string;       (* the array of [blacklist.ts] *)
  log : Logger.World
}.

Definition with_db (d : Database) (srv : Server) : Server :=
  {| db := d; blacklist := blacklist srv; log := log srv |}.

Definition with_log (w : Logger.World) (srv : Server) : Server :=
  {| db := db srv; blacklist := blacklist srv; log := w |}.

(** The fields of a [multipart/form-data] body that the route reads:
    each is a string, or absent. *)
Record FormBody : Type := {
  form_title : option string;
  form_description : option string;
  form_price : option string;
  form_currency : option string;
  form_location : option string;
  form_categoryId : option string;
  form_subcategoryId : option string;
  form_email : option string;
  form_contactPhone : option string
}.

(** A JSON body, by the keys that the route reads or that name a column
    of [ads]: each is absent, or holds a string where the column is a
    text and an integer where it is an integer.  The keys [status],
    [userId] and [images] are left out, the route overwriting them; and
    a body that names one of the timestamp columns is not considered. *)
Record JsonBody : Type := {
  json_id : option Z;
  json_title : option string;
  json_description : option string;
  json_price : option Z;
  json_currency : option string;
  json_categoryId : option Z;
  json_subcategoryId : option Z;
  json_location : option string;
  json_phone : option string;
  json_contactPhone : option string;
  json_email : option string;
  json_primaryImageIndex : option Z;
  json_views : option Z
}.

Inductive RequestBody : Type :=
| Multipart (form : FormBody)
| Json (json : JsonBody).

(** [adData], by the keys the route reads or [createAd] stores. *)
Record AdData : Type := {
  data_id : option number;
  data_title : option string;
  data_description : option string;
  data_price : option number;
  data_currency : option string;
  data_location : option string;
  data_categoryId : option number;
  data_subcategoryId : option number;
  data_email : option string;
  data_phone : option string;
  data_primaryImageIndex : option number;
  data_views : option number
}.

(** A string that is not the empty one, as [||] and [?:] test it. *)
Definition truthy (o : option string) : option string :=
  match o with
  | Some s => if String.eqb s "" then None else Some s
  | None => None
  end.

(** [parseInt(value)], where an absent value reads as NaN. *)
Definition parseInt_field (o : option string) : number :=
  match o with
  | Some s => parseInt s
  | None => NaN
  end.

Definition adData_of (body : RequestBody) : AdData :=
  match body with
  | Multipart f =>
      {| data_id := None;
         data_title := form_title f;
         data_description := form_description f;
         data_price := Some (parseInt_field (form_price f));
         data_currency :=
           Some (match truthy (form_currency f) with
                 | Some c => c
                 | None => "EUR"
                 end);
         data_location := form_location f;
         data_categoryId := Some (parseInt_field (form_categoryId f));
         data_subcategoryId :=
           option_map parseInt (truthy (form_subcategoryId f));
         data_email := form_email f;
         data_phone := form_contactPhone f;
         data_primaryImageIndex := None;
         data_views := None |}
  | Json j =>
      {| data_id := option_map Num (json_id j);
         data_title := json_title j;
         data_description := json_description j;
         data_price := option_map Num (json_price j);
         data_currency := json_currency j;
         data_location := json_location j;
         data_categoryId := option_map Num (json_categoryId j);
         data_subcategoryId := option_map Num (json_subcategoryId j);
         data_email := json_email j;
         data_phone :=
           match truthy (json_phone j) with
           | Some ph => Some ph
           | None => json_contactPhone j
           end;
         data_primaryImageIndex := option_map Num (json_primaryImageIndex j);
         data_views := option_map Num (json_views j) |}
  end.

Record CreateAdRequest : Type := {
  req_user : option string;      (* the user id the token or session gives *)
  req_body : RequestBody;
  req_images : list string;      (* [/uploads/<filename>] of each upload *)
  req_ip : string;
  req_agent : option string;
  req_io : Logger.Io;
  req_time : Z                   (* the instant of the insert *)
}.

(** The HTML pages of the one-click links. *)
Inductive Page : Type :=
| PageNotFound
| PageApproved
| PageRejected.

Inductive Body : Type :=
| BodyAd (a : Ad)
| BodyError (error : string)
| BodyMessage (message : string)
| BodyBlocked (message : option string) (blockedWords : list string)
| BodyStatus (message : string) (a : Ad)
| BodySuccess (message : string)
| BodyPriceCap      (* the message that the price exceeds the ceiling *)
| BodyPage (p : Page).

Record Response : Type := {
  http_status : Z;
  body : Body
}.

Definition respond (code : Z) (b : Body) : Response :=
  {| http_status := code; body := b |}.

(** White space that [trim()] removes, among the code units below 256. *)
Definition is_space (c : ascii) : bool :=
  let n := code c in
  in_range 9 13 n || (n =? 32)%N || (n =? 160)%N.

Fixpoint is_blank (s : string) : bool :=
  match s with
  | EmptyString => true
  | String c r => is_space c && is_blank r
  end.

(** [!value || (typeof value === 'string' && !value.trim())] *)
Definition missing_text (o : option string) : bool :=
  match o with
  | Some s => is_blank s
  | None => true
  end.

Definition missing_number (o : option number) : bool :=
  match o with
  | Some (Num v) => (v =? 0)%Z
  | Some NaN => true
  | None => true
  end.

Definition missingFields (d : AdData) : list string :=
  ((if missing_text (data_title d) then ["Titel"] else []) ++
   (if missing_text (data_description d) then ["Beschrijving"] else []) ++
   (if missing_number (data_price d) then ["Prijs"] else []) ++
   (if missing_number (data_categoryId d) then ["Categorie"] else []) ++
   (if missing_text (data_email d) then ["E-mail"] else []) ++
   (if missing_text (data_phone d) then ["Telefoonnummer"] else []))%list.

(** A string parameter with the default [""]. *)
Definition or_empty (o : option string) : string :=
  match o with
  | Some s => s
  | None => ""
  end.

Definition currency_is (o : option string) (c : string) : bool :=
  match o with
  | Some s => String.eqb s c
  | None => false
  end.

(** The price ceiling of the category "Bunkopu Seri": 10 euro, or 400
    SRD, on a price in cents. *)
Definition bunkopu_price_too_high (category : option Category) (price : Z)
    (currency : option string) : bool :=
  match category with
  | Some category =>
      String.eqb (cat_name category) "Bunkopu Seri" &&
      ((currency_is currency "EUR" && (1000 <? price)%Z) ||
       (currency_is currency "SRD" && (40000 <? price)%Z))
  | None => false
  end.

(** [requireApproval === "true" ? "pending" : "approved"] *)
Definition initial_status (requireApproval : option string) : Status :=
  match requireApproval with
  | Some v => if String.eqb v "true" then pending else approved
  | None => approved
  end.

(** [{...adData, userId, email: adData.email || userEmail, status,
    images}], by the columns of [ads]; once the required fields are
    there, [adData.email] is the e-mail stored. *)
Definition insertData (adData : AdData) (userId : string) (status : Status)
    (imageUrls : list string) : InsertAd :=
  {| ins_id := data_id adData;
     ins_title := data_title adData;
     ins_description := data_description adData;
     ins_price := data_price adData;
     ins_currency := data_currency adData;
     ins_categoryId := data_categoryId adData;
     ins_subcategoryId := data_subcategoryId adData;
     ins_location := data_location adData;
     ins_phone := data_phone adData;
     ins_email := data_email adData;
     ins_images := imageUrls;
     ins_primaryImageIndex := data_primaryImageIndex adData;
     ins_status := status;
     ins_views := data_views adData;
     ins_userId := userId |}.

(** The answer of the [catch] around the handler. *)
Definition server_error : Response :=
  respond 500 (BodyMessage "Server error").

(** [POST /api/ads], past the rate limiter.  [None]: the blacklist holds
    an entry beyond the embedded pattern grammar.  The notification mail
    sent for a pending ad changes none of the state kept here. *)
Definition postAd (req : CreateAdRequest) (srv : Server)
  : option (Response * Server) :=
  let adData := adData_of (req_body req) in
  match req_user req with
  | None => Some (respond 401 (BodyMessage "Niet ingelogd"), srv)
  | Some userId =>
  let missing := missingFields adData in
  if (0 <? List.length missing)%nat then
    Some (respond 400
            (BodyError ("Ontbrekende velden: " ++ join ", " missing)), srv)
  else
  match data_price adData with
  | None | Some NaN =>
      Some (respond 400 (BodyError "Prijs moet een geldig getal zijn"), srv)
  | Some (Num price) =>
  if (price <=? 0)%Z then
    Some (respond 400 (BodyError "Prijs moet een geldig getal zijn"), srv)
  else
  match data_categoryId adData with
  | None | Some NaN =>
      Some (respond 400 (BodyError "Categorie is ongeldig"), srv)
  | Some (Num categoryId) =>
  let title := or_empty (data_title adData) in
  let description := or_empty (data_description adData) in
  match Blacklist.checkAdContent (blacklist srv) title description with
  | None => None
  | Some Throw => Some (server_error, srv)
  | Some (Ok contentCheck) =>
  if negb (Blacklist.allowed contentCheck) then
    match Logger.logBlockedAd (req_io req) (req_ip req) title description
            (Blacklist.blockedWords contentCheck) (req_agent req)
            (log srv) with
    | Ok w =>
        Some (respond 400
                (BodyBlocked (Blacklist.reason contentCheck)
                             (Blacklist.blockedWords contentCheck)),
              with_log w srv)
    | Throw => Some (server_error, srv)
    end
  else
  match getCategory (db srv) categoryId with
  | Throw => Some (server_error, srv)
  | Ok category =>
  if bunkopu_price_too_high category price (data_currency adData)
  then
    Some (respond 400 BodyPriceCap, srv)
  else
    let requireApproval := getAdminSetting (db srv) "requireAdApproval" in
    let status := initial_status requireApproval in
    let imageUrls := req_images req in
    match createAd (insertData adData userId status imageUrls)
            (req_time req) (db srv) with
    | (Ok ad, d) => Some (respond 200 (BodyAd ad), with_db d srv)
    | (Throw, d) => Some (server_error, with_db d srv)
    end
  end
  end
  end
  end
  end.

(** [GET /api/ads/:id/approve] and [GET /api/ads/:id/reject] *)
Definition approveLink (id now : Z) (d : Database) : Response * Database :=
  match updateAdStatus id approved now d with
  | (None, d') => (respond 404 (BodyPage PageNotFound), d')
  | (Some ad, d') => (respond 200 (BodyPage PageApproved), d')
  end.

Definition rejectLink (id now : Z) (d : Database) : Response * Database :=
  match updateAdStatus id rejected now d with
  | (None, d') => (respond 404 (BodyPage PageNotFound), d')
  | (Some ad, d') => (respond 200 (BodyPage PageRejected), d')
  end.

(** [PATCH /api/ads/:id/status], past the admin check, with a [status]
    that names a status of the store. *)
Definition patchStatus (id : Z) (s : Status) (now : Z) (d : Database)
  : Response * Database :=
  match s with
  | expired => (respond 400 (BodyMessage "Invalid status"), d)
  | _ =>
      match updateAdStatus id s now d with
      | (None, d') => (respond 404 (BodyMessage "Advertentie niet gevonden"), d')
      | (Some ad, d') =>
          (respond 200
             (BodyStatus
                (match s with
                 | approved => "Advertentie goedgekeurd"
                 | rejected => "Advertentie afgewezen"
                 | _ => "Advertentie in behandeling"
                 end) ad), d')
      end
  end.

(** [DELETE /api/ads/:id], past the admin check. *)
Definition deleteRoute (id : Z) (d : Database) : Response * Database :=
  match deleteAd id d with
  | (Throw, d') => (server_error, d')
  | (Ok false, d') =>
      (respond 404 (BodyMessage "Advertentie niet gevonden"), d')
  | (Ok true, d') =>
      (respond 200 (BodySuccess "Advertentie succesvol verwijderd"), d')
  end.

(** The operations that write the status of stored ads or remove them. *)
Inductive Operation : Type :=
| ApproveLink (id : Z)
| RejectLink (id : Z)
| PatchStatus (id : Z) (s : Status)
| Sweep
| Delete (id : Z).

(** One operation at instant [now], on a connected database. *)
Definition run (op : Operation) (now : Z) (d : Database) : Database :=
  match op with
  | ApproveLink id => snd (approveLink id now d)
  | RejectLink id => snd (rejectLink id now d)
  | PatchStatus id s => snd (patchStatus id s now d)
  | Sweep =>
      match Cron.checkExpiredAds now (Some d) with
      | Some d' => d'
      | None => d
      end
  | Delete id => snd (deleteRoute id d)
  end.

(** The status changes the specification lists for a stored ad. *)
Definition listed_transition (s s' : Status) : Prop :=
  (s = pending /\ s' = approved) \/
  (s = pending /\ s' = rejected) \/
  (s = approved /\ s' = expired).

(** A stored ad of the given status, created at instant 0. *)
Definition old_ad (id : Z) (s : Status) : Ad :=
  {| ad_id := id; title := "Fiets te koop"; description := "Goede staat";
     price := Some 5000%Z; currency := "SRD"; categoryId := Some 1%Z;
     subcategoryId := None;
     location := "Paramaribo"; phone := "8123456";
     email := "verkoper@example.com"; images := []; primaryImageIndex := 0;
     status := s;
     views := 0; userId := "u1"; createdAt := 0; updatedAt := 0;
     expiresAt := EXPIRES_AFTER |}.

Definition fietsen : Category :=
  {| cat_id := 1; cat_name := "Fietsen"; cat_slug := "fietsen" |}.

Definition one_approved_ad : Database :=
  {| ads := [old_ad 1 approved];
     categories := [fietsen]; adminSettings := []; filterDefinitions := [];
     users := ["u1"]; adReferences := [];
     next_ad_id := 2 |}.

Definition two_ads : Database :=
  {| ads := [old_ad 1 rejected; old_ad 2 pending];
     categories := [fietsen]; adminSettings := []; filterDefinitions := [];
     users := ["u1"]; adReferences := [];
     next_ad_id := 3 |}.

(** A server that requires approval, one that does not, and a
    well-formed submission. *)
Definition moderated_server : Server :=
  {| db := {| ads := []; categories := [fietsen];
              adminSettings := [{| setting_key := "requireAdApproval";
                                   setting_value := "true" |}];
              filterDefinitions := [];
              users := ["u1"]; adReferences := []; next_ad_id := 1 |};
     blacklist := Blacklist.blacklistWords;
     log := Logger.fresh_world |}.

Definition unmoderated_server : Server :=
  {| db := {| ads := []; categories := [fietsen];
              adminSettings := [{| setting_key := "requireAdApproval";
                                   setting_value := "false" |}];
              filterDefinitions := [];
              users := ["u1"]; adReferences := []; next_ad_id := 1 |};
     blacklist := Blacklist.blacklistWords;
     log := Logger.fresh_world |}.

Definition bike_form : FormBody :=
  {| form_title := Some "Fiets te koop";
     form_description := Some "Goede staat";
     form_price := Some "5000";
     form_currency := Some "SRD";
     form_location := Some "Paramaribo";
     form_categoryId := Some "1";
     form_subcategoryId := None;
     form_email := Some "verkoper@example.com";
     form_contactPhone := Some "8123456" |}.

Definition bike_request : CreateAdRequest :=
  {| req_user := Some "u1";
     req_body := Multipart bike_form;
     req_images := [];
     req_ip := "10.0.0.7";
     req_agent := None;
     req_io := Logger.call_io (Logger.nth_call 0);
     req_time := 1000 |}.

End Routes.

(** ** The dynamic filter generator ([routes.ts]) *)
Module Filters.
Import Js Store.

Definition capitalizeFirst (str : string) : string :=
  match str with
  | EmptyString => EmptyString
  | String c r => String (upper_char c) r
  end.

(** [extractKeywords(text, keywords)] *)
Definition extractKeywords (text : string) (keywords : list string)
  : list string :=
  dedupe (filter (fun keyword => includes text (toLowerCase keyword)) keywords).

Definition select_filter (name slug fld lbl : string) (opts : list string)
    (ph : string) (order : Z) : FilterDefinition :=
  {| filter_id := Dynamic name; categorySlug := slug; field := fld;
     label := lbl; type := "select"; options := Some opts;
     placeholder := PlaceholderText ph; required := false;
     sortOrder := order; isActive := true |}.

Definition number_filter (name slug fld lbl : string) (amount order : Z)
  : FilterDefinition :=
  {| filter_id := Dynamic name; categorySlug := slug; field := fld;
     label := lbl; type := "number"; options := None;
     placeholder := PlaceholderEuro amount; required := false;
     sortOrder := order; isActive := true |}.

(** One keyword family: a facet when two or more keywords are found. *)
Definition keyword_facet (allText : string) (keywords : list string)
    (render : string -> string)
    (name slug fld lbl ph : string) (order : Z) : list FilterDefinition :=
  let found := extractKeywords allText keywords in
  if (1 <? List.length found)%nat then
    [select_filter name slug fld lbl
       (sort compare_strings (map render found)) ph order]
  else [].

Definition car_brands : list string :=
  ["toyota"; "bmw"; "mercedes"; "volkswagen"; "audi"; "ford"; "hyundai";
   "kia"; "nissan"; "honda"; "peugeot"; "renault"; "opel"; "mazda"; "suzuki"].

Definition phone_brands : list string :=
  ["iphone"; "apple"; "samsung"; "huawei"; "xiaomi"; "oppo"; "vivo";
   "oneplus"; "google"].

(** [generateCategorySpecificFilters(categorySlug, ads)] *)
Definition generateCategorySpecificFilters (categorySlug : string)
    (ads : list Ad) : list FilterDefinition :=
  let allText :=
    toLowerCase
      (join " " (map (fun ad => title ad ++ " " ++ description ad) ads)) in
  ((if String.eqb categorySlug "autos" || includes categorySlug "auto" then
      keyword_facet allText car_brands capitalizeFirst
        "dynamic-merk" categorySlug "merk" "Merk" "Selecteer merk" 4 ++
      keyword_facet allText
        ["benzine"; "diesel"; "hybride"; "elektrisch"; "lpg"] capitalizeFirst
        "dynamic-brandstof" categorySlug "brandstof" "Brandstof"
        "Selecteer brandstof" 5 ++
      keyword_facet allText
        ["handgeschakeld"; "automaat"; "handmatig"] capitalizeFirst
        "dynamic-transmissie" categorySlug "transmissie" "Transmissie"
        "Selecteer transmissie" 6
    else []) ++
   (if includes categorySlug "telefoon" || includes categorySlug "elektronica"
    then
      keyword_facet allText phone_brands capitalizeFirst
        "dynamic-merk" categorySlug "merk" "Merk" "Selecteer merk" 4 ++
      keyword_facet allText
        ["nieuw"; "gebruikt"; "refurbished"; "gereviseerd"] capitalizeFirst
        "dynamic-conditie" categorySlug "conditie" "Conditie"
        "Selecteer conditie" 5
    else []) ++
   (if includes categorySlug "kleding" then
      keyword_facet allText
        ["xs"; "s"; "m"; "l"; "xl"; "xxl"; "xxxl"] toUpperCase
        "dynamic-maat" categorySlug "maat" "Maat" "Selecteer maat" 4 ++
      keyword_facet allText
        ["nieuw"; "gebruikt"; "vintage"] capitalizeFirst
        "dynamic-conditie" categorySlug "conditie" "Conditie"
        "Selecteer conditie" 5
    else []))%list.

(** The approved ads of a category. *)
Definition categoryAds (d : Database) (category : Category) : list Ad :=
  filter (fun ad =>
            match categoryId ad with
            | Some c => (c =? cat_id category)%Z
            | None => false
            end && Status_eqb (status ad) approved)
         (ads d).

(** [ad.location] values that pass [filter(Boolean)], made distinct. *)
Definition distinct_locations (l : list Ad) : list string :=
  dedupe (filter (fun loc => negb (String.eqb loc "")) (map location l)).

(** [ad.price] values that pass [p => p && p > 0]. *)
Definition positive_prices (l : list Ad) : list Z :=
  flat_map (fun ad => match price ad with
                      | Some p => if (0 <? p)%Z then [p] else []
                      | None => []
                      end) l.

Definition location_facet (slug : string) (l : list Ad)
  : list FilterDefinition :=
  let locations := distinct_locations l in
  if (1 <? List.length locations)%nat then
    [select_filter "dynamic-location" slug "location" "Locatie"
       (sort compare_strings locations) "Selecteer locatie" 1]
  else [].

Definition price_facets (slug : string) (l : list Ad)
  : list FilterDefinition :=
  match positive_prices l with
  | [] => []
  | p :: ps =>
      let minPrice := fold_left Z.min ps p in
      let maxPrice := fold_left Z.max ps p in
      if (minPrice <? maxPrice)%Z then
        [number_filter "dynamic-price-min" slug "price_min" "Prijs vanaf"
           (minPrice / 100) 2;
         number_filter "dynamic-price-max" slug "price_max" "Prijs tot"
           (maxPrice / 100) 3]
      else []
  end.

(** [generateDynamicFilters(categorySlug)] *)
Definition generateDynamicFilters (db : option Database)
    (categorySlug : string) : list FilterDefinition :=
  match db with
  | None => []
  | Some d =>
      match find (fun c => String.eqb (cat_slug c) categorySlug)
                 (categories d) with
      | None => []
      | Some category =>
          let l := categoryAds d category in
          match l with
          | [] => []
          | _ :: _ =>
              (location_facet categorySlug l ++
               price_facets categorySlug l ++
               generateCategorySpecificFilters categorySlug l)%list
          end
      end
  end.

(** The answer of [GET /api/filters/:categorySlug]. *)
Inductive FiltersResponse : Type :=
| FiltersJson (filters : list FilterDefinition)
| FiltersError (code : Z) (error : string).

Definition by_sortOrder (a b : FilterDefinition) : option Z :=
  Some (sortOrder a - sortOrder b)%Z.

(** The curated rows of a category: active, in ascending [sortOrder]. *)
Definition curated (d : Database) (categorySlug : string)
  : list FilterDefinition :=
  sort by_sortOrder
    (filter (fun f => String.eqb (Store.categorySlug f) categorySlug
                      && isActive f)
            (filterDefinitions d)).

Definition getFilters (db : option Database) (categorySlug : string)
  : FiltersResponse :=
  match db with
  | None => FiltersError 500 "Database not available"
  | Some d =>
      match curated d categorySlug with
      | [] => FiltersJson (generateDynamicFilters db categorySlug)
      | filters => FiltersJson filters
      end
  end.

(** A facet of the answer on [fld] that offers [option]. *)
Definition offers (r : FiltersResponse) (fld option : string) : Prop :=
  exists fs f opts,
    r = FiltersJson fs /\ In f fs /\ field f = fld /\
    options f = Some opts /\ In option opts.

Definition is_location_facet (f : FilterDefinition) : bool :=
  String.eqb (field f) "location".

(** Two distinct non-empty values among [locs]. *)
Definition two_locations (locs : list string) : Prop :=
  exists a b, In a locs /\ In b locs /\ a <> "" /\ b <> "" /\ a <> b.

(** Ascending code-unit order. *)
Definition string_le (a b : string) : Prop := String.leb a b = true.

(** One approved ad in the category "autos", and a second one. *)
Definition autos : Category :=
  {| cat_id := 1; cat_name := "Auto's"; cat_slug := "autos" |}.

Definition car_ad (id : Z) (t d : string) : Ad :=
  {| ad_id := id; title := t; description := d;
     price := Some 1500000%Z; currency := "EUR"; categoryId := Some 1%Z;
     subcategoryId := None;
     location := "Paramaribo"; phone := "8123456";
     email := "verkoper@example.com"; images := []; primaryImageIndex := 0;
     status := approved;
     views := 0; userId := "u1"; createdAt := 0; updatedAt := 0;
     expiresAt := EXPIRES_AFTER |}.

Definition bmw_ad : Ad := car_ad 1 "Auto te koop" "BMW diesel automaat".

Definition toyota_ad : Ad :=
  car_ad 2 "Toyota te koop" "benzine, handgeschakeld".

(** An approved ad of the category placed in [loc]. *)
Definition ad_in (id : Z) (loc : string) : Ad :=
  {| ad_id := id; title := "Fiets te koop"; description := "Goede staat";
     price := Some 5000%Z; currency := "SRD"; categoryId := Some 1%Z;
     subcategoryId := None;
     location := loc; phone := "8123456";
     email := "verkoper@example.com"; images := []; primaryImageIndex := 0;
     status := approved;
     views := 0; userId := "u1"; createdAt := 0; updatedAt := 0;
     expiresAt := EXPIRES_AFTER |}.

Definition db_with (l : list Ad) : Database :=
  {| ads := l; categories := [autos]; adminSettings := [];
     filterDefinitions := []; users := ["u1"]; adReferences := [];
     next_ad_id := 3 |}.

End Filters.

(** ** Rate limiting *)

(** The part of the [express-rate-limit] middleware the limiters rely
    on: a request is refused when the count of its client key in the
    current window, the request included, exceeds [max]; the refusal is
    written by the configured [handler], or else is [message] sent with
    [statusCode], 429 unless configured. *)
Module RateLimit.

Inductive FieldValue : Type :=
| Text (s : string)
| Number (n : Z).

(** A JSON object, as its fields in order. *)
Definition Json : Type := list (string * FieldValue).

Record Reply : Type := {
  reply_status : Z;
  reply_body : Json
}.

Record Request : Type := {
  ip : string
}.

Record Options : Type := {
  windowMs : Z;
  max : Z;
  message : Json;
  statusCode : option Z;
  handler : option (Request -> Reply);
  skipSuccessfulRequests : bool;
  standardHeaders : bool;
  legacyHeaders : bool
}.

Inductive Outcome : Type :=
| Next                      (* the request goes on to the route *)
| Refused (r : Reply).

Definition refusal (o : Options) (req : Request) : Reply :=
  match handler o with
  | Some h => h req
  | None =>
      {| reply_status := match statusCode o with Some c => c | None => 429 end;
         reply_body := message o |}
  end.

(** [rateLimit(options)] on a request whose key has [totalHits] counted
    requests in the current window. *)
Definition rateLimit (o : Options) (totalHits : Z) (req : Request) : Outcome :=
  if (max o <? totalHits)%Z then Refused (refusal o req) else Next.

Definition has_field (name : string) (b : Json) : Prop :=
  In name (map fst b).

Definition field_names (b : Json) : list string := map fst b.

End RateLimit.

(** [middleware/rateLimiter.ts]: the limiters on the ad and contact
    routes. *)
Module RateLimiter.
Import RateLimit.

Definition createAdLimiter : Options :=
  {| windowMs := 10 * 60 * 1000;
     max := 5;
     message := [];
     statusCode := None;
     handler := Some (fun req =>
       {| reply_status := 429;
          reply_body :=
            [("error", Text "Rate limit overschreden");
             ("message", Text "Je hebt te vaak geprobeerd te adverteren. Probeer het later opnieuw.");
             ("retryAfter", Text "10 minuten")] |});
     skipSuccessfulRequests := false;
     standardHeaders := true;
     legacyHeaders := false |}.

Definition contactLimiter : Options :=
  {| windowMs := 5 * 60 * 1000;
     max := 3;
     message :=
       [("error", Text "Te veel berichten verzonden");
        ("message", Text "Je hebt te veel berichten verzonden. Wacht even voordat je opnieuw probeert.");
        ("retryAfter", Text "5 minuten")];
     statusCode := None;
     handler := Some (fun req =>
       {| reply_status := 429;
          reply_body :=
            [("error", Text "Te veel berichten verzonden");
             ("message", Text "Je hebt te veel berichten verzonden. Wacht even voordat je opnieuw probeert.");
             ("retryAfter", Text "5 minuten");
             ("limit", Number 3);
             ("windowMs", Number (5 * 60 * 1000))] |});
     skipSuccessfulRequests := false;
     standardHeaders := true;
     legacyHeaders := false |}.

End RateLimiter.

(** [auth/security.ts]: the limiters on login and registration. *)
Module Security.
Import RateLimit.

Definition loginLimiter : Options :=
  {| windowMs := 15 * 60 * 1000;
     max := 5;
     message :=
       [("error", Text "Te veel loginpogingen. Voor je veiligheid is je IP-adres tijdelijk geblokkeerd. Probeer het over 15 minuten opnieuw.")];
     statusCode := None;
     handler := None;
     skipSuccessfulRequests := true;
     standardHeaders := true;
     legacyHeaders := false |}.

Definition registerLimiter : Options :=
  {| windowMs := 60 * 60 * 1000;
     max := 3;
     message :=
       [("error", Text "Te veel registratiepogingen. Probeer het over een uur opnieuw.")];
     statusCode := None;
     handler := None;
     skipSuccessfulRequests := false;
     standardHeaders := true;
     legacyHeaders := false |}.

End Security.

(** The four limiters of the specification. *)
Module Limiters.

Inductive Limiter : Type := AdCreation | ContactMessage | Login | Registration.

Definition options_of (l : Limiter) : RateLimit.Options :=
  match l with
  | AdCreation => RateLimiter.createAdLimiter
  | ContactMessage => RateLimiter.contactLimiter
  | Login => Security.loginLimiter
  | Registration => Security.registerLimiter
  end.

(** A client, by its address. *)
Definition client : RateLimit.Request := {| RateLimit.ip := "203.0.113.9" |}.

End Limiters.

(** ** Reading the blocked-ad log ([logging/blockedAdsLogger.ts]) *)
Module LoggerQueries.
Import Js Exn Logger.

(** What the reading functions print when their [catch] runs, and what
    [clearBlockedAdLogs] prints when it is done. *)
Inductive Notice : Type :=
| ErrorFetching
| ErrorCounting
| LogsCleared.

(** [logs.sort(newest_first)] on an array of any length: with fewer than
    two items the comparator is not called. *)
Definition array_sort_newest_first (logs : list log_item)
  : result (list log_item) :=
  if (List.length logs <=? 1)%nat then Ok logs else sort_newest_first logs.

(** [logs.sort(...)] on what [readExistingLogs] returned: only an array
    has the method. *)
Definition value_sort (v : json_value) : result (list log_item) :=
  match v with
  | JArray items => array_sort_newest_first items
  | _ => Throw
  end.

(** [l.slice(0, limit)]: a negative [limit] counts from the end. *)
Definition slice_to {A : Type} (limit : Z) (l : list A) : list A :=
  if (limit <? 0)%Z
  then firstn (Z.to_nat (Z.of_nat (List.length l) + limit)) l
  else firstn (Z.to_nat limit) l.

(** [getBlockedAdLogs(limit)] *)
Definition getBlockedAdLogs (io : Io) (limit : Z) (w : World)
  : list log_item * list Notice :=
  match value_sort (readExistingLogs io w) with
  | Ok sorted => (slice_to limit sorted, [])
  | Throw => ([], [ErrorFetching])
  end.

Definition DAY_MS : Z := 24 * 60 * 60 * 1000.

(** [log => new Date(log.timestamp) > yesterday] *)
Definition newer_than (yesterday : Z) (i : log_item) : result bool :=
  match i with
  | Null => Throw
  | _ => Ok (match item_time i with
             | Some t => (yesterday <? t)%Z
             | None => false
             end)
  end.

(** [logs.filter(newer_than(yesterday)).length] on an array. *)
Fixpoint count_newer (yesterday : Z) (logs : list log_item) : result nat :=
  match logs with
  | [] => Ok 0%nat
  | i :: rest =>
      b <- newer_than yesterday i ;;
      n <- count_newer yesterday rest ;;
      Ok (if b then S n else n)
  end.

(** [getBlockedAdsCount24h()] at instant [now]. *)
Definition getBlockedAdsCount24h (io : Io) (now : Z) (w : World)
  : nat * list Notice :=
  match (match readExistingLogs io w with
         | JArray items => count_newer (now - DAY_MS) items
         | _ => Throw
         end) with
  | Ok n => (n, [])
  | Throw => (0%nat, [ErrorCounting])
  end.

(** [clearBlockedAdLogs()] *)
Definition clearBlockedAdLogs (io : Io) (w : World) : World * list Notice :=
  (writeLogsToFile io [] w, [LogsCleared]).

(** The entries among [es] logged after [yesterday]. *)
Definition recent (yesterday : Z) (es : list BlockedAdEntry)
  : list BlockedAdEntry :=
  filter (fun e => (yesterday <? timestamp e)%Z) es.

End LoggerQueries.

(** ** Words made of word characters *)
Module Tokens.
Import Js.

(** A non-empty word all of whose code units are word characters. *)
Definition word_like (w : string) : Prop :=
  w <> "" /\ forallb RegExp.isWordChar (list_ascii_of_string w) = true.

(** [mid] stands in [content] as a token of its own: the code units next
    to it, if any, are not word characters. *)
Definition token_in (mid content : string) : Prop :=
  exists pre post,
    content = pre ++ mid ++ post /\
    RegExp.is_word (last_char None pre) = false /\
    RegExp.is_word (first_char post) = false.

End Tokens.

(** ** Login attempts ([auth/security.ts], [storage.ts]) *)
Module Accounts.

(** The columns of a user row the lock-out works on. *)
Record User : Type := {
  loginAttempts : option Z;     (* nullable *)
  lockUntil : option Z;         (* nullable instant *)
  user_updatedAt : Z
}.

(** A partial update: [None] is a field the object does not have. *)
Record Update : Type := {
  new_loginAttempts : option Z;
  new_lockUntil : option (option Z)
}.

Definition LOCK_TIME : Z := 2 * 60 * 60 * 1000.

Definition MAX_ATTEMPTS : Z := 5.

(** [isAccountLocked(user)] at instant [now]. *)
Definition isAccountLocked (now : Z) (user : User) : bool :=
  match lockUntil user with
  | Some t => (now <? t)%Z
  | None => false
  end.

(** [user.loginAttempts || 0] *)
Definition attempts (user : User) : Z :=
  match loginAttempts user with
  | Some n => n
  | None => 0%Z
  end.

(** [updateLoginAttempts(user)]: [now] is the [new Date()] of the test,
    [stamp] the [Date.now()] of the new lock. *)
Definition updateLoginAttempts (now stamp : Z) (user : User) : Update :=
  if match lockUntil user with
     | None => true
     | Some t => (t <? now)%Z
     end
  then
    {| new_loginAttempts := Some (attempts user + 1)%Z;
       new_lockUntil :=
         Some (if (MAX_ATTEMPTS <=? attempts user + 1)%Z
               then Some (stamp + LOCK_TIME)%Z else None) |}
  else {| new_loginAttempts := None; new_lockUntil := None |}.

(** [resetLoginAttempts()] *)
Definition resetLoginAttempts : Update :=
  {| new_loginAttempts := Some 0%Z; new_lockUntil := Some None |}.

(** The row after [updateUserAuth(id, updates)] at instant [t]:
    [set({ ...updates, updatedAt: new Date() })]. *)
Definition updateUserAuth (updates : Update) (t : Z) (user : User) : User :=
  {| loginAttempts := match new_loginAttempts updates with
                      | Some n => Some n
                      | None => loginAttempts user
                      end;
     lockUntil := match new_lockUntil updates with
                  | Some l => l
                  | None => lockUntil user
                  end;
     user_updatedAt := t |}.

(** A failed attempt: what [updateLoginAttempts] returns is stored.
    [now] and [stamp] are its two readings of the clock. *)
Definition failed_login (now stamp : Z) (user : User) : User :=
  updateUserAuth (updateLoginAttempts now stamp user) stamp user.

(** Failed attempts, one after the other, each with its two readings. *)
Definition failed_logins (times : list (Z * Z)) (user : User) : User :=
  fold_left (fun u t => failed_login (fst t) (snd t) u) times user.

End Accounts.

(** ** Pruning the backups ([cron.ts]) *)
Module Backups.
Import Js.

(** A directory entry with its modification time. *)
Record File : Type := {
  name : string;
  mtime : Z
}.

(** [s.endsWith(suffix)] *)
Definition endsWith (s suffix : string) : bool :=
  (String.length suffix <=? String.length s)%nat &&
  String.eqb
    (substring (String.length s - String.length suffix)
               (String.length suffix) s)
    suffix.

(** [file.startsWith('backup-') && (file.endsWith('.sql') || file.endsWith('.json'))] *)
Definition is_backup (file : string) : bool :=
  prefix "backup-" file && (endsWith file ".sql" || endsWith file ".json").

Definition is_backup_file (f : File) : bool := is_backup (name f).

Definition newest_file_first (a b : File) : option Z :=
  Some (mtime b - mtime a)%Z.

(** [cleanupOldBackups(backupDir)] on the listing [dir], the file
    operations succeeding: the directory it leaves. *)
Definition cleanupOldBackups (dir : list File) : list File :=
  let files := sort newest_file_first (filter is_backup_file dir) in
  if (7 <? List.length files)%nat then
    let filesToDelete := skipn 7 files in
    filter (fun f => negb (existsb (fun g => String.eqb (name g) (name f))
                                   filesToDelete))
           dir
  else dir.

End Backups.

(** ** Fetching an ad, and the ids of the store ([routes.ts], [storage.ts]) *)
Module AdRoutes.
Import Store Routes.






(** Every table of [d'] is as it is in [d]. *)
Definition same_tables (d d' : Database) : Prop :=
  ads d' = ads d /\ categories d' = categories d /\
  adminSettings d' = adminSettings d /\
  filterDefinitions d' = filterDefinitions d /\
  users d' = users d /\ adReferences d' = adReferences d.

(** The text [checkAdContent] examines for an ad. *)
Definition ad_text (a : Ad) : string :=
  Js.toLowerCase (title a ++ " " ++ description a).

(** A submission without a user, and one with a banned word. *)
Definition anonymous_request : CreateAdRequest :=
  {| req_user := None; req_body := req_body bike_request;
     req_images := []; req_ip := "10.0.0.7"; req_agent := None;
     req_io := req_io bike_request; req_time := 0 |}.

Definition gokken_request : CreateAdRequest :=
  {| req_user := Some "u1";
     req_body :=
       Multipart {| form_title := Some "Gratis gokken aanbieding";
                    form_description := Some "Bel nu";
                    form_price := Some "100";
                    form_currency := Some "SRD";
                    form_location := Some "Paramaribo";
                    form_categoryId := Some "1";
                    form_subcategoryId := None;
                    form_email := Some "a@example.com";
                    form_contactPhone := Some "8123456" |};
     req_images := []; req_ip := "10.0.0.7"; req_agent := None;
     req_io := req_io bike_request; req_time := 0 |}.

(** A server with the category "Bunkopu Seri". *)
Definition bunkopu : Category :=
  {| cat_id := 7; cat_name := "Bunkopu Seri"; cat_slug := "bunkopu-seri" |}.

Definition bunkopu_server : Server :=
  {| db := {| ads := [];
              categories := [bunkopu];
              adminSettings := []; filterDefinitions := [];
              users := ["u1"]; adReferences := [];
              next_ad_id := 1 |};
     blacklist := Blacklist.blacklistWords;
     log := Logger.fresh_world |}.

(** A JSON body for a book in that category, at [price] cents, that
    names the currency or not, and the id or not. *)
Definition book_json (id : option Z) (price : Z) (currency : option string)
  : JsonBody :=
  {| json_id := id;
     json_title := Some "Boek";
     json_description := Some "Gelezen";
     json_price := Some price;
     json_currency := currency;
     json_categoryId := Some 7%Z;
     json_subcategoryId := None;
     json_location := Some "Paramaribo";
     json_phone := Some "8123456";
     json_contactPhone := None;
     json_email := Some "a@example.com";
     json_primaryImageIndex := None;
     json_views := None |}.

Definition book_request (id : option Z) (price : Z)
    (currency : option string) : CreateAdRequest :=
  {| req_user := Some "u1";
     req_body := Json (book_json id price currency);
     req_images := []; req_ip := "10.0.0.7"; req_agent := None;
     req_io := req_io bike_request; req_time := 0 |}.

(** The same book, in a body that also names the id and the views. *)
Definition chosen_request : CreateAdRequest :=
  {| req_user := Some "u1";
     req_body :=
       Json {| json_id := Some 500%Z;
               json_title := Some "Boek";
               json_description := Some "Gelezen";
               json_price := Some 900%Z;
               json_currency := Some "EUR";
               json_categoryId := Some 7%Z;
               json_subcategoryId := None;
               json_location := Some "Paramaribo";
               json_phone := Some "8123456";
               json_contactPhone := None;
               json_email := Some "a@example.com";
               json_primaryImageIndex := None;
               json_views := Some 99%Z |};
     req_images := []; req_ip := "10.0.0.7"; req_agent := None;
     req_io := req_io bike_request; req_time := 0 |}.

(** A store in which a favorite names the first of two ads. *)
Definition favorite_store : Database :=
  {| ads := [old_ad 1 approved; old_ad 2 approved];
     categories := [fietsen]; adminSettings := []; filterDefinitions := [];
     users := ["u1"]; adReferences := [(Favorites, 1%Z)];
     next_ad_id := 3 |}.

End AdRoutes.

(** ** Words for the properties of the filter routes *)
Module FilterWords.
Import Store Filters.

(** The active curated rows of a category, in table order. *)
Definition active_rows (d : Database) (slug : string) : list FilterDefinition :=
  filter (fun f => String.eqb (Store.categorySlug f) slug && isActive f)
         (filterDefinitions d).

(** Ascending [sortOrder]. *)
Definition by_order (a b : FilterDefinition) : Prop :=
  (sortOrder a <= sortOrder b)%Z.

Definition is_approved (a : Ad) : bool := Status_eqb (status a) approved.

(** A database with one curated filter for "autos" and the two car ads. *)
Definition curated_db : Database :=
  {| ads := [bmw_ad; toyota_ad]; categories := [autos]; adminSettings := [];
     filterDefinitions :=
       [{| filter_id := Serial 1; categorySlug := "autos"; field := "bouwjaar";
           label := "Bouwjaar"; type := "number"; options := None;
           placeholder := PlaceholderText "2015"; required := false;
           sortOrder := 1; isActive := true |}];
     users := ["u1"]; adReferences := [];
     next_ad_id := 3 |}.

End FilterWords.

(** ** Password rules ([auth/password.ts]) *)
Module Password.
Import Js.

(** A character class of the rules. *)
Definition is_lower (c : ascii) : bool := in_range 97 122 (code c).
Definition is_upper (c : ascii) : bool := in_range 65 90 (code c).
Definition is_digit (c : ascii) : bool := in_range 48 57 (code c).
Definition is_special (c : ascii) : bool :=
  existsb (Ascii.eqb c) (list_ascii_of_string "@#$%^&*!?").

(** [.] matches every code unit but the line terminators. *)
Definition is_line_terminator (c : ascii) : bool :=
  ((code c =? 10) || (code c =? 13))%N.

(** The pattern [.*[class]] tried at one position, with backtracking:
    either the class matches here, or [.] takes this code unit and the
    rest is tried. *)
Fixpoint dot_star_class (class : ascii -> bool) (s : string) : bool :=
  match s with
  | EmptyString => false
  | String c r =>
      class c || (negb (is_line_terminator c) && dot_star_class class r)
  end.

(** [/(?=.*[class])/.test(s)]: the look-ahead is tried at every position
    from the left. *)
Fixpoint lookahead_test (class : ascii -> bool) (s : string) : bool :=
  dot_star_class class s ||
  match s with
  | EmptyString => false
  | String _ r => lookahead_test class r
  end.

(** The messages, by what they complain of. *)
Inductive PasswordError : Type :=
| TooShort
| NoLowerCase
| NoUpperCase
| NoDigit
| NoSpecial.

Record Validation : Type := {
  isValid : bool;
  errors : list PasswordError
}.

(** [validatePassword(password)] *)
Definition validatePassword (password : string) : Validation :=
  let errors :=
    ((if (String.length password <? 8)%nat then [TooShort] else []) ++
     (if negb (lookahead_test is_lower password) then [NoLowerCase] else []) ++
     (if negb (lookahead_test is_upper password) then [NoUpperCase] else []) ++
     (if negb (lookahead_test is_digit password) then [NoDigit] else []) ++
     (if negb (lookahead_test is_special password) then [NoSpecial] else []))%list
  in
  {| isValid := (List.length errors =? 0)%nat; errors := errors |}.

(** Some code unit of [s] is in [class]. *)
Definition has (class : ascii -> bool) (s : string) : bool :=
  existsb class (list_ascii_of_string s).

End Password.

(** ** Whole-word occurrence, as the specification words it *)
Module WholeWord.
Import Js.

(** A word boundary lies between two neighbouring code units (or the
    edge of the text) exactly when one is a word character and the other
    is not. *)
Definition boundary (l r : option ascii) : bool :=
  xorb (RegExp.is_word l) (RegExp.is_word r).

(** [w] occurs in [content] as a whole word, letter case ignored: some
    stretch [mid] of the content equals [w] up to case and has a word
    boundary on both sides. *)
Definition whole_word_in (w content : string) : Prop :=
  exists pre mid post,
    content = pre ++ mid ++ post /\
    toLowerCase mid = toLowerCase w /\
    boundary (last_char None pre) (first_char (mid ++ post)) = true /\
    boundary (last_char None (pre ++ mid)) (first_char post) = true.

(** An entry that holds no syntax character of the pattern grammar. *)
Definition plain_entry (w : string) : Prop :=
  RegExp.literal_only (toLowerCase w) = true.

(** The test the loop of [checkAdContent] applies to one entry. *)
Definition entry_matches (content w : string) : bool :=
  match RegExp.compile_bounded (toLowerCase w) with
  | RegExp.Regex regex => RegExp.test regex content
  | _ => false
  end.

(** [t] occurs in [s]. *)
Definition occurs_in (t s : string) : Prop :=
  exists pre post, s = pre ++ t ++ post.

End WholeWord.

(** ** Words for the properties of the dynamic filters *)
Module FacetWords.
Import Js Store Filters WholeWord.

(** An approved ad of the category [c], read off the table [ads]. *)
Definition approved_in (d : Database) (c : Category) (a : Ad) : Prop :=
  In a (ads d) /\ status a = approved /\ categoryId a = Some (cat_id c).

(** [c] is the category under [slug], a column that is unique. *)
Definition category_at (d : Database) (slug : string) (c : Category) : Prop :=
  In c (categories d) /\ cat_slug c = slug /\
  forall c', In c' (categories d) -> cat_slug c' = slug -> c' = c.

(** No active filter definition is stored for [slug]. *)
Definition uncurated (d : Database) (slug : string) : Prop :=
  forall f, In f (filterDefinitions d) ->
            Store.categorySlug f = slug -> isActive f = false.

(** Some approved ad of the category names the keyword [k]: [k] occurs
    in its title and description, joined by a space and lower-cased. *)
Definition names (d : Database) (c : Category) (k : string) : Prop :=
  exists a, approved_in d c a /\
            occurs_in k (toLowerCase (title a ++ " " ++ description a)).

(** The keywords of the autos family, each with the option that stands
    for it in a facet. *)
Definition brand_options : list (string * string) :=
  [("toyota", "Toyota"); ("bmw", "Bmw"); ("mercedes", "Mercedes");
   ("volkswagen", "Volkswagen"); ("audi", "Audi"); ("ford", "Ford");
   ("hyundai", "Hyundai"); ("kia", "Kia"); ("nissan", "Nissan");
   ("honda", "Honda"); ("peugeot", "Peugeot"); ("renault", "Renault");
   ("opel", "Opel"); ("mazda", "Mazda"); ("suzuki", "Suzuki")].

Definition fuel_options : list (string * string) :=
  [("benzine", "Benzine"); ("diesel", "Diesel"); ("hybride", "Hybride");
   ("elektrisch", "Elektrisch"); ("lpg", "Lpg")].

Definition transmission_options : list (string * string) :=
  [("handgeschakeld", "Handgeschakeld"); ("automaat", "Automaat");
   ("handmatig", "Handmatig")].

(** [o] stands for a keyword of [table] that the category names, and
    the category names a second keyword of [table] as well. *)
Definition one_of_two (d : Database) (c : Category)
    (table : list (string * string)) (o : string) : Prop :=
  exists k k' o',
    In (k, o) table /\ In (k', o') table /\ k <> k' /\
    names d c k /\ names d c k'.

(** A word without a space. *)
Definition space_free (k : string) : Prop :=
  forall pre post, k <> pre ++ String " " post.

Definition no_space (k : string) : bool :=
  forallb (fun ch => negb (Ascii.eqb ch " ")) (list_ascii_of_string k).

(** A keyword of the tables: lower-case, not empty, without a space. *)
Definition keyword (k : string) : Prop :=
  toLowerCase k = k /\ k <> "" /\ no_space k = true.

(** A keyword table of the code against the options the specification
    names. *)
Definition table_of (keywords : list string) (render : string -> string)
    (table : list (string * string)) : Prop :=
  map fst table = keywords /\
  Forall (fun p => snd p = render (fst p) /\ keyword (fst p)) table.

(** An approved ad of the category with a positive price. *)
Definition priced (d : Database) (c : Category) (a : Ad) (p : Z) : Prop :=
  approved_in d c a /\ price a = Some p /\ (0 < p)%Z.

End FacetWords.

(* ================================================================== *)
(** * Part II: properties                                              *)
(* ================================================================== *)

(** ** Strings *)
Section StringFacts.
Import Js WholeWord FacetWords.

Lemma lower_char_idem (c : ascii) : lower_char (lower_char c) = lower_char c.
Proof. destruct c as [[] [] [] [] [] [] [] []]; reflexivity. Qed.

Lemma toLowerCase_idem (s : string) : toLowerCase (toLowerCase s) = toLowerCase s.
Proof.
  induction s as [|c r IH]; simpl; [reflexivity|].
  now rewrite lower_char_idem, IH.
Qed.

Lemma last_char_app (prev : option ascii) (s t : string) :
  last_char prev (s ++ t) = last_char (last_char prev s) t.
Proof.
  revert prev; induction s as [|c r IH]; intros prev; simpl; [reflexivity|].
  apply IH.
Qed.

Lemma append_nil_r (s : string) : s ++ "" = s.
Proof. induction s as [|c s IH]; simpl; [reflexivity | now rewrite IH]. Qed.

Lemma append_assoc (a b c : string) : (a ++ b) ++ c = a ++ b ++ c.
Proof. induction a as [|x a IH]; simpl; [reflexivity | now rewrite IH]. Qed.

Lemma prefix_iff (t s : string) :
  prefix t s = true <-> exists post, s = t ++ post.
Proof.
  revert t. induction s as [|x s IH]; intros [|c t]; simpl.
  - split; [intros _; now exists "" | reflexivity].
  - split; [discriminate | intros (post & H); discriminate].
  - split; [intros _; now exists (String x s) | reflexivity].
  - destruct (ascii_dec c x) as [->|Hne].
    + rewrite IH. split.
      * intros (post & ->). now exists post.
      * intros (post & H). injection H as ->. now exists post.
    + split; [discriminate|].
      intros (post & H). injection H as -> _. congruence.
Qed.

Lemma includes_iff (s t : string) :
  includes s t = true <-> occurs_in t s.
Proof.
  unfold occurs_in. induction s as [|x s IH]; cbn [includes];
    rewrite orb_true_iff, prefix_iff.
  - split.
    + intros [(post & H)|H]; [|discriminate]. now exists "", post.
    + intros (pre & post & H). left.
      destruct pre; [now exists post | discriminate].
  - rewrite IH. split.
    + intros [(post & H)|(pre & post & H)].
      * now exists "", post.
      * exists (String x pre), post. simpl. now rewrite H.
    + intros (pre & post & H). destruct pre as [|y pre].
      * left. now exists post.
      * right. simpl in H. injection H as _ ->. now exists pre, post.
Qed.

Lemma toLowerCase_app (s t : string) :
  toLowerCase (s ++ t) = toLowerCase s ++ toLowerCase t.
Proof. induction s as [|c s IH]; simpl; [reflexivity | now rewrite IH]. Qed.

Lemma app_eq_app_string (a b c d : string) :
  a ++ b = c ++ d ->
  (exists m, c = a ++ m /\ b = m ++ d) \/ (exists m, a = c ++ m /\ d = m ++ b).
Proof.
  revert c. induction a as [|x a IH]; intros c H; simpl in *.
  - left. now exists c.
  - destruct c as [|y c]; simpl in *.
    + right. now exists (String x a).
    + injection H as -> H. destruct (IH c H) as [(m & -> & ->)|(m & -> & ->)].
      * left. now exists m.
      * right. now exists m.
Qed.

(** A word without a space that occurs in two texts joined by a space
    occurs in one of them. *)
Lemma occurs_in_joined (k a b : string) :
  k <> "" -> space_free k ->
  (occurs_in k (a ++ String " " b) <-> occurs_in k a \/ occurs_in k b).
Proof.
  intros Hne Hsf. unfold occurs_in. split.
  - intros (pre & post & H).
    destruct (app_eq_app_string _ _ _ _ H) as [(m & -> & E)|(m & -> & E)].
    + destruct m as [|y m]; simpl in E.
      * destruct k as [|c k]; [congruence|]. simpl in E. injection E as <- _.
        exfalso. apply (Hsf "" k). reflexivity.
      * injection E as _ ->. right. now exists m, post.
    + symmetry in E.
      destruct (app_eq_app_string _ _ _ _ E) as [(n & E1 & E')|(n & -> & E')].
      * destruct n as [|y n]; simpl in E'.
        -- left. exists pre, "". rewrite append_nil_r in E1. subst m.
           now rewrite append_nil_r.
        -- injection E' as <- _. exfalso. apply (Hsf m n). exact E1.
      * left. exists pre, n. reflexivity.
  - intros [(pre & post & ->)|(pre & post & ->)].
    + exists pre, (post ++ String " " b). now rewrite !append_assoc.
    + exists (a ++ String " " pre), post.
      now rewrite append_assoc.
Qed.

Lemma occurs_in_concat (k : string) (ls : list string) :
  k <> "" -> space_free k ->
  (occurs_in k (concat " " ls) <-> exists l, In l ls /\ occurs_in k l).
Proof.
  intros Hne Hsf. induction ls as [|l ls IH].
  - simpl. split.
    + intros (pre & post & H). destruct pre; destruct k; simpl in H; congruence.
    + intros (l & [] & _).
  - destruct ls as [|l' ls].
    + simpl. split; [intros H; exists l; auto|].
      intros (x & [<-|[]] & H). exact H.
    + change (concat " " (l :: l' :: ls)) with (l ++ String " " (concat " " (l' :: ls))).
      rewrite (occurs_in_joined k _ _ Hne Hsf), IH. split.
      * intros [H|(x & Hin & H)]; [exists l; split; [now left | exact H]|].
        exists x. split; [now right | exact H].
      * intros (x & [<-|Hin] & H); [now left|]. right. now exists x.
Qed.

Lemma toLowerCase_concat (ls : list string) :
  toLowerCase (concat " " ls) = concat " " (map toLowerCase ls).
Proof.
  induction ls as [|l ls IH]; [reflexivity|].
  destruct ls as [|l' ls]; [reflexivity|].
  change (concat " " (l :: l' :: ls)) with (l ++ String " " (concat " " (l' :: ls))).
  rewrite toLowerCase_app. cbn [toLowerCase]. rewrite IH. reflexivity.
Qed.

End StringFacts.

(** ** Patterns of plain entries against whole-word occurrence *)
Section RegExpFacts.
Import Js RegExp WholeWord.

Lemma lower_of_canonicalize (c : ascii) :
  decode (canonicalize c) = lower_char c.
Proof. destruct c as [[] [] [] [] [] [] [] []]; reflexivity. Qed.

Lemma canonicalize_lower (c : ascii) :
  canonicalize (lower_char c) = canonicalize c.
Proof. destruct c as [[] [] [] [] [] [] [] []]; reflexivity. Qed.

(** Under flag [i] two code units match exactly when their lower-case
    forms agree. *)
Lemma canonicalize_eqb_iff (c x : ascii) :
  (canonicalize c =? canonicalize x)%N = true <-> lower_char c = lower_char x.
Proof.
  rewrite N.eqb_eq; split; intros H.
  - rewrite <- (lower_of_canonicalize c), <- (lower_of_canonicalize x).
    now rewrite H.
  - rewrite <- (canonicalize_lower c), <- (canonicalize_lower x).
    now rewrite H.
Qed.

Lemma match_here_literals (w : string) :
  forall (p : pattern) (prev : option ascii) (s : string),
    match_here (literals w ++ p)%list prev s = true <->
    exists mid post,
      s = mid ++ post /\
      toLowerCase mid = toLowerCase w /\
      match_here p (last_char prev mid) post = true.
Proof.
  induction w as [|c w IH]; intros p prev s; simpl.
  - split.
    + intros H. exists "", s. now repeat split.
    + intros (mid & post & -> & Hm & H).
      destruct mid; simpl in *; [exact H | discriminate].
  - destruct s as [|x r].
    + split; [discriminate|].
      intros (mid & post & Hs & Hm & _).
      destruct mid; simpl in *; discriminate.
    + rewrite andb_true_iff, canonicalize_eqb_iff, IH. split.
      * intros (Hc & mid & post & -> & Hm & H).
        exists (String x mid), post. simpl. repeat split; auto.
        now rewrite Hm, Hc.
      * intros (mid & post & Hs & Hm & H).
        destruct mid as [|y mid]; simpl in *; [discriminate|].
        inversion Hs; subst. inversion Hm; subst.
        split; [congruence|]. now exists mid, post.
Qed.

Lemma search_iff (p : pattern) :
  forall (prev : option ascii) (s : string),
    search [p] prev s = true <->
    exists pre post,
      s = pre ++ post /\ match_here p (last_char prev pre) post = true.
Proof.
  intros prev s; revert prev.
  induction s as [|x r IH]; intros prev; cbn [search match_any existsb];
    rewrite orb_false_r, orb_true_iff.
  - split.
    + intros [H|H]; [|discriminate]. now exists "", "".
    + intros (pre & post & Hs & H).
      destruct pre; simpl in *; [|discriminate]. subst post. now left.
  - rewrite IH. split.
    + intros [H|(pre & post & -> & H)].
      * now exists "", (String x r).
      * now exists (String x pre), post.
    + intros (pre & post & Hs & H).
      destruct pre as [|y pre]; simpl in *.
      * subst post. now left.
      * inversion Hs; subst. right. now exists pre, post.
Qed.

Lemma isSyntaxCharacter_cases (c : ascii) :
  isSyntaxCharacter c = false ->
  opens_beyond c = false /\ Ascii.eqb c ")" = false /\
  quantifier_of c = None /\ Ascii.eqb c "|" = false /\
  Ascii.eqb c "^" = false /\ Ascii.eqb c "$" = false /\
  Ascii.eqb c "." = false.
Proof.
  destruct c as [[] [] [] [] [] [] [] []]; intros H;
    try discriminate H; repeat split; reflexivity.
Qed.

(** A word free of syntax characters is a sequence of pattern
    characters, each matching itself. *)
Lemma parse_literal_only (w : string) :
  literal_only w = true -> parse w = Regex [literals w].
Proof.
  induction w as [|c r IH]; [reflexivity|].
  cbn [literal_only]. intros H. apply andb_true_iff in H as [Hc Hr].
  apply negb_true_iff in Hc.
  destruct (isSyntaxCharacter_cases c Hc)
    as (E1 & E2 & E3 & E4 & E5 & E6 & E7).
  cbn [parse literals]. rewrite E1, E2, E3, E4, E5, E6, E7.
  destruct r as [|q r1]; [reflexivity|].
  assert (Eq : quantifier_of q = None).
  { cbn [literal_only] in Hr. apply andb_true_iff in Hr as [Hq _].
    apply negb_true_iff in Hq.
    now destruct (isSyntaxCharacter_cases q Hq) as (_ & _ & E & _). }
  rewrite Eq, (IH Hr). reflexivity.
Qed.

Lemma compile_bounded_literal_only (w : string) :
  literal_only w = true ->
  compile_bounded w = Regex [WordBoundary :: literals w ++ [WordBoundary]]%list.
Proof.
  intros H. unfold compile_bounded. now rewrite (parse_literal_only w H).
Qed.

(** The compiled pattern tests whole-word occurrence. *)
Lemma test_compile_bounded (w : string) (s : string) :
  literal_only w = true ->
  exists regex,
    compile_bounded w = Regex regex /\
    (test regex s = true <-> whole_word_in w s).
Proof.
  intros Hl. eexists. split; [now apply compile_bounded_literal_only|].
  unfold test, whole_word_in, boundary.
  rewrite search_iff. split.
  - intros (pre & rest & -> & H). cbn [match_here] in H.
    apply andb_true_iff in H as [Hb H].
    apply match_here_literals in H as (mid & post & -> & Hm & H).
    cbn [match_here] in H. rewrite andb_true_r in H.
    exists pre, mid, post. rewrite last_char_app. now repeat split.
  - intros (pre & mid & post & -> & Hm & Hb1 & Hb2).
    exists pre, (mid ++ post). split; [reflexivity|]. cbn [match_here].
    rewrite Hb1. cbn [andb]. apply match_here_literals.
    exists mid, post. repeat split; auto. cbn [match_here].
    rewrite last_char_app in Hb2. now rewrite Hb2.
Qed.

Lemma whole_word_in_lower (w s : string) :
  whole_word_in (toLowerCase w) s <-> whole_word_in w s.
Proof.
  unfold whole_word_in. now setoid_rewrite toLowerCase_idem.
Qed.

(** A stretch of the text that equals [w] up to letter case is an
    occurrence of the lower-cased [w] in the lower-cased text. *)
Lemma whole_word_in_occurs (w s : string) :
  whole_word_in w s -> includes (toLowerCase s) (toLowerCase w) = true.
Proof.
  intros (pre & mid & post & -> & Hm & _). apply includes_iff.
  exists (toLowerCase pre), (toLowerCase post).
  now rewrite !toLowerCase_app, Hm.
Qed.

End RegExpFacts.

(** ** The blacklist filter *)
Section BlacklistFacts.
Import Js RegExp WholeWord Blacklist.

Lemma entry_matches_iff (content w : string) :
  plain_entry w ->
  (entry_matches content w = true <-> whole_word_in w content).
Proof.
  unfold plain_entry, entry_matches. intros Hp.
  destruct (test_compile_bounded _ content Hp) as (regex & -> & H).
  rewrite H. apply whole_word_in_lower.
Qed.

Lemma foundWords_filter (bl : list string) (content : string) :
  Forall plain_entry bl ->
  foundWords bl content = Some (Exn.Ok (filter (entry_matches content) bl)).
Proof.
  induction 1 as [|w bl Hw _ IH]; cbn [foundWords filter]; [reflexivity|].
  unfold entry_matches at 1. unfold plain_entry in Hw.
  rewrite (compile_bounded_literal_only _ Hw), IH. reflexivity.
Qed.

Lemma checkAdContent_filter (bl : list string) (title description : string) :
  Forall plain_entry bl ->
  let found :=
    filter (entry_matches (toLowerCase (title ++ " " ++ description))) bl in
  exists r,
    checkAdContent bl title description = Some (Exn.Ok r) /\
    blockedWords r = found /\
    allowed r = match found with [] => true | _ :: _ => false end.
Proof.
  intros Hp found. unfold checkAdContent.
  rewrite (foundWords_filter _ _ Hp). fold found.
  destruct found as [|w found']; simpl; eexists; repeat split.
Qed.

(** A pattern that is a SyntaxError makes [checkAdContent] throw when
    the entries before it are plain. *)
Lemma foundWords_throws (l1 l2 : list string) (w content : string) :
  Forall plain_entry l1 ->
  compile_bounded (toLowerCase w) = SyntaxError ->
  foundWords (l1 ++ w :: l2)%list content = Some Exn.Throw.
Proof.
  intros Hp Hw. induction Hp as [|x l1 Hx _ IH]; cbn [foundWords app].
  - now rewrite Hw.
  - unfold plain_entry in Hx.
    now rewrite (compile_bounded_literal_only _ Hx), IH.
Qed.

Lemma count_occ_filter_true (f : string -> bool) (l : list string) (w : string) :
  f w = true ->
  count_occ string_dec (filter f l) w = count_occ string_dec l w.
Proof.
  intros Hf. induction l as [|x l IH]; simpl; [reflexivity|].
  destruct (f x) eqn:E; simpl.
  - destruct (string_dec x w); now rewrite IH.
  - destruct (string_dec x w) as [->|]; [congruence | exact IH].
Qed.

Lemma blacklistWords_plain : Forall plain_entry blacklistWords.
Proof. repeat (constructor; [reflexivity|]). constructor. Qed.

Lemma blacklistWords_NoDup : NoDup blacklistWords.
Proof.
  apply (NoDup_count_occ' string_dec). intros w Hin.
  repeat (destruct Hin as [<-|Hin]; [reflexivity|]). destruct Hin.
Qed.

(** X26. Against a blacklist of plain entries, [checkAdContent] on a text
    whose lower-cased concatenation holds some entry as a whole word
    (case ignored, word boundaries on both sides) returns
    [allowed = false] and lists the matched entries of the blacklist, in
    order, each entry once: a word is listed as often as the blacklist
    holds it, so once when the blacklist is duplicate-free, as the
    default one is.  On a text holding no entry as a whole word it
    returns [allowed = true] and an empty list. *)
Theorem checkAdContent_whole_word
    (bl : list string) (title description : string) :
  Forall plain_entry bl ->
  let content := toLowerCase (title ++ " " ++ description) in
  exists r,
    checkAdContent bl title description = Some (Exn.Ok r) /\
    blockedWords r = filter (entry_matches content) bl /\
    (forall w, In w bl ->
               (entry_matches content w = true <-> whole_word_in w content)) /\
    (Exists (fun w => whole_word_in w content) bl ->
       allowed r = false /\
       (forall w, In w (blockedWords r) <->
                  In w bl /\ whole_word_in w content) /\
       (forall w, whole_word_in w content ->
                  count_occ string_dec (blockedWords r) w =
                  count_occ string_dec bl w) /\
       (NoDup bl ->
        forall w, In w bl -> whole_word_in w content ->
                  count_occ string_dec (blockedWords r) w = 1%nat)) /\
    (Forall (fun w => ~ whole_word_in w content) bl ->
       allowed r = true /\ blockedWords r = []).
Proof.
  intros Hp content.
  destruct (checkAdContent_filter bl title description Hp)
    as (r & Hr & Hbw & Hal).
  fold content in Hbw, Hal.
  assert (Hmem : forall w, In w (blockedWords r) <->
                           In w bl /\ whole_word_in w content).
  { intros w. rewrite Hbw, filter_In. split; intros [Hin Hm]; split; auto.
    - apply entry_matches_iff; auto.
      rewrite Forall_forall in Hp; auto.
    - apply entry_matches_iff; auto.
      rewrite Forall_forall in Hp; auto. }
  assert (Hcount : forall w, In w bl -> whole_word_in w content ->
            count_occ string_dec (blockedWords r) w =
            count_occ string_dec bl w).
  { intros w Hin Hw. rewrite Hbw. apply count_occ_filter_true.
    apply entry_matches_iff; auto. rewrite Forall_forall in Hp; auto. }
  exists r. split; [exact Hr|]. split; [exact Hbw|]. split.
  { intros w Hin. apply entry_matches_iff.
    rewrite Forall_forall in Hp; auto. }
  split.
  - intros Hex. apply Exists_exists in Hex as (w0 & Hin0 & Hw0).
    split; [|split; [exact Hmem|split]].
    + assert (Hin : In w0 (blockedWords r)) by (apply Hmem; auto).
      rewrite Hal. rewrite Hbw in Hin.
      destruct (filter _ bl); [destruct Hin | reflexivity].
    + intros w Hw. destruct (in_dec string_dec w bl) as [Hin|Hnin].
      * now apply Hcount.
      * rewrite (proj1 (count_occ_not_In string_dec bl w) Hnin).
        apply count_occ_not_In. intros Hin. apply Hmem in Hin. tauto.
    + intros Hnd w Hin Hw. rewrite (Hcount w Hin Hw).
      now apply NoDup_count_occ'.
  - intros Hall. rewrite Forall_forall in Hall.
    assert (E : blockedWords r = []).
    { destruct (blockedWords r) as [|w l] eqn:E; [reflexivity|].
      exfalso. apply (Hall w); apply (Hmem w); left; reflexivity. }
    split; [|exact E]. rewrite Hal, <- Hbw, E. reflexivity.
Qed.

Lemma checkAdContent_whole_word_witness :
  Forall plain_entry blacklistWords /\
  exists r,
    checkAdContent blacklistWords "Gratis gokken aanbieding" ""
      = Some (Exn.Ok r) /\
    blockedWords r = ["gokken"].
Proof.
  split; [exact blacklistWords_plain|].
  destruct (checkAdContent_whole_word blacklistWords
              "Gratis gokken aanbieding" "" blacklistWords_plain)
    as (r & Hr & _).
  exists r. split; [exact Hr|].
  vm_compute in Hr. injection Hr as <-. reflexivity.
Defined.

Lemma remove_first_split (w : string) (bl : list string) :
  In w bl ->
  exists l1 l2,
    bl = (l1 ++ w :: l2)%list /\ ~ In w l1 /\
    remove_first w bl = (l1 ++ l2)%list.
Proof.
  induction bl as [|x bl IH]; simpl; [intros []|].
  intros Hin. destruct (String.eqb_spec x w) as [->|Hne].
  - exists [], bl. simpl. auto.
  - destruct Hin as [->|Hin]; [congruence|].
    destruct (IH Hin) as (l1 & l2 & -> & Hn & ->).
    exists (x :: l1), l2. simpl. repeat split; auto.
    intros [->|H]; auto.
Qed.

Lemma remove_first_absent (w : string) (bl : list string) :
  ~ In w bl -> remove_first w bl = bl.
Proof.
  induction bl as [|x bl IH]; simpl; [reflexivity|].
  intros Hn. destruct (String.eqb_spec x w) as [->|Hne].
  - exfalso. apply Hn. now left.
  - f_equal. apply IH. tauto.
Qed.

Lemma count_occ_remove_first (w x : string) (bl : list string) :
  count_occ string_dec (remove_first w bl) x =
  if string_dec w x then Nat.pred (count_occ string_dec bl x)
  else count_occ string_dec bl x.
Proof.
  destruct (in_dec string_dec w bl) as [Hin|Hn].
  - destruct (remove_first_split w bl Hin) as (l1 & l2 & -> & Hn & ->).
    rewrite !count_occ_app. simpl.
    destruct (string_dec w x) as [<-|Hne].
    + rewrite (proj1 (count_occ_not_In string_dec l1 w) Hn). reflexivity.
    + reflexivity.
  - rewrite (remove_first_absent _ _ Hn).
    destruct (string_dec w x) as [<-|]; [|reflexivity].
    now rewrite (proj1 (count_occ_not_In string_dec bl w) Hn).
Qed.

Lemma remove_first_incl (w : string) (bl : list string) :
  incl (remove_first w bl) bl.
Proof.
  induction bl as [|x bl IH]; simpl; [apply incl_refl|].
  destruct (String.eqb x w).
  - apply incl_tl, incl_refl.
  - apply incl_cons; [now left | now apply incl_tl].
Qed.

Lemma plain_entry_lower (w : string) :
  plain_entry w -> plain_entry (toLowerCase w).
Proof. unfold plain_entry. now rewrite toLowerCase_idem. Qed.

(** X27. [addToBlacklist] appends the lower-cased words and removes no
    duplicate; [removeFromBlacklist] of one word removes its first
    occurrence only.  So after a plain word is added twice to a
    blacklist of plain entries, a text holding it as a whole word is
    refused with the word listed at least twice, and after one removal
    the text is still refused and the word still listed. *)
Theorem blacklist_duplicate_survives_removal
    (bl : list string) (w title description : string) :
  Forall plain_entry bl ->
  plain_entry w ->
  whole_word_in w (toLowerCase (title ++ " " ++ description)) ->
  let lw := toLowerCase w in
  let twice := addToBlacklist (addToBlacklist bl [w]) [w] in
  let once := removeFromBlacklist twice [w] in
  twice = (bl ++ [lw; lw])%list /\
  (forall x, count_occ string_dec once x =
             if string_dec lw x
             then S (count_occ string_dec bl x)
             else count_occ string_dec bl x) /\
  (exists l1 l2, twice = (l1 ++ lw :: l2)%list /\ ~ In lw l1 /\
                 once = (l1 ++ l2)%list) /\
  (exists r, checkAdContent twice title description = Some (Exn.Ok r) /\
             allowed r = false /\
             (2 <= count_occ string_dec (blockedWords r) lw)%nat) /\
  (exists r, checkAdContent once title description = Some (Exn.Ok r) /\
             allowed r = false /\
             In lw (blockedWords r)).
Proof.
  intros Hbl Hw Hocc lw twice once.
  pose proof (plain_entry_lower w Hw) as Hlw. fold lw in Hlw.
  assert (Hocc' : whole_word_in lw (toLowerCase (title ++ " " ++ description)))
    by (now apply whole_word_in_lower).
  assert (Etwice : twice = (bl ++ [lw; lw])%list).
  { unfold twice, addToBlacklist. simpl. now rewrite <- app_assoc. }
  assert (Hin2 : In lw twice).
  { rewrite Etwice. apply in_or_app. right. now left. }
  assert (Ecount : forall x, count_occ string_dec once x =
             if string_dec lw x
             then S (count_occ string_dec bl x)
             else count_occ string_dec bl x).
  { intros x. unfold once, removeFromBlacklist. simpl. fold lw.
    rewrite count_occ_remove_first, Etwice, count_occ_app. simpl.
    destruct (string_dec lw x); simpl; lia. }
  assert (Hp2 : Forall plain_entry twice).
  { rewrite Etwice. apply Forall_app. split; [exact Hbl|].
    repeat constructor; exact Hlw. }
  assert (Hp1 : Forall plain_entry once).
  { rewrite Forall_forall in *. intros x Hx. apply Hp2.
    unfold once, removeFromBlacklist in Hx. simpl in Hx.
    now apply remove_first_incl in Hx. }
  assert (Hin1 : In lw once).
  { apply (count_occ_In string_dec). rewrite Ecount.
    destruct (string_dec lw lw); [lia | congruence]. }
  split; [exact Etwice|]. split; [exact Ecount|]. split; [|split].
  - destruct (remove_first_split lw twice Hin2) as (l1 & l2 & E & Hn & Er).
    exists l1, l2. repeat split; auto.
  - destruct (checkAdContent_filter twice title description Hp2)
      as (r & Hr & Hbw & Hal).
    assert (Hc : count_occ string_dec (blockedWords r) lw =
                 count_occ string_dec twice lw).
    { rewrite Hbw. apply count_occ_filter_true.
      now apply entry_matches_iff. }
    rewrite Etwice, count_occ_app in Hc. simpl in Hc.
    destruct (string_dec lw lw) as [_|]; [|congruence].
    exists r. split; [exact Hr|]. split; [|lia].
    rewrite Hal, <- Hbw.
    destruct (blockedWords r); [simpl in Hc; lia | reflexivity].
  - destruct (checkAdContent_filter once title description Hp1)
      as (r & Hr & Hbw & Hal).
    assert (Hin : In lw (blockedWords r)).
    { rewrite Hbw. apply filter_In. split; [exact Hin1|].
      now apply entry_matches_iff. }
    exists r. split; [exact Hr|]. split; [|exact Hin].
    rewrite Hal, <- Hbw.
    destruct (blockedWords r); [destruct Hin | reflexivity].
Qed.

Lemma blacklist_duplicate_survives_removal_witness :
  let bl := blacklistWords in
  let once :=
    removeFromBlacklist (addToBlacklist (addToBlacklist bl ["Casino"])
                           ["Casino"]) ["Casino"] in
  exists r, checkAdContent once "Nieuw CASINO geopend" "kom langs"
              = Some (Exn.Ok r) /\
            allowed r = false /\ In "casino" (blockedWords r).
Proof.
  refine (proj2 (proj2 (proj2 (proj2
    (blacklist_duplicate_survives_removal blacklistWords "Casino"
       "Nieuw CASINO geopend" "kom langs" blacklistWords_plain _ _))))).
  - reflexivity.
  - apply (entry_matches_iff _ "Casino"); reflexivity.
Defined.

(** No entry of which the lower-cased text holds no occurrence is held
    by the text as a whole word. *)
Lemma no_occurrence_no_whole_word (bl : list string) (content : string) :
  forallb (fun w => negb (includes (toLowerCase content) (toLowerCase w))) bl
    = true ->
  Forall (fun w => ~ whole_word_in w content) bl.
Proof.
  intros H. apply Forall_forall. intros w Hin Hw.
  rewrite forallb_forall in H. specialize (H w Hin).
  apply whole_word_in_occurs in Hw. rewrite Hw in H. discriminate.
Qed.

(** C1, where it fails.  The pattern is built from the entry as it
    stands, so a syntax character of the pattern grammar in an entry is
    read as syntax.  With the entry [a.b] added, the text "axb te koop",
    which holds no entry of the blacklist as a whole word, is refused
    with [a.b] as the word found.  With the entry [c++] added, the text
    "Cursus C++11" holds that entry as a whole word, and [checkAdContent]
    throws a SyntaxError instead of returning. *)
Theorem checkAdContent_reads_entry_as_pattern :
  (let bl := addToBlacklist blacklistWords ["a.b"] in
   let content := toLowerCase ("axb" ++ " " ++ "te koop") in
   Forall (fun w => ~ whole_word_in w content) bl /\
   checkAdContent bl "axb" "te koop"
     = Some (Exn.Ok
               {| allowed := false;
                  blockedWords := ["a.b"];
                  reason := Some "Advertentie bevat verboden woorden: a.b" |}))
  /\
  (let bl := addToBlacklist blacklistWords ["c++"] in
   let content := toLowerCase ("Cursus C++11" ++ " " ++ "") in
   Exists (fun w => whole_word_in w content) bl /\
   checkAdContent bl "Cursus C++11" "" = Some Exn.Throw).
Proof.
  split; cbv zeta; split.
  - apply no_occurrence_no_whole_word. vm_compute. reflexivity.
  - vm_compute. reflexivity.
  - apply Exists_exists. exists "c++". split.
    + unfold addToBlacklist. apply in_or_app. right. now left.
    + exists "cursus ", "c++", "11 ". repeat split.
  - vm_compute. reflexivity.
Qed.

(** C10, where it fails.  The word [C++] is added twice and removed
    once, so that the blacklist still holds it; the text "Cursus C++11"
    holds it as a whole word.  Both while the duplicate is there and
    after the removal [checkAdContent] throws a SyntaxError instead of
    returning [allowed = false]. *)
Theorem duplicate_pattern_entry_throws :
  let twice :=
    addToBlacklist (addToBlacklist blacklistWords ["C++"]) ["C++"] in
  let once := removeFromBlacklist twice ["C++"] in
  let content := toLowerCase ("Cursus C++11" ++ " " ++ "") in
  count_occ string_dec twice "c++" = 2%nat /\
  count_occ string_dec once "c++" = 1%nat /\
  whole_word_in "C++" content /\
  checkAdContent twice "Cursus C++11" "" = Some Exn.Throw /\
  checkAdContent once "Cursus C++11" "" = Some Exn.Throw.
Proof.
  cbv zeta. split; [vm_compute; reflexivity|].
  split; [vm_compute; reflexivity|]. split.
  - exists "cursus ", "c++", "11 ". repeat split.
  - split; vm_compute; reflexivity.
Qed.

End BlacklistFacts.

(** ** [Array.prototype.sort] *)
Section SortFacts.
Import Js.
Context {A : Type} (comparefn : A -> A -> option Z).

Lemma insert_perm (x : A) (l : list A) :
  Permutation (insert comparefn x l) (x :: l).
Proof.
  induction l as [|y l IH]; simpl; [reflexivity|].
  destruct (sorts_after comparefn x y); [|reflexivity].
  rewrite IH. apply perm_swap.
Qed.

Lemma sort_perm (l : list A) : Permutation (sort comparefn l) l.
Proof.
  induction l as [|x l IH]; simpl; [reflexivity|].
  rewrite insert_perm. now constructor.
Qed.

Lemma sort_length (l : list A) : List.length (sort comparefn l) = List.length l.
Proof. apply Permutation_length, sort_perm. Qed.

(** A comparator that subtracts keys, as [(a, b) => key(b) - key(a)]
    does, sorts by descending key. *)
Section Keyed.
Context (key : A -> Z).

Lemma insert_descending (x : A) (l : list A) :
  (forall y, In y l -> comparefn x y = Some (key y - key x)%Z) ->
  StronglySorted (descending key) l ->
  StronglySorted (descending key) (insert comparefn x l).
Proof.
  intros Hk Hs. induction Hs as [|y l Hs IH Hy]; simpl.
  - repeat constructor.
  - unfold sorts_after. rewrite (Hk y (or_introl eq_refl)).
    destruct (Z.ltb_spec 0 (key y - key x)) as [Hlt|Hge].
    + constructor.
      * apply IH. intros z Hz. apply Hk. now right.
      * rewrite Forall_forall in *. intros z Hz.
        apply (Permutation_in _ (insert_perm x l)) in Hz.
        destruct Hz as [<-|Hz]; [unfold descending; lia | now apply Hy].
    + constructor; [now constructor|].
      constructor; [unfold descending; lia|].
      rewrite Forall_forall in *. intros z Hz.
      specialize (Hy z Hz). unfold descending in *. lia.
Qed.

Lemma sort_descending (l : list A) :
  (forall x y, In x l -> In y l ->
               comparefn x y = Some (key y - key x)%Z) ->
  StronglySorted (descending key) (sort comparefn l).
Proof.
  induction l as [|x l IH]; intros Hk; simpl; [constructor|].
  apply insert_descending.
  - intros y Hy. apply Hk; [now left|].
    right. exact (Permutation_in _ (sort_perm l) Hy).
  - apply IH. intros a b Ha Hb. apply Hk; now right.
Qed.

(** Stability: a list already in descending order is left as it is. *)
Lemma sort_descending_fixed (l : list A) :
  (forall x y, In x l -> In y l ->
               comparefn x y = Some (key y - key x)%Z) ->
  StronglySorted (descending key) l ->
  sort comparefn l = l.
Proof.
  intros Hk Hs. induction Hs as [|x l Hs IH Hx]; simpl; [reflexivity|].
  rewrite IH by (intros a b Ha Hb; apply Hk; now right).
  destruct l as [|y l']; simpl; [reflexivity|].
  unfold sorts_after.
  rewrite (Hk x y (or_introl eq_refl) (or_intror (or_introl eq_refl))).
  apply Forall_inv in Hx. unfold descending in Hx.
  destruct (Z.ltb_spec 0 (key y - key x)); [lia | reflexivity].
Qed.

Lemma descending_last (l : list A) (x : A) :
  StronglySorted (descending key) (l ++ [x]) ->
  forall y, In y l -> (key x <= key y)%Z.
Proof.
  induction l as [|a l IH]; simpl; intros Hs y Hy; [destruct Hy|].
  apply StronglySorted_inv in Hs as [Hs Ha].
  destruct Hy as [<-|Hy]; [|now apply IH].
  rewrite Forall_forall in Ha. apply Ha, in_or_app. right. now left.
Qed.
End Keyed.

End SortFacts.

Lemma StronglySorted_snoc {A : Type} (R : A -> A -> Prop) (l : list A) (x : A) :
  StronglySorted R l -> Forall (fun y => R y x) l ->
  StronglySorted R (l ++ [x]).
Proof.
  induction 1 as [|y l Hs IH Hy]; intros Hx; simpl.
  - repeat constructor.
  - apply Forall_cons_iff in Hx as [Hyx Hx].
    constructor; [now apply IH|].
    apply Forall_app. split; [exact Hy | now constructor].
Qed.

Lemma StronglySorted_rev {A : Type} (R : A -> A -> Prop) (l : list A) :
  StronglySorted R l -> StronglySorted (fun a b => R b a) (rev l).
Proof.
  induction 1 as [|x l Hs IH Hx]; simpl; [constructor|].
  apply StronglySorted_snoc; [exact IH|].
  rewrite Forall_forall in *. intros y Hy. apply Hx. now apply in_rev.
Qed.

Lemma StronglySorted_map {A B : Type} (f : A -> B) (R : B -> B -> Prop)
    (l : list A) :
  StronglySorted (fun a b => R (f a) (f b)) l -> StronglySorted R (map f l).
Proof.
  induction 1 as [|x l Hs IH Hx]; simpl; constructor; [exact IH|].
  now apply Forall_map.
Qed.

(** ** The blocked-ad logger *)
Section LoggerFacts.
Import Js Exn Logger.

(** C5. [logBlockedAd] always returns and never throws.  With the flag
    off it leaves the world as it was.  With the flag on, a log file that
    cannot be read or parsed counts as an empty collection (the new entry
    is then the only one written), and a failing write is reported on the
    console, not raised. *)
Theorem logBlockedAd_never_throws
    (io : Io) (ip title description : string) (words : list string)
    (agent : option string) (w : World) :
  exists w',
    logBlockedAd io ip title description words agent w = Ok w' /\
    (isLoggingEnabled w = false -> w' = w) /\
    (isLoggingEnabled w = true ->
     read_fails io = true \/ disk w = Missing \/ disk w = Corrupt ->
       readExistingLogs io w = JArray [] /\
       w' = print (LogBlocked words ip)
              (writeLogsToFile io
                 [Entry (newEntry io ip title description words agent)] w)) /\
    (isLoggingEnabled w = true ->
     forall remains, write_fails io = Some remains ->
       disk w' = disk w \/
       (disk w' = remains /\ In ErrorWriting (console w'))).
Proof.
  unfold logBlockedAd.
  destruct (isLoggingEnabled w) eqn:En; simpl.
  - assert (Hempty : read_fails io = true \/ disk w = Missing \/
                     disk w = Corrupt -> readExistingLogs io w = JArray []).
    { unfold readExistingLogs, readFile.
      intros [H|[H|H]]; [now rewrite H | |];
        destruct (read_fails io); try reflexivity; now rewrite H. }
    destruct (logBlockedAd_try io ip title description words agent w)
      as [w' [[]|]] eqn:E.
    + exists w'. split; [reflexivity|]. split; [discriminate|]. split.
      * intros _ Hbad. split; [now apply Hempty|].
        unfold logBlockedAd_try in E. rewrite (Hempty Hbad) in E.
        simpl in E. now injection E as <-.
      * intros _ remains Hw. unfold logBlockedAd_try in E.
        destruct (rest <- spread (readExistingLogs io w);;
                  limitLogEntries (Entry _ :: rest)); [|discriminate].
        injection E as <-. right. unfold writeLogsToFile. rewrite Hw.
        simpl. split; [reflexivity|].
        apply in_or_app. left. apply in_or_app. right. now left.
    + exists (print ErrorLogging w'). split; [reflexivity|].
      split; [discriminate|]. split.
      * intros _ Hbad. exfalso.
        unfold logBlockedAd_try in E. rewrite (Hempty Hbad) in E.
        simpl in E. discriminate.
      * intros _ remains Hw. left. unfold logBlockedAd_try in E.
        destruct (rest <- spread (readExistingLogs io w);;
                  limitLogEntries (Entry _ :: rest)); [discriminate|].
        now injection E as <-.
  - exists w. split; [reflexivity|]. split; [reflexivity|].
    split; discriminate.
Qed.

Lemma insert_entry (e : BlockedAdEntry) (l : list BlockedAdEntry) :
  insert newest_first (Entry e) (map Entry l) =
  map Entry (insert newest_entry_first e l).
Proof.
  induction l as [|y l IH]; simpl; [reflexivity|].
  unfold sorts_after. simpl.
  destruct (0 <? timestamp y - timestamp e)%Z; simpl; [|reflexivity].
  now rewrite IH.
Qed.

Lemma sort_entries (es : list BlockedAdEntry) :
  sort newest_first (map Entry es) = map Entry (sort newest_entry_first es).
Proof.
  induction es as [|e es IH]; simpl; [reflexivity|].
  now rewrite IH, insert_entry.
Qed.

Lemma no_null_entries (es : list BlockedAdEntry) :
  existsb is_null (map Entry es) = false.
Proof. induction es; simpl; auto. Qed.

Lemma reads_as_empty_holds (w : World) :
  reads_as_empty (disk w) -> holds w [].
Proof.
  intros H io Hr. unfold readExistingLogs, readFile. rewrite Hr.
  destruct H as [H|[H|[H|[H|H]]]]; rewrite H; reflexivity.
Qed.

Lemma written_holds (w : World) (es : list BlockedAdEntry) :
  disk w = Value (JArray (map Entry es)) -> holds w es.
Proof.
  intros H io Hr. unfold readExistingLogs, readFile. now rewrite Hr, H.
Qed.

(** One successful call on a log of [es]: the new entry goes in front,
    and the collection is cut to the newest [MAX_LOG_ENTRIES] once it
    exceeds them. *)
Lemma logCall_step (c : Call) (w : World) (es : list BlockedAdEntry) :
  isLoggingEnabled w = true ->
  io_succeeds (call_io c) ->
  holds w es ->
  exists w',
    logCall c w = Ok w' /\
    isLoggingEnabled w' = true /\
    disk w' = Value (JArray (map Entry
      (if (List.length (entry_of c :: es) <=? MAX_LOG_ENTRIES)%nat
       then entry_of c :: es
       else firstn MAX_LOG_ENTRIES
              (sort newest_entry_first (entry_of c :: es))))).
Proof.
  intros En [Hr Hw] Hh.
  unfold logCall, logBlockedAd, logBlockedAd_try. rewrite En. simpl negb.
  cbv iota. rewrite (Hh _ Hr). simpl spread. unfold bind at 1.
  fold (entry_of c). unfold limitLogEntries.
  change (Entry (entry_of c) :: map Entry es)
    with (map Entry (entry_of c :: es)).
  rewrite length_map.
  destruct (List.length (entry_of c :: es) <=? MAX_LOG_ENTRIES)%nat.
  - eexists. split; [reflexivity|]. unfold writeLogsToFile. rewrite Hw.
    split; [exact En | reflexivity].
  - unfold sort_newest_first. rewrite no_null_entries. unfold bind.
    rewrite sort_entries, firstn_map.
    eexists. split; [reflexivity|]. unfold writeLogsToFile. rewrite Hw.
    split; [exact En | reflexivity].
Qed.

(** A run that stays within the limit stacks the entries newest first. *)
Lemma logAll_within_limit (calls : list Call) :
  forall (w : World) (es : list BlockedAdEntry),
    isLoggingEnabled w = true ->
    Forall (fun c => io_succeeds (call_io c)) calls ->
    holds w es ->
    (List.length calls + List.length es <= MAX_LOG_ENTRIES)%nat ->
    exists w',
      logAll calls w = Ok w' /\
      isLoggingEnabled w' = true /\
      holds w' (rev (map entry_of calls) ++ es).
Proof.
  induction calls as [|c calls IH]; intros w es En Hio Hh Hlen.
  - exists w. simpl. auto.
  - apply Forall_cons_iff in Hio as [Hc Hio].
    destruct (logCall_step c w es En Hc Hh) as (w1 & E1 & En1 & D1).
    assert (Hle : (List.length (entry_of c :: es) <=? MAX_LOG_ENTRIES)%nat
                  = true).
    { apply Nat.leb_le. simpl in *. lia. }
    rewrite Hle in D1.
    destruct (IH w1 (entry_of c :: es) En1 Hio (written_holds _ _ D1))
      as (w' & E' & En' & Hh').
    { simpl in *. lia. }
    exists w'. simpl. rewrite E1. simpl. split; [exact E'|].
    split; [exact En'|]. now rewrite <- app_assoc.
Qed.

Lemma logAll_app (calls1 calls2 : list Call) (w : World) :
  logAll (calls1 ++ calls2) w = (w' <- logAll calls1 w ;; logAll calls2 w').
Proof.
  revert w. induction calls1 as [|c calls1 IH]; intros w; simpl;
    [reflexivity|].
  destruct (logCall c w); simpl; [apply IH | reflexivity].
Qed.

Lemma firstn_all_but_last {A : Type} (l : list A) (x : A) :
  firstn (List.length l) (l ++ [x]) = l.
Proof.
  rewrite firstn_app, Nat.sub_diag, firstn_all. simpl. apply app_nil_r.
Qed.

(** C3. From a log that reads as empty, with logging enabled and the
    file operations succeeding, 1001 calls in sequence leave exactly 1000
    entries on disk: the entries logged minus one, which is an oldest one
    by timestamp; the kept ones are in descending order of timestamp.
    When the clock never runs backwards the evicted entry is the first
    one logged and the others are kept newest first. *)
Theorem log_1001_keeps_newest_1000 (w0 : World) (calls : list Call) :
  isLoggingEnabled w0 = true ->
  reads_as_empty (disk w0) ->
  Forall (fun c => io_succeeds (call_io c)) calls ->
  List.length calls = 1001%nat ->
  exists w kept evicted,
    logAll calls w0 = Ok w /\
    disk w = Value (JArray (map Entry kept)) /\
    List.length kept = 1000%nat /\
    Permutation (kept ++ [evicted]) (map entry_of calls) /\
    StronglySorted (descending timestamp) (kept ++ [evicted]) /\
    (forall e, In e kept -> (timestamp evicted <= timestamp e)%Z) /\
    (forall first rest,
       calls = first :: rest ->
       StronglySorted (fun a b => (now (call_io a) <= now (call_io b))%Z)
                      calls ->
       evicted = entry_of first /\ kept = rev (map entry_of rest)).
Proof.
  intros En Hempty Hio Hlen.
  destruct (exists_last (l := calls)) as (init & c & ->);
    [intros ->; discriminate|].
  rewrite length_app in Hlen. simpl in Hlen.
  apply Forall_app in Hio as [Hio Hc]. apply Forall_inv in Hc.
  destruct (logAll_within_limit init w0 [] En Hio
              (reads_as_empty_holds _ Hempty)) as (w1 & E1 & En1 & Hh1).
  { unfold MAX_LOG_ENTRIES. simpl. lia. }
  rewrite app_nil_r in Hh1.
  destruct (logCall_step c w1 _ En1 Hc Hh1) as (w & E & _ & D).
  set (all := entry_of c :: rev (map entry_of init)) in *.
  assert (Hall : List.length all = 1001%nat).
  { unfold all. simpl. rewrite length_rev, length_map. lia. }
  replace (List.length all <=? MAX_LOG_ENTRIES)%nat with false in D
    by (rewrite Hall; reflexivity).
  set (sorted := sort newest_entry_first all) in *.
  assert (Hsl : List.length sorted = 1001%nat)
    by (unfold sorted; now rewrite sort_length).
  destruct (exists_last (l := sorted)) as (kept & evicted & Es);
    [intros E0; rewrite E0 in Hsl; discriminate|].
  assert (Hk : List.length kept = 1000%nat).
  { rewrite Es, length_app in Hsl. simpl in Hsl. lia. }
  assert (Efirst : firstn MAX_LOG_ENTRIES sorted = kept).
  { rewrite Es. unfold MAX_LOG_ENTRIES. rewrite <- Hk.
    apply firstn_all_but_last. }
  assert (Hperm : Permutation all (map entry_of (init ++ [c]))).
  { unfold all. rewrite map_app. simpl.
    rewrite <- Permutation_rev. apply Permutation_cons_append. }
  assert (Hsorted : StronglySorted (descending timestamp) sorted).
  { apply sort_descending. reflexivity. }
  exists w, kept, evicted.
  split; [rewrite logAll_app, E1; simpl; now rewrite E|].
  split; [now rewrite D, Efirst|]. split; [exact Hk|].
  split; [rewrite <- Es, <- Hperm; apply sort_perm|].
  split; [now rewrite <- Es|].
  split; [apply (descending_last timestamp); now rewrite <- Es|].
  intros first rest Ecalls Hmono.
  assert (Hdesc : StronglySorted (descending timestamp) all).
  { unfold all. rewrite <- map_rev.
    change (entry_of c :: map entry_of (rev init))
      with (map entry_of (c :: rev init)).
    rewrite <- rev_unit. apply StronglySorted_map.
    apply (StronglySorted_rev _ _ Hmono). }
  assert (Efix : sorted = all).
  { unfold sorted. apply (sort_descending_fixed _ timestamp); auto. }
  rewrite Efix in Es. unfold all in Es.
  destruct init as [|c0 init']; [discriminate|].
  simpl in Ecalls. injection Ecalls as <- <-.
  simpl in Es. rewrite app_comm_cons in Es.
  apply app_inj_tail in Es as [Ek Ee].
  split; [now symmetry|]. rewrite <- Ek, map_app, rev_app_distr. reflexivity.
Qed.

Lemma log_1001_keeps_newest_1000_witness :
  exists w kept evicted,
    logAll (map nth_call (seq 0 1001)) fresh_world = Ok w /\
    disk w = Value (JArray (map Entry kept)) /\
    List.length kept = 1000%nat /\
    (forall e, In e kept -> (timestamp evicted <= timestamp e)%Z).
Proof.
  destruct (log_1001_keeps_newest_1000 fresh_world
              (map nth_call (seq 0 1001)))
    as (w & kept & evicted & H1 & H2 & H3 & _ & _ & H6 & _).
  - reflexivity.
  - left. reflexivity.
  - apply Forall_forall. intros c Hc.
    apply in_map_iff in Hc as (n & <- & _). split; reflexivity.
  - rewrite length_map, length_seq. reflexivity.
  - exists w, kept, evicted. repeat split; assumption.
Defined.

End LoggerFacts.

(** ** Rate limiters *)
Section LimiterFacts.
Import RateLimit Limiters.

(** C9, as the code has it.  Each of the four limiters answers a client
    over its limit with status 429 and a body that holds the field
    [error]; the bodies of the ad-creation and contact limiters also hold
    [message] and [retryAfter], those of the login and registration
    limiters hold [error] alone. *)
Theorem limiter_refusal (l : Limiter) (totalHits : Z) (req : Request) :
  (max (options_of l) < totalHits)%Z ->
  exists r,
    rateLimit (options_of l) totalHits req = Refused r /\
    reply_status r = 429%Z /\
    has_field "error" (reply_body r) /\
    match l with
    | AdCreation | ContactMessage =>
        has_field "message" (reply_body r) /\
        has_field "retryAfter" (reply_body r)
    | Login | Registration => field_names (reply_body r) = ["error"]
    end.
Proof.
  intros H. apply Z.ltb_lt in H. unfold rateLimit. rewrite H.
  eexists. split; [reflexivity|].
  destruct l; unfold has_field; simpl; intuition.
Qed.

Lemma limiter_refusal_witness :
  exists r,
    rateLimit RateLimiter.createAdLimiter 6 client = Refused r /\
    reply_status r = 429%Z /\
    field_names (reply_body r) = ["error"; "message"; "retryAfter"].
Proof.
  destruct (limiter_refusal AdCreation 6 client)
    as (r & Hr & Hs & _).
  - reflexivity.
  - exists r. split; [exact Hr|]. split; [exact Hs|].
    vm_compute in Hr. injection Hr as <-. reflexivity.
Defined.

(** The sixth attempt to log in within the window is answered with a
    body that has no [message] and no [retryAfter] field. *)
Lemma login_refusal_lacks_message :
  rateLimit Security.loginLimiter 6 client
    = Refused (refusal Security.loginLimiter client) /\
  reply_status (refusal Security.loginLimiter client) = 429%Z /\
  field_names (reply_body (refusal Security.loginLimiter client))
    = ["error"] /\
  ~ (has_field "error" (reply_body (refusal Security.loginLimiter client)) /\
     has_field "message" (reply_body (refusal Security.loginLimiter client)) /\
     has_field "retryAfter"
       (reply_body (refusal Security.loginLimiter client))).
Proof.
  split; [reflexivity|]. split; [reflexivity|]. split; [reflexivity|].
  unfold has_field. simpl. intros (_ & [H|[]] & _). discriminate.
Qed.

End LimiterFacts.

(** ** The ad lifecycle *)
Section LifecycleFacts.
Import Store Cron Routes.

Lemma find_map_ad (f : Ad -> Ad) (id : Z) (l : list Ad) :
  (forall a, ad_id (f a) = ad_id a) ->
  find (fun a => (ad_id a =? id)%Z) (map f l) =
  option_map f (find (fun a => (ad_id a =? id)%Z) l).
Proof.
  intros Hf. induction l as [|a l IH]; simpl; [reflexivity|].
  rewrite Hf. destruct (ad_id a =? id)%Z; [reflexivity | exact IH].
Qed.

Lemma getAd_id (d : Database) (id : Z) (a : Ad) :
  getAd d id = Some a -> ad_id a = id.
Proof.
  unfold getAd. intros H. apply find_some in H as [_ H].
  now apply Z.eqb_eq.
Qed.

Lemma checkExpiredAds_getAd (now : Z) (d : Database) (id : Z) :
  exists d',
    checkExpiredAds now (Some d) = Some d' /\
    getAd d' id = option_map (sweep_ad now) (getAd d id).
Proof.
  unfold checkExpiredAds.
  destruct (filter (is_overdue (now - SIXTY_DAYS)) (ads d)) as [|x l] eqn:E;
    simpl.
  - exists d. split; [reflexivity|].
    destruct (getAd d id) as [a|] eqn:G; simpl; [|reflexivity].
    f_equal. unfold sweep_ad.
    destruct (is_overdue (now - SIXTY_DAYS) a) eqn:O; [|reflexivity].
    exfalso. apply find_some in G as [Hin _].
    assert (Hf : In a (filter (is_overdue (now - SIXTY_DAYS)) (ads d)))
      by (apply filter_In; auto).
    rewrite E in Hf. destruct Hf.
  - eexists. split; [reflexivity|]. unfold getAd. simpl.
    apply (find_map_ad (sweep_ad now)). intros a. unfold sweep_ad.
    now destruct (is_overdue _ a).
Qed.

Lemma updateAdStatus_getAd (id i : Z) (s : Status) (now : Z) (d : Database) :
  getAd (snd (updateAdStatus i s now d)) id =
  option_map (fun a => if (ad_id a =? i)%Z
                       then set_updatedAt now (set_status s a) else a)
             (getAd d id).
Proof.
  unfold updateAdStatus, getAd. simpl. apply find_map_ad.
  intros a. now destruct (ad_id a =? i)%Z.
Qed.

Lemma find_filter_not (id i : Z) (l : list Ad) (a : Ad) :
  find (fun a => (ad_id a =? id)%Z)
       (filter (fun a => negb (ad_id a =? i)%Z) l) = Some a ->
  find (fun a => (ad_id a =? id)%Z) l = Some a.
Proof.
  induction l as [|x l IH]; simpl; [discriminate|].
  destruct (ad_id x =? i)%Z eqn:Ei; simpl.
  - intros H. specialize (IH H).
    destruct (ad_id x =? id)%Z eqn:Ex; [|exact IH].
    exfalso. apply find_some in H as [Hin Hid].
    apply filter_In in Hin as [_ Hn].
    apply Z.eqb_eq in Ei, Ex, Hid. apply negb_true_iff, Z.eqb_neq in Hn.
    congruence.
  - destruct (ad_id x =? id)%Z; [auto | exact IH].
Qed.

Lemma deleteAd_getAd (id i : Z) (d : Database) (a : Ad) :
  getAd (snd (deleteAd i d)) id = Some a -> getAd d id = Some a.
Proof.
  unfold deleteAd, getAd.
  destruct (negb (is_integer i)); [auto|].
  destruct (_ && _); [auto|]. cbn [snd with_ads ads].
  apply find_filter_not.
Qed.

(** C6. The sweep turns an approved ad created 61 days before into an
    expired one, and leaves an ad created 59 days before as it is. *)
Theorem sweep_61_days_and_59_days (now : Z) (d : Database) (id : Z) (a : Ad) :
  getAd d id = Some a ->
  exists d',
    checkExpiredAds now (Some d) = Some d' /\
    (createdAt a = (now - 61 * DAY)%Z -> status a = approved ->
       getAd d' id = Some (set_status expired a)) /\
    (createdAt a = (now - 59 * DAY)%Z -> getAd d' id = Some a).
Proof.
  intros G. destruct (checkExpiredAds_getAd now d id) as (d' & E & G').
  exists d'. split; [exact E|]. rewrite G in G'. simpl in G'.
  unfold sweep_ad, is_overdue in G'. split.
  - intros Hc Hs.
    assert (Hlt : (createdAt a <? now - SIXTY_DAYS)%Z = true)
      by (apply Z.ltb_lt; unfold SIXTY_DAYS, DAY in *; lia).
    now rewrite G', Hlt, Hs.
  - intros Hc.
    assert (Hge : (createdAt a <? now - SIXTY_DAYS)%Z = false)
      by (apply Z.ltb_ge; unfold SIXTY_DAYS, DAY in *; lia).
    now rewrite G', Hge.
Qed.

Lemma sweep_61_days_and_59_days_witness :
  exists d',
    checkExpiredAds (61 * DAY) (Some one_approved_ad) = Some d' /\
    getAd d' 1 = Some (old_ad 1 expired).
Proof.
  destruct (sweep_61_days_and_59_days (61 * DAY) one_approved_ad 1
              (old_ad 1 approved) eq_refl) as (d' & E & H61 & _).
  exists d'. split; [exact E|]. apply H61; reflexivity.
Defined.

Lemma snd_approveLink (i now : Z) (d : Database) :
  snd (approveLink i now d) = snd (updateAdStatus i approved now d).
Proof.
  unfold approveLink. now destruct (updateAdStatus i approved now d) as [[x|] d'].
Qed.

Lemma snd_rejectLink (i now : Z) (d : Database) :
  snd (rejectLink i now d) = snd (updateAdStatus i rejected now d).
Proof.
  unfold rejectLink. now destruct (updateAdStatus i rejected now d) as [[x|] d'].
Qed.

Lemma snd_patchStatus (i : Z) (s : Status) (now : Z) (d : Database) :
  snd (patchStatus i s now d) =
  if Status_eqb s expired then d else snd (updateAdStatus i s now d).
Proof.
  unfold patchStatus. destruct s; cbn [Status_eqb].
  - now destruct (updateAdStatus i pending now d) as [[x|] d'].
  - now destruct (updateAdStatus i approved now d) as [[x|] d'].
  - now destruct (updateAdStatus i rejected now d) as [[x|] d'].
  - reflexivity.
Qed.

Lemma run_getAd (op : Operation) (now : Z) (d : Database) (id : Z) (a' : Ad) :
  getAd (run op now d) id = Some a' ->
  exists a,
    getAd d id = Some a /\
    match op with
    | ApproveLink i =>
        a' = if (ad_id a =? i)%Z
             then set_updatedAt now (set_status approved a) else a
    | RejectLink i =>
        a' = if (ad_id a =? i)%Z
             then set_updatedAt now (set_status rejected a) else a
    | PatchStatus i s =>
        a' = if (ad_id a =? i)%Z && negb (Status_eqb s expired)
             then set_updatedAt now (set_status s a) else a
    | Sweep => a' = sweep_ad now a
    | Delete i => a' = a
    end.
Proof.
  destruct op as [i|i|i s| |i]; cbn [run].
  - rewrite snd_approveLink, updateAdStatus_getAd.
    destruct (getAd d id) as [a|]; simpl; [|discriminate].
    intros [= <-]. now exists a.
  - rewrite snd_rejectLink, updateAdStatus_getAd.
    destruct (getAd d id) as [a|]; simpl; [|discriminate].
    intros [= <-]. now exists a.
  - rewrite snd_patchStatus. destruct (Status_eqb s expired); cbn [negb].
    + intros H. exists a'. split; [exact H|]. now rewrite andb_false_r.
    + rewrite updateAdStatus_getAd.
      destruct (getAd d id) as [a|]; simpl; [|discriminate].
      intros [= <-]. exists a. now rewrite andb_true_r.
  - destruct (checkExpiredAds_getAd now d id) as (d' & E & G).
    rewrite E, G. destruct (getAd d id) as [a|]; simpl; [|discriminate].
    intros [= <-]. now exists a.
  - unfold deleteRoute.
    pose proof (deleteAd_getAd id i d a') as H.
    destruct (deleteAd i d) as [[[|]|] d']; simpl in *; intros G;
      exists a'; auto.
Qed.

(** C2, as the code has it.  When an operation changes the status of a
    stored ad, the change is one of these: the approve link sets
    [approved] and the reject link [rejected], whatever the status was;
    the admin route sets the status it is given, [expired] excepted; the
    sweep sets [expired] on an ad created more than sixty days before
    that is not expired yet, whatever else its status was.  Hence only
    the sweep sets [expired] and the sweep never changes an expired ad. *)
Theorem status_changes
    (op : Operation) (now : Z) (d : Database) (id : Z) (a : Ad) :
  getAd d id = Some a ->
  (forall a',
     getAd (run op now d) id = Some a' ->
     status a' <> status a ->
     match op with
     | ApproveLink i => i = id /\ status a' = approved
     | RejectLink i => i = id /\ status a' = rejected
     | PatchStatus i s => i = id /\ s <> expired /\ status a' = s
     | Sweep =>
         status a' = expired /\ status a <> expired /\
         (createdAt a < now - SIXTY_DAYS)%Z
     | Delete i => False
     end) /\
  (exists a', getAd (run (ApproveLink id) now d) id = Some a' /\
              status a' = approved) /\
  (exists a', getAd (run (RejectLink id) now d) id = Some a' /\
              status a' = rejected) /\
  ((createdAt a < now - SIXTY_DAYS)%Z -> status a <> expired ->
   exists a', getAd (run Sweep now d) id = Some a' /\ status a' = expired).
Proof.
  intros G. pose proof (getAd_id _ _ _ G) as Hid.
  split; [|split; [|split]].
  - intros a' G' Hne.
    destruct (run_getAd op now d id a' G') as (b & Gb & H).
    rewrite G in Gb. injection Gb as <-.
    destruct op as [i|i|i s| |i].
    + destruct (Z.eqb_spec (ad_id a) i); subst a'; [|congruence].
      split; [congruence | reflexivity].
    + destruct (Z.eqb_spec (ad_id a) i); subst a'; [|congruence].
      split; [congruence | reflexivity].
    + destruct (Z.eqb_spec (ad_id a) i); simpl in H; [|congruence].
      destruct s; simpl in H; subst a'; try congruence;
        (split; [congruence | split; [discriminate | reflexivity]]).
    + unfold sweep_ad, is_overdue in H.
      destruct (Z.ltb_spec (createdAt a) (now - SIXTY_DAYS)); simpl in H;
        [|congruence].
      destruct (status a) eqn:S; simpl in H; subst a'; simpl in *;
        try congruence; repeat split; try discriminate; auto.
    + congruence.
  - cbn [run]. rewrite snd_approveLink, updateAdStatus_getAd, G. simpl.
    rewrite Hid, Z.eqb_refl. eexists. split; reflexivity.
  - cbn [run]. rewrite snd_rejectLink, updateAdStatus_getAd, G. simpl.
    rewrite Hid, Z.eqb_refl. eexists. split; reflexivity.
  - intros Hold Hne. cbn [run].
    destruct (checkExpiredAds_getAd now d id) as (d' & E & G').
    rewrite E, G', G. simpl. eexists. split; [reflexivity|].
    unfold sweep_ad, is_overdue.
    apply Z.ltb_lt in Hold. rewrite Hold.
    destruct (status a); simpl; congruence.
Qed.

Lemma status_changes_witness :
  exists a', getAd (run (ApproveLink 1) 5 two_ads) 1 = Some a' /\
             status a' = approved.
Proof.
  exact (proj1 (proj2
    (status_changes Sweep 5 two_ads 1 (old_ad 1 rejected) eq_refl))).
Defined.

(** The approve link moves a rejected ad to [approved], and the sweep
    moves a pending ad to [expired]: neither change is among the listed
    ones. *)
Lemma rejected_ad_approved_pending_ad_expired :
  option_map status (getAd two_ads 1) = Some rejected /\
  option_map status (getAd (run (ApproveLink 1) 5 two_ads) 1)
    = Some approved /\
  ~ listed_transition rejected approved /\
  option_map status (getAd two_ads 2) = Some pending /\
  option_map status (getAd (run Sweep (61 * DAY) two_ads) 2)
    = Some expired /\
  ~ listed_transition pending expired.
Proof.
  unfold listed_transition.
  repeat split; try reflexivity;
    intros [[H1 H2]|[[H1 H2]|[H1 H2]]]; discriminate.
Qed.

(** What a successful insert has checked and done. *)
Lemma createAd_stored (ins : InsertAd) (t : Z) (d d' : Database) (ad : Ad) :
  createAd ins t d = (Exn.Ok ad, d') ->
  parameters_accepted ins = true /\
  (exists title description location,
     ins_title ins = Some title /\
     ins_description ins = Some description /\
     ins_location ins = Some location /\
     ad = new_row ins (ad_id ad) t title description location) /\
  match column (ins_id ins) with
  | Some id => ad_id ad = id /\ next_ad_id d' = next_ad_id d
  | None => ad_id ad = next_ad_id d /\
            next_ad_id d' = (next_ad_id d + 1)%Z
  end /\
  is_ad d (ad_id ad) = false /\
  optional (is_category d) (categoryId ad) = true /\
  optional (is_category d) (subcategoryId ad) = true /\
  is_user d (userId ad) = true /\
  d' = with_next_ad_id (next_ad_id d') (with_ads (ads d ++ [ad])%list d).
Proof.
  unfold createAd.
  destruct (parameters_accepted ins); cbn [negb]; [|discriminate].
  destruct (column (ins_id ins)) as [id|].
  - destruct (ins_title ins) as [ti|]; [|discriminate].
    destruct (ins_description ins) as [de|]; [|discriminate].
    destruct (ins_location ins) as [lo|]; [|discriminate].
    destruct (row_accepted d _) eqn:R; [|discriminate].
    intros [= <- <-]. unfold row_accepted in R.
    repeat (apply andb_true_iff in R as [R ?]).
    apply negb_true_iff in R.
    split; [reflexivity|]. split; [now exists ti, de, lo|].
    repeat split; auto.
  - destruct (is_integer (next_ad_id d)); [|discriminate].
    destruct (ins_title ins) as [ti|]; [|discriminate].
    destruct (ins_description ins) as [de|]; [|discriminate].
    destruct (ins_location ins) as [lo|]; [|discriminate].
    destruct (row_accepted _ _) eqn:R; [|discriminate].
    intros [= <- <-]. unfold row_accepted in R.
    repeat (apply andb_true_iff in R as [R ?]).
    apply negb_true_iff in R.
    split; [reflexivity|]. split; [now exists ti, de, lo|].
    repeat split; auto.
Qed.

(** A failed insert leaves every table as it was; the sequence may have
    moved on. *)
Lemma createAd_failed (ins : InsertAd) (t : Z) (d d' : Database) :
  createAd ins t d = (Exn.Throw, d') ->
  d' = with_next_ad_id (next_ad_id d') d /\
  (next_ad_id d <= next_ad_id d' <= next_ad_id d + 1)%Z.
Proof.
  unfold createAd.
  destruct (parameters_accepted ins); cbn [negb].
  2:{ intros [= <-]. split; [now destruct d | lia]. }
  destruct (column (ins_id ins)) as [id|].
  - destruct (ins_title ins), (ins_description ins), (ins_location ins);
      try destruct (row_accepted d _);
      intros [= <-]; (split; [now destruct d | lia]).
  - destruct (is_integer (next_ad_id d)).
    + destruct (ins_title ins), (ins_description ins), (ins_location ins);
        try destruct (row_accepted _ _);
        intros [= <-]; (split; [reflexivity | simpl; lia]).
    + intros [= <-]. split; [now destruct d | lia].
Qed.

(** The steps [postAd] goes through before it answers 200. *)
Lemma postAd_stored
    (req : CreateAdRequest) (srv srv' : Server) (resp : Response) :
  postAd req srv = Some (resp, srv') ->
  http_status resp = 200%Z ->
  let adData := adData_of (req_body req) in
  exists userId price cid check category ad,
    req_user req = Some userId /\
    missingFields adData = [] /\
    data_price adData = Some (Js.Num price) /\ (0 < price)%Z /\
    data_categoryId adData = Some (Js.Num cid) /\
    Blacklist.checkAdContent (blacklist srv) (or_empty (data_title adData))
      (or_empty (data_description adData)) = Some (Exn.Ok check) /\
    Blacklist.allowed check = true /\
    getCategory (db srv) cid = Exn.Ok category /\
    bunkopu_price_too_high category price (data_currency adData) = false /\
    createAd
      (insertData adData userId
         (initial_status (getAdminSetting (db srv) "requireAdApproval"))
         (req_images req))
      (req_time req) (db srv) = (Exn.Ok ad, db srv') /\
    resp = respond 200 (BodyAd ad) /\
    blacklist srv' = blacklist srv /\ log srv' = log srv.
Proof.
  intros H H200 adData. unfold postAd in H. fold adData in H.
  destruct (req_user req) as [userId|];
    [|injection H as <- <-; discriminate].
  destruct (missingFields adData) as [|m ms] eqn:Em;
    [|injection H as <- <-; discriminate].
  cbn [List.length Nat.ltb Nat.leb] in H.
  destruct (data_price adData) as [[|price]|];
    try (injection H as <- <-; discriminate).
  destruct (Z.leb_spec price 0) as [Hle|Hlt];
    [injection H as <- <-; discriminate|].
  destruct (data_categoryId adData) as [[|cid]|];
    try (injection H as <- <-; discriminate).
  destruct (Blacklist.checkAdContent _ _ _) as [[check|]|] eqn:Ec;
    [|injection H as <- <-; discriminate|discriminate].
  destruct (Blacklist.allowed check) eqn:Eal; cbn [negb] in H.
  2:{ destruct (Logger.logBlockedAd _ _ _ _ _ _ _);
        injection H as <- <-; discriminate. }
  destruct (getCategory (db srv) cid) as [category|] eqn:Eg;
    [|injection H as <- <-; discriminate].
  destruct (bunkopu_price_too_high _ _ _) eqn:Eb;
    [injection H as <- <-; discriminate|].
  destruct (createAd _ _ _) as [[ad|] d] eqn:Ecr;
    injection H as <- <-; [|discriminate].
  exists userId, price, cid, check, category, ad.
  repeat split; auto.
Qed.

(** What the table [admin_settings] says of a key, whichever of its
    rows a query meets first. *)
Lemma getAdminSetting_rows (d : Database) (key : string) :
  ((exists r, In r (adminSettings d) /\ setting_key r = key) ->
   (forall r, In r (adminSettings d) -> setting_key r = key ->
              setting_value r = "true") ->
   getAdminSetting d key = Some "true") /\
  ((forall r, In r (adminSettings d) -> setting_key r = key ->
              setting_value r <> "true") ->
   getAdminSetting d key <> Some "true").
Proof.
  unfold getAdminSetting. split.
  - intros (r & Hin & Hk) Hall.
    destruct (find _ (adminSettings d)) as [r0|] eqn:F.
    + apply find_some in F as [Hin0 Hk0]. apply String.eqb_eq in Hk0.
      now rewrite (Hall r0 Hin0 Hk0).
    + exfalso. apply (find_none _ _ F) in Hin.
      rewrite Hk, String.eqb_refl in Hin. discriminate.
  - intros Hall.
    destruct (find _ (adminSettings d)) as [r0|] eqn:F; [|discriminate].
    apply find_some in F as [Hin0 Hk0]. apply String.eqb_eq in Hk0.
    specialize (Hall r0 Hin0 Hk0).
    destruct (String.eqb (setting_value r0) ""); [discriminate|].
    congruence.
Qed.

(** C4. When the creation route answers 200, it has stored one new ad,
    the one it answers with.  That ad has status [pending] when the
    table of admin settings holds [requireAdApproval] with the value
    "true", and status [approved] when the table holds no row for
    [requireAdApproval] or holds it with any other value. *)
Theorem created_ad_status
    (req : CreateAdRequest) (srv srv' : Server) (resp : Response) :
  postAd req srv = Some (resp, srv') ->
  http_status resp = 200%Z ->
  exists ad,
    body resp = BodyAd ad /\
    ads (db srv') = (ads (db srv) ++ [ad])%list /\
    ((exists r, In r (adminSettings (db srv)) /\
                setting_key r = "requireAdApproval") ->
     (forall r, In r (adminSettings (db srv)) ->
                setting_key r = "requireAdApproval" ->
                setting_value r = "true") ->
     status ad = pending) /\
    ((forall r, In r (adminSettings (db srv)) ->
                setting_key r = "requireAdApproval" ->
                setting_value r <> "true") ->
     status ad = approved).
Proof.
  intros H H200.
  destruct (postAd_stored req srv srv' resp H H200)
    as (userId & price & cid & check & category & ad & _ & _ & _ & _ & _ &
        _ & _ & _ & _ & Hcr & -> & _).
  destruct (createAd_stored _ _ _ _ _ Hcr)
    as (_ & (ti & de & lo & _ & _ & _ & Had) & _ & _ & _ & _ & _ & Hd).
  exists ad. split; [reflexivity|]. split; [now rewrite Hd|].
  assert (Hs : status ad =
               initial_status (getAdminSetting (db srv) "requireAdApproval"))
    by (rewrite Had; reflexivity).
  destruct (getAdminSetting_rows (db srv) "requireAdApproval") as [Ht Hf].
  split.
  - intros Hex Hall. rewrite Hs, (Ht Hex Hall). reflexivity.
  - intros Hall. rewrite Hs. specialize (Hf Hall). unfold initial_status.
    destruct (getAdminSetting (db srv) "requireAdApproval") as [v|];
      [|reflexivity].
    destruct (String.eqb_spec v "true") as [->|_]; [congruence | reflexivity].
Qed.

Lemma created_ad_status_witness :
  (exists ad srv',
     postAd bike_request moderated_server
       = Some (respond 200 (BodyAd ad), srv') /\
     status ad = pending) /\
  (exists ad srv',
     postAd bike_request unmoderated_server
       = Some (respond 200 (BodyAd ad), srv') /\
     status ad = approved).
Proof.
  split.
  - destruct (postAd bike_request moderated_server) as [[resp srv']|] eqn:E;
      [|vm_compute in E; discriminate].
    assert (H200 : http_status resp = 200%Z)
      by (vm_compute in E; injection E as <- <-; reflexivity).
    destruct (created_ad_status bike_request moderated_server srv' resp
                E H200) as (ad & Hb & _ & Hp & _).
    exists ad, srv'. split.
    + destruct resp as [code b]. simpl in *. now subst.
    + apply Hp.
      * eexists. split; [left; reflexivity | reflexivity].
      * intros r [<-|[]] _. reflexivity.
  - destruct (postAd bike_request unmoderated_server) as [[resp srv']|] eqn:E;
      [|vm_compute in E; discriminate].
    assert (H200 : http_status resp = 200%Z)
      by (vm_compute in E; injection E as <- <-; reflexivity).
    destruct (created_ad_status bike_request unmoderated_server srv' resp
                E H200) as (ad & Hb & _ & _ & Ha).
    exists ad, srv'. split.
    + destruct resp as [code b]. simpl in *. now subst.
    + apply Ha. intros r [<-|[]] _. discriminate.
Defined.

End LifecycleFacts.

(** ** The dynamic filter generator *)
Section FilterFacts.
Import Js Store Filters WholeWord FacetWords.

Lemma dedupe_In (x : string) (l : list string) :
  In x (dedupe l) <-> In x l.
Proof.
  induction l as [|y l IH]; simpl; [reflexivity|].
  rewrite filter_In, IH, negb_true_iff, String.eqb_neq.
  destruct (string_dec y x) as [->|Hne]; [tauto|].
  split; [tauto|]. intros [H|H]; [tauto|]. right. split; congruence.
Qed.

Lemma dedupe_NoDup (l : list string) : NoDup (dedupe l).
Proof.
  induction l as [|y l IH]; simpl; constructor.
  - rewrite filter_In, negb_true_iff, String.eqb_neq. tauto.
  - now apply NoDup_filter.
Qed.

Lemma two_distinct_iff (l : list string) :
  NoDup l ->
  ((1 < List.length l)%nat <->
   exists a b, In a l /\ In b l /\ a <> b).
Proof.
  intros Hnd. split.
  - destruct l as [|a [|b l]]; simpl; try lia. intros _.
    exists a, b. repeat split; auto.
    apply NoDup_cons_iff in Hnd as [Hn _]. intros ->. apply Hn. now left.
  - intros (a & b & Ha & Hb & Hne).
    destruct l as [|x [|y l]]; simpl in *; try lia.
    destruct Ha as [<-|[]], Hb as [<-|[]]. congruence.
Qed.

Lemma insert_HdRel {A : Type} (comparefn : A -> A -> option Z)
    (R : A -> A -> Prop) (x y : A) (l : list A) :
  HdRel R y l -> R y x -> HdRel R y (insert comparefn x l).
Proof.
  destruct l as [|z l]; simpl; intros Hy Hx; [now constructor|].
  destruct (sorts_after comparefn x z); constructor; auto.
  now apply HdRel_inv in Hy.
Qed.

Lemma insert_string_sorted (x : string) (l : list string) :
  Sorted string_le l -> Sorted string_le (insert compare_strings x l).
Proof.
  induction 1 as [|y l Hs IH Hy]; simpl; [repeat constructor|].
  unfold sorts_after at 1. unfold compare_strings at 1.
  destruct (String.compare x y) eqn:C; simpl.
  - repeat constructor; auto. unfold string_le, String.leb. now rewrite C.
  - repeat constructor; auto. unfold string_le, String.leb. now rewrite C.
  - constructor; [exact IH|]. apply insert_HdRel; [exact Hy|].
    unfold string_le, String.leb.
    rewrite String.compare_antisym, C. reflexivity.
Qed.

Lemma sort_strings_sorted (l : list string) :
  Sorted string_le (sort compare_strings l).
Proof.
  induction l as [|x l IH]; simpl; [constructor|].
  now apply insert_string_sorted.
Qed.

Lemma keyword_facet_field (allText : string) (keywords : list string)
    (render : string -> string) (name slug fld lbl ph : string) (order : Z)
    (f : FilterDefinition) :
  In f (keyword_facet allText keywords render name slug fld lbl ph order) ->
  field f = fld /\
  exists opts, options f = Some opts /\ (1 < List.length opts)%nat.
Proof.
  unfold keyword_facet.
  destruct (1 <? List.length (extractKeywords allText keywords))%nat eqn:E;
    [|intros []].
  intros [<-|[]]. split; [reflexivity|]. eexists. split; [reflexivity|].
  rewrite sort_length, length_map. now apply Nat.ltb_lt.
Qed.

Lemma specific_not_location (slug : string) (l : list Ad) (f : FilterDefinition) :
  In f (generateCategorySpecificFilters slug l) ->
  is_location_facet f = false.
Proof.
  unfold generateCategorySpecificFilters, is_location_facet. intros H.
  repeat (apply in_app_or in H as [H|H]);
    repeat match type of H with
           | In _ (if ?b then _ else _) => destruct b
           | In _ (_ ++ _)%list => apply in_app_or in H as [H|H]
           | In _ [] => destruct H
           end;
    apply keyword_facet_field in H as [-> _]; reflexivity.
Qed.

Lemma price_not_location (slug : string) (l : list Ad) (f : FilterDefinition) :
  In f (price_facets slug l) -> is_location_facet f = false.
Proof.
  unfold price_facets. destruct (positive_prices l) as [|p ps]; [intros []|].
  destruct (_ <? _)%Z; [|intros []].
  intros [<-|[<-|[]]]; reflexivity.
Qed.

Lemma distinct_locations_In (l : list Ad) (x : string) :
  In x (distinct_locations l) <-> In x (map location l) /\ x <> "".
Proof.
  unfold distinct_locations.
  rewrite dedupe_In, filter_In, negb_true_iff, String.eqb_neq. reflexivity.
Qed.

Lemma location_facet_cases (slug : string) (l : list Ad) :
  (location_facet slug l = [] /\ ~ two_locations (map location l)) \/
  (exists opts,
     location_facet slug l =
       [select_filter "dynamic-location" slug "location" "Locatie" opts
          "Selecteer locatie" 1] /\
     two_locations (map location l) /\
     NoDup opts /\ Sorted string_le opts /\
     (forall x, In x opts <-> In x (map location l) /\ x <> "")).
Proof.
  unfold location_facet.
  pose proof (two_distinct_iff _ (dedupe_NoDup
    (filter (fun loc => negb (String.eqb loc "")) (map location l)))) as H2.
  fold (distinct_locations l) in H2.
  assert (Htwo : (1 < List.length (distinct_locations l))%nat <->
                 two_locations (map location l)).
  { rewrite H2. unfold two_locations. split.
    - intros (a & b & Ha & Hb & Hne).
      apply distinct_locations_In in Ha, Hb. exists a, b. tauto.
    - intros (a & b & Ha & Hb & Hae & Hbe & Hne).
      exists a, b. rewrite !distinct_locations_In. tauto. }
  destruct (Nat.ltb_spec 1 (List.length (distinct_locations l))) as [Hlt|Hge].
  - right. eexists. split; [reflexivity|]. split; [now apply Htwo|].
    split; [|split].
    + apply (Permutation_NoDup (Permutation_sym (sort_perm _ _))).
      apply dedupe_NoDup.
    + apply sort_strings_sorted.
    + intros x. rewrite <- distinct_locations_In. split; intros Hx.
      * exact (Permutation_in _ (sort_perm _ _) Hx).
      * exact (Permutation_in _ (Permutation_sym (sort_perm _ _)) Hx).
  - left. split; [reflexivity|]. intros Ht. apply Htwo in Ht. lia.
Qed.

Lemma filter_location_facets (slug : string) (l : list Ad) :
  filter is_location_facet
    (location_facet slug l ++ price_facets slug l ++
     generateCategorySpecificFilters slug l)%list
  = location_facet slug l.
Proof.
  rewrite filter_app.
  assert (E : forall fs, (forall f, In f fs -> is_location_facet f = false) ->
                         filter is_location_facet fs = []).
  { induction fs as [|f fs IH]; intros H; simpl; [reflexivity|].
    rewrite (H f (or_introl eq_refl)). apply IH. intros g Hg. apply H.
    now right. }
  rewrite (E (price_facets slug l ++ generateCategorySpecificFilters slug l)%list).
  - rewrite app_nil_r. unfold location_facet.
    destruct (1 <? _)%nat; reflexivity.
  - intros f Hf. apply in_app_or in Hf as [Hf|Hf].
    + now apply (price_not_location slug l).
    + now apply (specific_not_location slug l).
Qed.

Lemma categoryAds_In (d : Database) (c : Category) (a : Ad) :
  In a (categoryAds d c) <-> approved_in d c a.
Proof.
  unfold categoryAds, approved_in. rewrite filter_In, andb_true_iff.
  assert (Hs : Status_eqb (status a) approved = true <-> status a = approved)
    by (destruct (status a); simpl; split; congruence).
  rewrite Hs. destruct (categoryId a) as [i|].
  - rewrite Z.eqb_eq. split; intros (H1 & H2 & H3); repeat split; auto;
      congruence.
  - split; intros (H1 & H2 & H3); discriminate.
Qed.

Lemma category_at_find (d : Database) (slug : string) (c : Category) :
  category_at d slug c ->
  find (fun c => String.eqb (cat_slug c) slug) (categories d) = Some c.
Proof.
  intros (Hin & Hs & Huniq).
  destruct (find _ (categories d)) as [c0|] eqn:F.
  - apply find_some in F as [Hin0 E]. apply String.eqb_eq in E.
    now rewrite (Huniq c0 Hin0 E).
  - apply (find_none _ _ F) in Hin. rewrite Hs, String.eqb_refl in Hin.
    discriminate.
Qed.

Lemma uncurated_getFilters (d : Database) (slug : string) :
  uncurated d slug ->
  getFilters (Some d) slug
    = FiltersJson (generateDynamicFilters (Some d) slug).
Proof.
  intros Hu. unfold getFilters, curated.
  replace (filter _ (filterDefinitions d)) with (@nil FilterDefinition);
    [reflexivity|].
  symmetry. unfold uncurated in Hu.
  induction (filterDefinitions d) as [|f fs IH]; [reflexivity|].
  cbn [filter].
  destruct (String.eqb_spec (Store.categorySlug f) slug) as [E|E]; cbn [andb].
  - rewrite (Hu f (or_introl eq_refl) E). apply IH.
    intros g Hg. apply Hu. now right.
  - apply IH. intros g Hg. apply Hu. now right.
Qed.

Lemma map_location_In (d : Database) (c : Category) (x : string) :
  In x (map location (categoryAds d c)) <->
  exists a, approved_in d c a /\ location a = x.
Proof.
  rewrite in_map_iff. split; intros (a & H1 & H2); exists a.
  - split; [now apply categoryAds_In | exact H1].
  - split; [exact H2 | now apply categoryAds_In].
Qed.

(** C8. For a category without active curated filter definitions the
    route answers with the synthesized list.  That list holds a location
    facet exactly when two approved ads of the category show two
    distinct non-empty locations; it never holds more than one, and its
    options are the non-empty locations of the approved ads of the
    category, each once, in ascending order.  So [Paramaribo] alone
    gives no location facet, and [Paramaribo] with [Nickerie] gives
    one. *)
Theorem location_facet_iff (d : Database) (slug : string) (c : Category) :
  category_at d slug c ->
  let fs := generateDynamicFilters (Some d) slug in
  (uncurated d slug -> getFilters (Some d) slug = FiltersJson fs) /\
  ((exists f, In f fs /\ field f = "location") <->
   (exists a b, approved_in d c a /\ approved_in d c b /\
                location a <> "" /\ location b <> "" /\
                location a <> location b)) /\
  (List.length (filter is_location_facet fs) <= 1)%nat /\
  (forall f, In f fs -> field f = "location" ->
     exists opts,
       options f = Some opts /\
       NoDup opts /\ Sorted string_le opts /\
       (forall x, In x opts <->
                  x <> "" /\ exists a, approved_in d c a /\ location a = x)).
Proof.
  intros Hc fs.
  split; [intros Hu; now apply uncurated_getFilters|].
  assert (Hfacet : forall f, In f fs /\ field f = "location" <->
                             In f (filter is_location_facet fs)).
  { intros f. rewrite filter_In. unfold is_location_facet.
    now rewrite String.eqb_eq. }
  set (l := categoryAds d c).
  assert (Htwo : two_locations (map location l) <->
                 exists a b, approved_in d c a /\ approved_in d c b /\
                             location a <> "" /\ location b <> "" /\
                             location a <> location b).
  { unfold two_locations, l. split.
    - intros (x & y & Hx & Hy & Hxe & Hye & Hne).
      apply map_location_In in Hx as (a & Ha & <-).
      apply map_location_In in Hy as (b & Hb & <-).
      now exists a, b.
    - intros (a & b & Ha & Hb & Hae & Hbe & Hne).
      exists (location a), (location b).
      repeat split; auto; apply map_location_In; eauto. }
  assert (Efs : filter is_location_facet fs = location_facet slug l).
  { unfold fs, generateDynamicFilters. rewrite (category_at_find _ _ _ Hc).
    fold l. destruct l as [|a0 l0] eqn:El.
    - reflexivity.
    - rewrite <- El. rewrite filter_location_facets. now rewrite El. }
  rewrite <- Htwo.
  destruct (location_facet_cases slug l)
    as [[E Hn]|(opts & E & Ht & Hnd & Hs & Hm)]; rewrite E in Efs.
  - split; [|split].
    + split; [|tauto]. intros (f & Hf). apply Hfacet in Hf.
      rewrite Efs in Hf. destruct Hf.
    + rewrite Efs. simpl. lia.
    + intros f Hin Hfld. exfalso.
      assert (Hf : In f (filter is_location_facet fs)) by (now apply Hfacet).
      rewrite Efs in Hf. destruct Hf.
  - split; [|split].
    + split; [intros _; exact Ht|]. intros _. eexists.
      apply Hfacet. rewrite Efs. left. reflexivity.
    + rewrite Efs. simpl. lia.
    + intros f Hin Hfld.
      assert (Hf : In f (filter is_location_facet fs)) by (now apply Hfacet).
      rewrite Efs in Hf. destruct Hf as [<-|[]].
      exists opts. repeat split; auto.
      * apply Hm in H. tauto.
      * apply Hm in H. apply map_location_In. tauto.
      * intros (Hx & Ha). apply Hm. split; [|exact Hx].
        now apply map_location_In.
Qed.

Lemma category_at_autos (l : list Ad) : category_at (db_with l) "autos" autos.
Proof.
  split; [now left|]. split; [reflexivity|]. now intros c' [<-|[]] _.
Qed.

Lemma location_facet_iff_witness :
  exists f,
    In f (generateDynamicFilters
            (Some (db_with [ad_in 1 "Paramaribo"; ad_in 2 "Nickerie"]))
            "autos") /\
    field f = "location".
Proof.
  apply (proj1 (proj2 (location_facet_iff _ "autos" autos
                         (category_at_autos _)))).
  exists (ad_in 1 "Paramaribo"), (ad_in 2 "Nickerie").
  repeat split; try discriminate; cbn; auto.
Defined.

Example location_facet_single_location :
  generateDynamicFilters
    (Some (db_with [ad_in 1 "Paramaribo"; ad_in 2 "Paramaribo"])) "autos"
  = [].
Proof. vm_compute. reflexivity. Qed.

Example location_facet_two_locations :
  generateDynamicFilters
    (Some (db_with [ad_in 1 "Paramaribo"; ad_in 2 "Nickerie"])) "autos"
  = [select_filter "dynamic-location" "autos" "location" "Locatie"
       ["Nickerie"; "Paramaribo"] "Selecteer locatie" 1].
Proof. vm_compute. reflexivity. Qed.

Lemma dynamic_options_two (d : Database) (slug : string)
    (f : FilterDefinition) (opts : list string) :
  In f (generateDynamicFilters (Some d) slug) ->
  options f = Some opts ->
  (1 < List.length opts)%nat.
Proof.
  unfold generateDynamicFilters.
  destruct (find _ (categories d)) as [category|]; [|intros []].
  destruct (categoryAds d category) as [|ad l] eqn:El; [intros []|].
  rewrite <- El. clear El. set (ca := categoryAds d category).
  intros Hin Ho. apply in_app_or in Hin as [Hin|Hin];
    [|apply in_app_or in Hin as [Hin|Hin]].
  - unfold location_facet in Hin.
    destruct (Nat.ltb_spec 1 (List.length (distinct_locations ca)));
      [|destruct Hin].
    destruct Hin as [<-|[]]. simpl in Ho. injection Ho as <-.
    now rewrite sort_length.
  - unfold price_facets in Hin.
    destruct (positive_prices ca); [destruct Hin|].
    destruct (_ <? _)%Z; [|destruct Hin].
    destruct Hin as [<-|[<-|[]]]; discriminate.
  - unfold generateCategorySpecificFilters in Hin.
    repeat (apply in_app_or in Hin as [Hin|Hin]);
      repeat match type of Hin with
             | In _ (if ?b then _ else _) => destruct b
             | In _ (_ ++ _)%list => apply in_app_or in Hin as [Hin|Hin]
             | In _ [] => destruct Hin
             end;
      apply keyword_facet_field in Hin as (_ & o & Eo & Hlen);
      congruence.
Qed.

(** With the single approved ad "Auto te koop", "BMW diesel automaat" the
    answer for [autos] is empty: no facet offers [Bmw], [Diesel] or
    [Automaat]. *)
Lemma single_bmw_ad_no_facets :
  getFilters (Some (db_with [bmw_ad])) "autos" = FiltersJson [] /\
  ~ offers (getFilters (Some (db_with [bmw_ad])) "autos") "merk" "Bmw".
Proof.
  split; [vm_compute; reflexivity|].
  intros (fs & f & opts & E & Hin & _).
  vm_compute in E. injection E as <-. destruct Hin.
Qed.

Lemma no_space_free (k : string) : no_space k = true -> space_free k.
Proof.
  unfold no_space, space_free. intros H pre post ->.
  induction pre as [|x pre IH]; cbn in H.
  - discriminate.
  - apply andb_true_iff in H as [_ H]. now apply IH.
Qed.

Lemma keyword_named (d : Database) (c : Category) (k : string) :
  keyword k ->
  let allText :=
    toLowerCase
      (join " " (map (fun ad => title ad ++ " " ++ description ad)
                     (categoryAds d c))) in
  includes allText (toLowerCase k) = true <-> names d c k.
Proof.
  intros (Hl & Hne & Hsp) allText. rewrite Hl, includes_iff.
  unfold allText, join. rewrite toLowerCase_concat.
  rewrite (occurs_in_concat k _ Hne (no_space_free k Hsp)).
  unfold names. split.
  - intros (l & Hin & Ho). rewrite map_map in Hin.
    apply in_map_iff in Hin as (a & <- & Ha).
    exists a. split; [now apply categoryAds_In | exact Ho].
  - intros (a & Ha & Ho).
    exists (toLowerCase (title a ++ " " ++ description a)).
    split; [|exact Ho]. rewrite map_map. apply in_map_iff.
    exists a. split; [reflexivity | now apply categoryAds_In].
Qed.

Lemma keyword_facet_offers (allText : string) (keywords : list string)
    (render : string -> string) (name slug fld lbl ph : string) (order : Z)
    (o : string) :
  (exists f opts,
     In f (keyword_facet allText keywords render name slug fld lbl ph order) /\
     options f = Some opts /\ In o opts) <->
  (exists k k',
     In k keywords /\ In k' keywords /\ k <> k' /\
     includes allText (toLowerCase k) = true /\
     includes allText (toLowerCase k') = true /\
     o = render k).
Proof.
  unfold keyword_facet, extractKeywords.
  set (hit := fun keyword => includes allText (toLowerCase keyword)).
  set (found := dedupe (filter hit keywords)).
  assert (Hfound : forall k, In k found <-> In k keywords /\ hit k = true).
  { intros k. unfold found. now rewrite dedupe_In, filter_In. }
  pose proof (two_distinct_iff found (dedupe_NoDup _)) as Htwo.
  destruct (Nat.ltb_spec 1 (List.length found)) as [Hlt|Hge].
  - split.
    + intros (f & opts & [<-|[]] & Ho & Hin). cbn in Ho. injection Ho as <-.
      apply (Permutation_in _ (sort_perm _ _)) in Hin.
      apply in_map_iff in Hin as (k & <- & Hk).
      apply Htwo in Hlt as (a & b & Ha & Hb & Hab).
      assert (Hex : exists k', In k' found /\ k <> k').
      { destruct (string_dec k a) as [->|Hka]; [now exists b|now exists a]. }
      destruct Hex as (k' & Hk' & Hne).
      apply Hfound in Hk as [Hk1 Hk2]. apply Hfound in Hk' as [Hk1' Hk2'].
      exists k, k'. repeat split; auto.
    + intros (k & k' & Hk & Hk' & Hne & Hh & Hh' & ->).
      eexists. eexists. split; [left; reflexivity|].
      split; [reflexivity|].
      apply (Permutation_in _ (Permutation_sym (sort_perm _ _))).
      apply in_map. apply Hfound. now split.
  - split.
    + intros (f & opts & [] & _).
    + intros (k & k' & Hk & Hk' & Hne & Hh & Hh' & _). exfalso.
      assert (Hl : (1 < List.length found)%nat).
      { apply Htwo. exists k, k'. repeat split; auto; apply Hfound; auto. }
      lia.
Qed.

Lemma table_of_In (keywords : list string) (render : string -> string)
    (table : list (string * string)) :
  table_of keywords render table ->
  (forall k, In k keywords -> In (k, render k) table /\ keyword k) /\
  (forall k o, In (k, o) table -> In k keywords /\ o = render k /\ keyword k).
Proof.
  intros [Hm Hf]. rewrite Forall_forall in Hf. split.
  - intros k Hk. rewrite <- Hm in Hk. apply in_map_iff in Hk as ([k0 o] & E & Hin).
    cbn in E. subst k0. destruct (Hf _ Hin) as [Ho Hkw]. cbn in Ho, Hkw.
    subst o. now split.
  - intros k o Hin. destruct (Hf _ Hin) as [Ho Hkw]. cbn in Ho, Hkw.
    split; [|now split]. rewrite <- Hm. apply in_map_iff. now exists (k, o).
Qed.

Lemma keyword_facet_one_of_two (d : Database) (c : Category)
    (keywords : list string) (render : string -> string)
    (table : list (string * string))
    (name slug fld lbl ph : string) (order : Z) (o : string) :
  table_of keywords render table ->
  let allText :=
    toLowerCase
      (join " " (map (fun ad => title ad ++ " " ++ description ad)
                     (categoryAds d c))) in
  (exists f opts,
     In f (keyword_facet allText keywords render name slug fld lbl ph order) /\
     options f = Some opts /\ In o opts) <->
  one_of_two d c table o.
Proof.
  intros Ht allText. destruct (table_of_In _ _ _ Ht) as [H1 H2].
  rewrite keyword_facet_offers. unfold one_of_two. split.
  - intros (k & k' & Hk & Hk' & Hne & Hh & Hh' & ->).
    destruct (H1 k Hk) as [Hin Hkw]. destruct (H1 k' Hk') as [Hin' Hkw'].
    exists k, k', (render k'). repeat split; auto.
    + now apply (keyword_named d c k Hkw).
    + now apply (keyword_named d c k' Hkw').
  - intros (k & k' & o' & Hin & Hin' & Hne & Hn & Hn').
    destruct (H2 k o Hin) as (Hk & -> & Hkw).
    destruct (H2 k' o' Hin') as (Hk' & _ & Hkw').
    exists k, k'. repeat split; auto.
    + now apply (keyword_named d c k Hkw).
    + now apply (keyword_named d c k' Hkw').
Qed.

Lemma autos_specific (l : list Ad) :
  generateCategorySpecificFilters "autos" l =
  let allText :=
    toLowerCase
      (join " " (map (fun ad => title ad ++ " " ++ description ad) l)) in
  (keyword_facet allText car_brands capitalizeFirst
     "dynamic-merk" "autos" "merk" "Merk" "Selecteer merk" 4 ++
   keyword_facet allText
     ["benzine"; "diesel"; "hybride"; "elektrisch"; "lpg"] capitalizeFirst
     "dynamic-brandstof" "autos" "brandstof" "Brandstof"
     "Selecteer brandstof" 5 ++
   keyword_facet allText
     ["handgeschakeld"; "automaat"; "handmatig"] capitalizeFirst
     "dynamic-transmissie" "autos" "transmissie" "Transmissie"
     "Selecteer transmissie" 6)%list.
Proof.
  unfold generateCategorySpecificFilters.
  change (String.eqb "autos" "autos" || includes "autos" "auto") with true.
  change (includes "autos" "telefoon" || includes "autos" "elektronica")
    with false.
  change (includes "autos" "kleding") with false.
  cbv iota zeta. now rewrite !app_nil_r.
Qed.

Lemma brand_table : table_of car_brands capitalizeFirst brand_options.
Proof.
  split; [reflexivity|].
  repeat (constructor; [repeat split; discriminate|]). constructor.
Qed.

Lemma fuel_table :
  table_of ["benzine"; "diesel"; "hybride"; "elektrisch"; "lpg"]
    capitalizeFirst fuel_options.
Proof.
  split; [reflexivity|].
  repeat (constructor; [repeat split; discriminate|]). constructor.
Qed.

Lemma transmission_table :
  table_of ["handgeschakeld"; "automaat"; "handmatig"]
    capitalizeFirst transmission_options.
Proof.
  split; [reflexivity|].
  repeat (constructor; [repeat split; discriminate|]). constructor.
Qed.

Lemma names_approved (d : Database) (c : Category) (k : string) :
  names d c k -> categoryAds d c <> [].
Proof.
  intros (a & Ha & _) E. apply categoryAds_In in Ha. rewrite E in Ha.
  destruct Ha.
Qed.

(** C7, as the code has it.  With that single ad the answer is the empty
    list.  In general, for the category [autos] without active curated
    filter definitions, the answer offers an option under [merk] exactly
    when the option stands for a brand keyword that some approved ad of
    the category names and the approved ads of the category name a
    second brand keyword as well; likewise under [brandstof] for the
    fuel keywords and under [transmissie] for the transmission
    keywords. *)
Theorem autos_facets_need_two_hits :
  getFilters (Some (db_with [bmw_ad])) "autos" = FiltersJson [] /\
  forall (d : Database) (c : Category),
    category_at d "autos" c -> uncurated d "autos" ->
    let r := getFilters (Some d) "autos" in
    (forall o, offers r "merk" o <-> one_of_two d c brand_options o) /\
    (forall o, offers r "brandstof" o <->
               one_of_two d c fuel_options o) /\
    (forall o, offers r "transmissie" o <->
               one_of_two d c transmission_options o).
Proof.
  split; [vm_compute; reflexivity|].
  intros d c Hc Hu r. unfold r. rewrite (uncurated_getFilters d _ Hu).
  unfold generateDynamicFilters. rewrite (category_at_find _ _ _ Hc).
  destruct (categoryAds d c) as [|a0 l0] eqn:El.
  { repeat split; try (intros (fs & f & opts & [= <-] & [] & _));
      intros (k & k' & o' & _ & _ & _ & Hn & _);
      now apply names_approved in Hn. }
  rewrite <- El. clear El a0 l0. set (l := categoryAds d c).
  rewrite autos_specific. cbv zeta.
  set (allText := toLowerCase (join " " (map _ l))).
  set (kb := keyword_facet allText car_brands _ _ _ _ _ _ _).
  set (kf := keyword_facet allText ["benzine"; _; _; _; _] _ _ _ _ _ _ _).
  set (kt := keyword_facet allText ["handgeschakeld"; _; _] _ _ _ _ _ _ _).
  assert (Hoff : forall fld o (kx : list FilterDefinition),
            (forall f, In f (location_facet "autos" l ++
                             price_facets "autos" l ++ kb ++ kf ++ kt)%list ->
                       field f = fld -> In f kx) ->
            (forall f, In f kx ->
                       field f = fld /\
                       In f (location_facet "autos" l ++
                             price_facets "autos" l ++ kb ++ kf ++ kt)%list) ->
            (offers (FiltersJson (location_facet "autos" l ++
                       price_facets "autos" l ++ kb ++ kf ++ kt)%list) fld o
             <-> exists f opts, In f kx /\ options f = Some opts /\ In o opts)).
  { intros fld o kx H1 H2. unfold offers. split.
    - intros (fs & f & opts & [= <-] & Hin & Hf & Ho & Hio).
      exists f, opts. repeat split; auto.
    - intros (f & opts & Hin & Ho & Hio). destruct (H2 f Hin) as [Hf Hin'].
      eexists. exists f, opts. repeat split; eauto. }
  assert (Hloc : forall f, In f (location_facet "autos" l) ->
                           field f = "location").
  { intros f Hin. unfold location_facet in Hin.
    destruct (1 <? _)%nat; [|destruct Hin]. now destruct Hin as [<-|[]]. }
  assert (Hpr : forall f, In f (price_facets "autos" l) ->
                          field f = "price_min" \/ field f = "price_max").
  { intros f Hin. unfold price_facets in Hin.
    destruct (positive_prices l); [destruct Hin|].
    destruct (_ <? _)%Z; [|destruct Hin].
    destruct Hin as [<-|[<-|[]]]; auto. }
  assert (Hkb : forall f, In f kb -> field f = "merk")
    by (intros f Hin; now apply keyword_facet_field in Hin).
  assert (Hkf : forall f, In f kf -> field f = "brandstof")
    by (intros f Hin; now apply keyword_facet_field in Hin).
  assert (Hkt : forall f, In f kt -> field f = "transmissie")
    by (intros f Hin; now apply keyword_facet_field in Hin).
  assert (Hsplit : forall f,
            In f (location_facet "autos" l ++ price_facets "autos" l ++
                  kb ++ kf ++ kt)%list <->
            In f (location_facet "autos" l) \/ In f (price_facets "autos" l) \/
            In f kb \/ In f kf \/ In f kt).
  { intros f. rewrite !in_app_iff. tauto. }
  split; [|split]; intros o.
  - rewrite (Hoff "merk" o kb).
    + apply (keyword_facet_one_of_two d c _ _ _ _ _ _ _ _ _ o brand_table).
    + intros f Hin Hf. apply Hsplit in Hin as [H|[H|[H|[H|H]]]]; auto.
      * apply Hloc in H. congruence.
      * apply Hpr in H as [H|H]; congruence.
      * apply Hkf in H. congruence.
      * apply Hkt in H. congruence.
    + intros f Hin. split; [now apply Hkb|]. apply Hsplit. tauto.
  - rewrite (Hoff "brandstof" o kf).
    + apply (keyword_facet_one_of_two d c _ _ _ _ _ _ _ _ _ o fuel_table).
    + intros f Hin Hf. apply Hsplit in Hin as [H|[H|[H|[H|H]]]]; auto.
      * apply Hloc in H. congruence.
      * apply Hpr in H as [H|H]; congruence.
      * apply Hkb in H. congruence.
      * apply Hkt in H. congruence.
    + intros f Hin. split; [now apply Hkf|]. apply Hsplit. tauto.
  - rewrite (Hoff "transmissie" o kt).
    + apply (keyword_facet_one_of_two d c _ _ _ _ _ _ _ _ _ o
               transmission_table).
    + intros f Hin Hf. apply Hsplit in Hin as [H|[H|[H|[H|H]]]]; auto.
      * apply Hloc in H. congruence.
      * apply Hpr in H as [H|H]; congruence.
      * apply Hkb in H. congruence.
      * apply Hkf in H. congruence.
    + intros f Hin. split; [now apply Hkt|]. apply Hsplit. tauto.
Qed.


(** Once a second approved ad names another brand, fuel and
    transmission of the tables, the answer offers [Bmw], [Diesel] and
    [Automaat]. *)
Lemma autos_facets_need_two_hits_witness :
  let r := getFilters (Some (db_with [bmw_ad; toyota_ad])) "autos" in
  offers r "merk" "Bmw" /\
  offers r "brandstof" "Diesel" /\
  offers r "transmissie" "Automaat".
Proof.
  assert (Hu : uncurated (db_with [bmw_ad; toyota_ad]) "autos")
    by (intros f []).
  pose proof (proj2 autos_facets_need_two_hits _ autos
                (category_at_autos [bmw_ad; toyota_ad]) Hu)
    as (Hm & Hb & Ht).
  assert (Hn : forall a k,
            In a [bmw_ad; toyota_ad] ->
            includes (toLowerCase (title a ++ " " ++ description a)) k = true ->
            names (db_with [bmw_ad; toyota_ad]) autos k).
  { intros a k Hin Hk. exists a. split.
    - split; [exact Hin|].
      destruct Hin as [<-|[<-|[]]]; split; reflexivity.
    - now apply includes_iff. }
  cbv zeta. split; [|split].
  - apply Hm. exists "bmw", "toyota", "Toyota".
    split; [cbn; tauto|]. split; [cbn; tauto|]. split; [discriminate|].
    split; [apply (Hn bmw_ad) | apply (Hn toyota_ad)]; cbn; auto.
  - apply Hb. exists "diesel", "benzine", "Benzine".
    split; [cbn; tauto|]. split; [cbn; tauto|]. split; [discriminate|].
    split; [apply (Hn bmw_ad) | apply (Hn toyota_ad)]; cbn; auto.
  - apply Ht. exists "automaat", "handgeschakeld", "Handgeschakeld".
    split; [cbn; tauto|]. split; [cbn; tauto|]. split; [discriminate|].
    split; [apply (Hn bmw_ad) | apply (Hn toyota_ad)]; cbn; auto.
Defined.

End FilterFacts.

(* ================================================================== *)
(** * Part III: further properties of the code                         *)
(* ================================================================== *)

(** ** Reading, counting and clearing the blocked-ad log *)
Section LoggerQueryFacts.
Import Js Exn Logger LoggerQueries.

Lemma firstn_skipn_sorted (n : nat) (l : list BlockedAdEntry) :
  StronglySorted (descending timestamp) l ->
  forall k r, In k (firstn n l) -> In r (skipn n l) ->
              (timestamp r <= timestamp k)%Z.
Proof.
  revert l. induction n as [|n IH]; intros l Hs k r Hk Hr.
  - destruct Hk.
  - destruct l as [|x l]; [destruct Hk|]. simpl in Hk, Hr.
    apply StronglySorted_inv in Hs as [Hs Hx].
    destruct Hk as [<-|Hk].
    + rewrite Forall_forall in Hx. apply Hx.
      rewrite <- (firstn_skipn n l). apply in_or_app. now right.
    + now apply (IH l).
Qed.

Lemma value_sort_entries (es : list BlockedAdEntry) :
  value_sort (JArray (map Entry es))
  = Ok (map Entry (sort newest_entry_first es)).
Proof.
  unfold value_sort, array_sort_newest_first. rewrite length_map.
  destruct (Nat.leb_spec (List.length es) 1) as [Hle|Hgt].
  - destruct es as [|a [|b es]]; simpl in *; try lia; reflexivity.
  - unfold sort_newest_first. now rewrite no_null_entries, sort_entries.
Qed.

Lemma getBlockedAdLogs_holds
    (io : Io) (limit : Z) (w : World) (es : list BlockedAdEntry) :
  read_fails io = false ->
  holds w es ->
  (0 <= limit)%Z ->
  getBlockedAdLogs io limit w
  = (map Entry (firstn (Z.to_nat limit) (sort newest_entry_first es)), []).
Proof.
  intros Hr Hh Hl.
  unfold getBlockedAdLogs. rewrite (Hh io Hr), value_sort_entries.
  unfold slice_to. destruct (Z.ltb_spec limit 0); [lia|].
  now rewrite firstn_map.
Qed.

(** X1. On a log file holding the entries [es], [getBlockedAdLogs(limit)]
    with a non-negative limit returns the [limit] newest entries (all of
    them when there are fewer), newest first: nothing returned is older
    than an entry left out. *)
Theorem getBlockedAdLogs_newest
    (io : Io) (limit : Z) (w : World) (es : list BlockedAdEntry) :
  read_fails io = false ->
  holds w es ->
  (0 <= limit)%Z ->
  exists kept rest,
    getBlockedAdLogs io limit w = (map Entry kept, []) /\
    Permutation (kept ++ rest) es /\
    List.length kept = Nat.min (Z.to_nat limit) (List.length es) /\
    StronglySorted (descending timestamp) kept /\
    (forall k r, In k kept -> In r rest ->
                 (timestamp r <= timestamp k)%Z).
Proof.
  intros Hr Hh Hl.
  set (sorted := sort newest_entry_first es).
  assert (Hs : StronglySorted (descending timestamp) sorted)
    by (apply sort_descending; reflexivity).
  exists (firstn (Z.to_nat limit) sorted), (skipn (Z.to_nat limit) sorted).
  split; [|split; [|split; [|split]]].
  - now apply getBlockedAdLogs_holds.
  - rewrite firstn_skipn. apply sort_perm.
  - rewrite length_firstn. unfold sorted. now rewrite sort_length.
  - rewrite <- (firstn_skipn (Z.to_nat limit) sorted) in Hs.
    clear - Hs. induction (firstn (Z.to_nat limit) sorted) as [|x l IH];
      simpl in *; [constructor|].
    apply StronglySorted_inv in Hs as [Hs Hx]. constructor; [now apply IH|].
    apply Forall_app in Hx. tauto.
  - now apply firstn_skipn_sorted.
Qed.

Lemma getBlockedAdLogs_newest_witness :
  exists kept rest,
    getBlockedAdLogs (call_io (nth_call 0)) 100
      {| LOG_BLOCKED_ADS := None;
         disk := Value (JArray (map Entry
                   [entry_of (nth_call 1); entry_of (nth_call 2)]));
         console := [] |}
    = (map Entry kept, []) /\
    Permutation (kept ++ rest) [entry_of (nth_call 1); entry_of (nth_call 2)] /\
    List.length kept = 2%nat.
Proof.
  destruct (getBlockedAdLogs_newest (call_io (nth_call 0)) 100
              {| LOG_BLOCKED_ADS := None;
                 disk := Value (JArray (map Entry
                           [entry_of (nth_call 1); entry_of (nth_call 2)]));
                 console := [] |}
              [entry_of (nth_call 1); entry_of (nth_call 2)])
    as (kept & rest & H1 & H2 & H3 & _).
  - reflexivity.
  - apply written_holds. reflexivity.
  - lia.
  - exists kept, rest. repeat split; assumption.
Defined.

(** X2. [getBlockedAdLogs] answers with no entries when the file cannot
    be read or parsed, and also when it parses to something that is not
    an array, in which case the failure is reported on the console; a
    negative limit leaves out that many entries from the old end. *)
Theorem getBlockedAdLogs_edges (io : Io) (limit : Z) (w : World) :
  (read_fails io = true \/ disk w = Missing \/ disk w = Corrupt ->
   getBlockedAdLogs io limit w = ([], [])) /\
  (read_fails io = false ->
   (disk w = Value JOther \/ exists n, disk w = Value (JString (S n))) ->
   getBlockedAdLogs io limit w = ([], [ErrorFetching])) /\
  (forall es,
     read_fails io = false -> holds w es -> (limit < 0)%Z ->
     getBlockedAdLogs io limit w
     = (map Entry (firstn (List.length es - Z.to_nat (- limit))
                          (sort newest_entry_first es)), [])).
Proof.
  split; [|split].
  - intros H.
    assert (E : readExistingLogs io w = JArray []).
    { unfold readExistingLogs, readFile.
      destruct H as [H|[H|H]]; [now rewrite H | |];
        destruct (read_fails io); try reflexivity; now rewrite H. }
    unfold getBlockedAdLogs. rewrite E. simpl. unfold slice_to.
    destruct (limit <? 0)%Z; now rewrite firstn_nil.
  - intros Hr H. unfold getBlockedAdLogs, readExistingLogs, readFile.
    rewrite Hr. destruct H as [H|[n H]]; rewrite H; reflexivity.
  - intros es Hr Hh Hl. unfold getBlockedAdLogs.
    rewrite (Hh io Hr), value_sort_entries. unfold slice_to.
    destruct (Z.ltb_spec limit 0); [|lia].
    rewrite length_map, sort_length, firstn_map. do 3 f_equal. lia.
Qed.

Lemma count_newer_entries (yesterday : Z) (es : list BlockedAdEntry) :
  count_newer yesterday (map Entry es)
  = Ok (List.length (recent yesterday es)).
Proof.
  induction es as [|e es IH]; simpl; [reflexivity|].
  rewrite IH. simpl. now destruct (yesterday <? timestamp e)%Z.
Qed.

Lemma getBlockedAdsCount24h_holds
    (io : Io) (now : Z) (w : World) (es : list BlockedAdEntry) :
  read_fails io = false -> holds w es ->
  getBlockedAdsCount24h io now w
  = (List.length (recent (now - DAY_MS) es), []).
Proof.
  intros Hr Hh. unfold getBlockedAdsCount24h.
  now rewrite (Hh io Hr), count_newer_entries.
Qed.

(** X3. An entry that [logBlockedAd] has just stored is returned by
    [getBlockedAdLogs] when the limit covers the log, and is counted by
    [getBlockedAdsCount24h] for the next 24 hours; the count never
    exceeds the number of entries. *)
Theorem logged_entry_is_listed_and_counted
    (c : Call) (w : World) (es : list BlockedAdEntry)
    (io : Io) (limit later : Z) :
  isLoggingEnabled w = true ->
  io_succeeds (call_io c) ->
  holds w es ->
  (List.length es < MAX_LOG_ENTRIES)%nat ->
  read_fails io = false ->
  (Z.of_nat (List.length es) < limit)%Z ->
  (later - DAY_MS < now (call_io c))%Z ->
  exists w',
    logCall c w = Ok w' /\
    In (Entry (entry_of c)) (fst (getBlockedAdLogs io limit w')) /\
    (1 <= fst (getBlockedAdsCount24h io later w') <= S (List.length es))%nat.
Proof.
  intros En Hio Hh Hlen Hr Hlim Hlater.
  destruct (logCall_step c w es En Hio Hh) as (w' & E & _ & D).
  replace (List.length (entry_of c :: es) <=? MAX_LOG_ENTRIES)%nat
    with true in D by (symmetry; apply Nat.leb_le; simpl; lia).
  pose proof (written_holds _ _ D) as Hh'.
  exists w'. split; [exact E|]. split.
  - rewrite (getBlockedAdLogs_holds io limit w' _ Hr Hh') by lia.
    cbn [fst]. apply in_map. rewrite firstn_all2.
    + apply (Permutation_in _ (Permutation_sym (sort_perm _ _))). now left.
    + rewrite sort_length. simpl. lia.
  - rewrite (getBlockedAdsCount24h_holds io later w' _ Hr Hh').
    cbn [fst]. unfold recent. cbn [filter].
    replace (later - DAY_MS <? timestamp (entry_of c))%Z with true
      by (symmetry; apply Z.ltb_lt; exact Hlater).
    simpl. pose proof (filter_length_le
      (fun e => (later - DAY_MS <? timestamp e)%Z) es). lia.
Qed.

Lemma logged_entry_is_listed_and_counted_witness :
  exists w',
    logCall (nth_call 5) fresh_world = Ok w' /\
    In (Entry (entry_of (nth_call 5)))
       (fst (getBlockedAdLogs (call_io (nth_call 6)) 100 w')) /\
    (1 <= fst (getBlockedAdsCount24h (call_io (nth_call 6)) 1000 w') <= 1)%nat.
Proof.
  apply (logged_entry_is_listed_and_counted (nth_call 5) fresh_world []
           (call_io (nth_call 6)) 100 1000).
  - reflexivity.
  - split; reflexivity.
  - apply reads_as_empty_holds. left. reflexivity.
  - unfold MAX_LOG_ENTRIES. simpl. lia.
  - reflexivity.
  - simpl. lia.
  - vm_compute. reflexivity.
Defined.

(** X4. [clearBlockedAdLogs] empties the log whatever the logging flag
    says: when its write succeeds the log reads as empty and counts
    zero, and the next entry logged is the only one in the file. *)
Theorem clear_then_log
    (io : Io) (w : World) (io' : Io) (limit later : Z) (c : Call) :
  write_fails io = None ->
  read_fails io' = false ->
  io_succeeds (call_io c) ->
  let w1 := fst (clearBlockedAdLogs io w) in
  LOG_BLOCKED_ADS w1 = LOG_BLOCKED_ADS w /\
  getBlockedAdLogs io' limit w1 = ([], []) /\
  getBlockedAdsCount24h io' later w1 = (0%nat, []) /\
  (isLoggingEnabled w = true ->
   exists w2, logCall c w1 = Ok w2 /\
              disk w2 = Value (JArray [Entry (entry_of c)])).
Proof.
  intros Hw Hr Hc w1.
  assert (D : disk w1 = Value (JArray (map Entry []))).
  { unfold w1, clearBlockedAdLogs, writeLogsToFile. now rewrite Hw. }
  pose proof (written_holds _ _ D) as Hh.
  assert (Hflag : LOG_BLOCKED_ADS w1 = LOG_BLOCKED_ADS w).
  { unfold w1, clearBlockedAdLogs, writeLogsToFile. now rewrite Hw. }
  split; [exact Hflag|]. split; [|split].
  - unfold getBlockedAdLogs. rewrite (Hh io' Hr). simpl. unfold slice_to.
    destruct (limit <? 0)%Z; now rewrite firstn_nil.
  - now rewrite (getBlockedAdsCount24h_holds io' later w1 [] Hr Hh).
  - intros En.
    assert (En1 : isLoggingEnabled w1 = true).
    { unfold isLoggingEnabled in *. now rewrite Hflag. }
    destruct (logCall_step c w1 [] En1 Hc Hh) as (w2 & E & _ & D2).
    exists w2. split; [exact E | exact D2].
Qed.

Lemma clear_then_log_witness :
  getBlockedAdLogs (call_io (nth_call 1)) 100
    (fst (clearBlockedAdLogs (call_io (nth_call 0)) fresh_world)) = ([], []).
Proof.
  refine (proj1 (proj2 (clear_then_log (call_io (nth_call 0)) fresh_world
            (call_io (nth_call 1)) 100 0 (nth_call 2) _ _ _)));
    try reflexivity. split; reflexivity.
Defined.

(** X5. Whatever the log file held before, a call of [logBlockedAd]
    with logging enabled and a working write either gives up (the file
    is left as it was and the failure is reported) or leaves an array of
    at most [MAX_LOG_ENTRIES] items on disk. *)
Theorem log_file_capped
    (io : Io) (ip title description : string) (words : list string)
    (agent : option string) (w : World) :
  isLoggingEnabled w = true ->
  write_fails io = None ->
  exists w',
    logBlockedAd io ip title description words agent w = Ok w' /\
    ((disk w' = disk w /\ In ErrorLogging (console w')) \/
     exists items,
       disk w' = Value (JArray items) /\
       (1 <= List.length items <= MAX_LOG_ENTRIES)%nat).
Proof.
  intros En Hw. unfold logBlockedAd, logBlockedAd_try. rewrite En.
  cbn [negb]. cbv iota.
  destruct (spread (readExistingLogs io w)) as [rest|]; unfold bind.
  - unfold limitLogEntries.
    destruct (Nat.leb_spec (List.length (Entry (newEntry io ip title
                description words agent) :: rest)) MAX_LOG_ENTRIES)
      as [Hle|Hgt].
    + eexists. split; [reflexivity|]. right. eexists.
      unfold writeLogsToFile. rewrite Hw. split; [reflexivity|].
      cbn [List.length] in *. lia.
    + unfold sort_newest_first.
      destruct (existsb is_null _).
      * eexists. split; [reflexivity|]. left. split; [reflexivity|].
        cbn [console print]. apply in_or_app. right. now left.
      * eexists. split; [reflexivity|]. right. eexists.
        unfold writeLogsToFile. rewrite Hw. split; [reflexivity|].
        rewrite length_firstn, sort_length. unfold MAX_LOG_ENTRIES in *.
        cbn [List.length] in *. lia.
  - eexists. split; [reflexivity|]. left. split; [reflexivity|].
    cbn [console print]. apply in_or_app. right. now left.
Qed.

Lemma log_file_capped_witness :
  exists w',
    logBlockedAd (call_io (nth_call 0)) "10.0.0.7" "Gratis gokken" ""
      ["gokken"] None fresh_world = Ok w' /\
    exists items, disk w' = Value (JArray items) /\
                  (1 <= List.length items <= MAX_LOG_ENTRIES)%nat.
Proof.
  destruct (log_file_capped (call_io (nth_call 0)) "10.0.0.7"
              "Gratis gokken" "" ["gokken"] None fresh_world eq_refl eq_refl)
    as (w' & E & [[D _]|H]).
  - exfalso. vm_compute in E. injection E as <-. discriminate D.
  - exists w'. split; assumption.
Defined.

Lemma substring_prefix (n : nat) (s : string) :
  String.length (substring 0 n s) = Nat.min n (String.length s) /\
  prefix (substring 0 n s) s = true.
Proof.
  revert s. induction n as [|n IH]; intros s.
  - destruct s; simpl; auto.
  - destruct s as [|c s]; simpl; [auto|].
    destruct (IH s) as [Hl Hp]. rewrite Hl, Hp.
    destruct (ascii_dec c c); [auto | congruence].
Qed.

(** X6. A log entry keeps at most the first 200 code units of the title
    and of the user agent and the first 500 of the description, as a
    prefix of the text submitted; a shorter text is kept whole. *)
Theorem log_entry_truncated
    (io : Io) (ip t d : string) (words : list string) (agent : string) :
  let e := newEntry io ip t d words (Some agent) in
  String.length (title e) = Nat.min 200 (String.length t) /\
  prefix (title e) t = true /\
  String.length (description e) = Nat.min 500 (String.length d) /\
  prefix (description e) d = true /\
  (exists a, userAgent e = Some a /\
             String.length a = Nat.min 200 (String.length agent) /\
             prefix a agent = true) /\
  ((String.length t <= 200)%nat -> title e = t) /\
  blockedWords e = words /\ ipAddress e = ip.
Proof.
  simpl.
  destruct (substring_prefix 200 t) as [Ht Pt].
  destruct (substring_prefix 500 d) as [Hd Pd].
  destruct (substring_prefix 200 agent) as [Ha Pa].
  repeat split; auto.
  - eexists. repeat split; eauto.
  - intros Hle.
    assert (Hlen : String.length (substring 0 200 t) = String.length t)
      by (rewrite Ht; lia).
    clear - Pt Hlen. revert Pt Hlen.
    generalize (substring 0 200 t) as p. intros p. revert t.
    induction p as [|c p IH]; intros [|c' t]; simpl; try discriminate; auto.
    destruct (ascii_dec c c') as [->|]; [|discriminate].
    intros Pt [= Hl]. f_equal. now apply IH.
Qed.

End LoggerQueryFacts.

(** ** Maintaining the blacklist *)
Section BlacklistMoreFacts.
Import Js RegExp WholeWord Blacklist Tokens.

Lemma remove_first_app (lw : string) (bl rest : list string) :
  ~ In lw bl ->
  remove_first lw (bl ++ lw :: rest)%list = (bl ++ rest)%list.
Proof.
  induction bl as [|x bl IH]; simpl; intros Hn.
  - now rewrite String.eqb_refl.
  - destruct (String.eqb_spec x lw) as [->|_]; [tauto|].
    f_equal. apply IH. tauto.
Qed.

Lemma remove_first_perm (lw : string) (l : list string) :
  In lw l -> Permutation (lw :: remove_first lw l) l.
Proof.
  intros Hin. destruct (remove_first_split lw l Hin) as (l1 & l2 & -> & _ & ->).
  apply Permutation_middle.
Qed.

(** X7. Removing the words just added gives back the same entries, in
    some order.  It gives back the very blacklist when none of the
    words, lower-cased, was an entry before (a condition that is
    sufficient, not necessary).  A word that was an entry before loses
    its first occurrence and keeps the one added at the end. *)
Theorem add_then_remove (bl ws : list string) :
  Permutation (removeFromBlacklist (addToBlacklist bl ws) ws) bl /\
  (Forall (fun w => ~ In (toLowerCase w) bl) ws ->
   removeFromBlacklist (addToBlacklist bl ws) ws = bl) /\
  (forall w, In (toLowerCase w) bl ->
     exists l1 l2,
       bl = (l1 ++ toLowerCase w :: l2)%list /\
       ~ In (toLowerCase w) l1 /\
       removeFromBlacklist (addToBlacklist bl [w]) [w]
         = (l1 ++ l2 ++ [toLowerCase w])%list).
Proof.
  unfold removeFromBlacklist, addToBlacklist. split; [|split].
  - assert (H : forall l, Permutation l (map toLowerCase ws ++ bl)%list ->
      Permutation
        (fold_left (fun acc word => remove_first (toLowerCase word) acc) ws l)
        bl).
    { induction ws as [|w ws IH]; simpl; intros l Hl; [exact Hl|].
      apply IH. apply Permutation_cons_inv with (a := toLowerCase w).
      rewrite remove_first_perm; [exact Hl|].
      apply (Permutation_in _ (Permutation_sym Hl)). now left. }
    apply H, Permutation_app_comm.
  - revert bl. induction ws as [|w ws IH]; intros bl Hf; simpl.
    + apply app_nil_r.
    + apply Forall_cons_iff in Hf as [Hw Hf].
      rewrite remove_first_app by exact Hw. now apply IH.
  - intros w Hin.
    destruct (remove_first_split _ _ Hin) as (l1 & l2 & E & Hn & _).
    exists l1, l2. split; [exact E|]. split; [exact Hn|].
    cbn [map fold_left]. rewrite E, <- app_assoc. cbn [app].
    now rewrite (remove_first_app _ l1 (l2 ++ [toLowerCase w]) Hn).
Qed.

Lemma add_then_remove_witness :
  removeFromBlacklist (addToBlacklist blacklistWords ["Casino"; "LOTTO"])
    ["Casino"; "LOTTO"] = blacklistWords.
Proof.
  apply (proj1 (proj2 (add_then_remove blacklistWords ["Casino"; "LOTTO"]))).
  repeat constructor; vm_compute; intuition discriminate.
Defined.

Lemma remove_first_NoDup (lw : string) (bl : list string) :
  NoDup bl ->
  remove_first lw bl = filter (fun x => negb (String.eqb x lw)) bl.
Proof.
  induction 1 as [|x bl Hx Hnd IH]; simpl; [reflexivity|].
  destruct (String.eqb_spec x lw) as [->|Hne]; simpl.
  - symmetry. apply forallb_filter_id. apply forallb_forall.
    intros y Hy. apply negb_true_iff, String.eqb_neq. congruence.
  - now rewrite IH.
Qed.

Lemma filter_swap {A : Type} (f g : A -> bool) (l : list A) :
  filter f (filter g l) = filter g (filter f l).
Proof.
  induction l as [|x l IH]; simpl; [reflexivity|].
  destruct (g x) eqn:Eg, (f x) eqn:Ef; simpl;
    rewrite ?Eg, ?Ef; now rewrite IH.
Qed.

(** X8. After a word is removed from a duplicate-free blacklist it is no
    longer an entry, in whatever letter case it was given, and
    [checkAdContent] lists what it listed before, that word left out. *)
Theorem removed_word_no_longer_blocks
    (bl : list string) (w title description : string) :
  Forall plain_entry bl ->
  NoDup bl ->
  let lw := toLowerCase w in
  let bl' := removeFromBlacklist bl [w] in
  ~ In lw bl' /\
  (forall x, x <> lw -> (In x bl' <-> In x bl)) /\
  exists r r',
    checkAdContent bl title description = Some (Exn.Ok r) /\
    checkAdContent bl' title description = Some (Exn.Ok r') /\
    blockedWords r' =
      filter (fun x => negb (String.eqb x lw)) (blockedWords r).
Proof.
  intros Hp Hnd lw bl'.
  assert (E : bl' = filter (fun x => negb (String.eqb x lw)) bl).
  { unfold bl', removeFromBlacklist. simpl. now apply remove_first_NoDup. }
  assert (Hp' : Forall plain_entry bl').
  { rewrite E. rewrite Forall_forall in *. intros x Hx.
    apply filter_In in Hx. now apply Hp. }
  split; [|split].
  - rewrite E, filter_In, negb_true_iff, String.eqb_neq. tauto.
  - intros x Hx. rewrite E, filter_In, negb_true_iff, String.eqb_neq. tauto.
  - destruct (checkAdContent_filter bl title description Hp)
      as (r & Hr & Hbw & _).
    destruct (checkAdContent_filter bl' title description Hp')
      as (r' & Hr' & Hbw' & _).
    exists r, r'. split; [exact Hr|]. split; [exact Hr'|].
    rewrite Hbw', Hbw, E. apply filter_swap.
Qed.

Lemma removed_word_no_longer_blocks_witness :
  ~ In "gokken" (removeFromBlacklist blacklistWords ["GOKKEN"]).
Proof.
  exact (proj1 (removed_word_no_longer_blocks blacklistWords "GOKKEN"
                  "Gratis gokken" "" blacklistWords_plain blacklistWords_NoDup)).
Defined.

Lemma isWordChar_lower (c : ascii) :
  isWordChar (lower_char c) = isWordChar c.
Proof. destruct c as [[] [] [] [] [] [] [] []]; reflexivity. Qed.

Lemma lower_eq_word (mid w : string) :
  toLowerCase mid = toLowerCase w ->
  w <> "" ->
  forallb isWordChar (list_ascii_of_string w) = true ->
  forall prev post,
    is_word (first_char (mid ++ post)) = true /\
    is_word (last_char prev mid) = true.
Proof.
  revert w. induction mid as [|c mid IH]; intros [|c' w] E Hne Hw prev post;
    simpl in *; try discriminate; try congruence.
  injection E as Ec E. apply andb_true_iff in Hw as [Hc Hw].
  split.
  - now rewrite <- isWordChar_lower, Ec, isWordChar_lower.
  - destruct w as [|c'' w].
    + destruct mid; [|discriminate]. simpl.
      now rewrite <- isWordChar_lower, Ec, isWordChar_lower.
    + apply (IH (String c'' w) E); [discriminate | exact Hw | exact ""].
Qed.

(** X9. A blacklist entry made of word characters never matches inside a
    longer run of word characters: whenever [checkAdContent] lists such
    an entry, the text holds it, up to letter case, as a token whose
    neighbours on both sides are not word characters. *)
Theorem blocked_word_is_a_token
    (bl : list string) (title description : string)
    (r : ContentCheckResult) (w : string) :
  Forall plain_entry bl ->
  checkAdContent bl title description = Some (Exn.Ok r) ->
  In w (blockedWords r) ->
  word_like w ->
  exists mid,
    toLowerCase mid = toLowerCase w /\
    token_in mid (toLowerCase (title ++ " " ++ description)).
Proof.
  intros Hp Hr Hin [Hne Hw].
  destruct (checkAdContent_filter bl title description Hp)
    as (r0 & Hr0 & Hbw & _).
  rewrite Hr in Hr0. injection Hr0 as <-.
  rewrite Hbw in Hin. apply filter_In in Hin as [Hbl Hm].
  rewrite Forall_forall in Hp.
  apply (entry_matches_iff _ _ (Hp w Hbl)) in Hm.
  destruct Hm as (pre & mid & post & E & Hmid & Hb1 & Hb2).
  destruct (lower_eq_word mid w Hmid Hne Hw (last_char None pre) post)
    as [Hf Hl].
  exists mid. split; [exact Hmid|]. exists pre, post.
  split; [exact E|]. unfold boundary in *.
  rewrite last_char_app in Hb2. rewrite Hf in Hb1. rewrite Hl in Hb2.
  split.
  - now destruct (is_word (last_char None pre)).
  - now destruct (is_word (first_char post)).
Qed.

Lemma blocked_word_is_a_token_witness :
  exists mid,
    toLowerCase mid = toLowerCase "nep" /\
    token_in mid (toLowerCase ("Tas, NEP leer" ++ " " ++ "")).
Proof.
  destruct (checkAdContent_filter blacklistWords "Tas, NEP leer" ""
              blacklistWords_plain) as (r & Hr & Hbw & _).
  apply (blocked_word_is_a_token blacklistWords "Tas, NEP leer" "" r "nep").
  - exact blacklistWords_plain.
  - exact Hr.
  - rewrite Hbw. vm_compute. now left.
  - split; [discriminate | reflexivity].
Defined.

End BlacklistMoreFacts.

(** ** Locking an account after failed logins *)
Section AccountFacts.
Import Accounts.

Lemma updateLoginAttempts_open (now stamp : Z) (user : User) :
  (lockUntil user = None \/ exists t, lockUntil user = Some t /\ (t < now)%Z) ->
  updateLoginAttempts now stamp user =
    {| new_loginAttempts := Some (attempts user + 1)%Z;
       new_lockUntil :=
         Some (if (MAX_ATTEMPTS <=? attempts user + 1)%Z
               then Some (stamp + LOCK_TIME)%Z else None) |}.
Proof.
  unfold updateLoginAttempts.
  intros [->|(t & -> & Ht)]; [reflexivity|].
  now apply Z.ltb_lt in Ht as ->.
Qed.

(** X10. A failed attempt on an account that is not locked raises the
    counter by one; the attempt that brings it to five or more locks the
    account for two hours from then, and below five it stays open. *)
Theorem failure_counts_and_locks (now stamp : Z) (user : User) :
  (lockUntil user = None \/ exists t, lockUntil user = Some t /\ (t < now)%Z) ->
  let user' := failed_login now stamp user in
  loginAttempts user' = Some (attempts user + 1)%Z /\
  ((5 <= attempts user + 1)%Z ->
     lockUntil user' = Some (stamp + 2 * 60 * 60 * 1000)%Z /\
     forall t', (t' < stamp + 2 * 60 * 60 * 1000)%Z ->
                isAccountLocked t' user' = true) /\
  ((attempts user + 1 < 5)%Z ->
     lockUntil user' = None /\ forall t', isAccountLocked t' user' = false).
Proof.
  intros H user'.
  unfold user', failed_login. rewrite (updateLoginAttempts_open _ _ _ H).
  unfold updateUserAuth. simpl.
  split; [reflexivity|]. unfold MAX_ATTEMPTS. split; intros Hn.
  - apply Z.leb_le in Hn as ->. split; [reflexivity|].
    intros t' Ht'. unfold isAccountLocked. simpl.
    apply Z.ltb_lt. unfold LOCK_TIME. lia.
  - apply Z.leb_gt in Hn as ->. split; [reflexivity|]. reflexivity.
Qed.

Lemma failure_counts_and_locks_witness :
  lockUntil (failed_login 1000 1001
               {| loginAttempts := Some 4%Z; lockUntil := None;
                  user_updatedAt := 0 |})
  = Some (1001 + 2 * 60 * 60 * 1000)%Z.
Proof.
  refine (proj1 (proj1 (proj2 (failure_counts_and_locks 1000 1001
            {| loginAttempts := Some 4%Z; lockUntil := None;
               user_updatedAt := 0 |} _)) _)).
  - left. reflexivity.
  - simpl. lia.
Defined.

(** X11. While the lock lasts a failed attempt is not counted:
    [updateLoginAttempts] returns an empty update and the counter and the
    lock stay as they were.  The same holds at the very instant the lock
    ends, when [isAccountLocked] already answers no. *)
Theorem locked_account_not_counted (now stamp : Z) (user : User) (t : Z) :
  lockUntil user = Some t ->
  (now <= t)%Z ->
  updateLoginAttempts now stamp user
    = {| new_loginAttempts := None; new_lockUntil := None |} /\
  loginAttempts (failed_login now stamp user) = loginAttempts user /\
  lockUntil (failed_login now stamp user) = lockUntil user /\
  (isAccountLocked now user = false <-> now = t).
Proof.
  intros Hl Hle.
  assert (E : updateLoginAttempts now stamp user
              = {| new_loginAttempts := None; new_lockUntil := None |}).
  { unfold updateLoginAttempts. rewrite Hl.
    now replace (t <? now)%Z with false by (symmetry; apply Z.ltb_ge; lia). }
  split; [exact E|]. unfold failed_login. rewrite E.
  split; [reflexivity|]. split; [reflexivity|].
  unfold isAccountLocked. rewrite Hl. rewrite Z.ltb_ge. lia.
Qed.

Lemma locked_account_not_counted_witness :
  loginAttempts (failed_login 500 500
                   {| loginAttempts := Some 5%Z; lockUntil := Some 500%Z;
                      user_updatedAt := 0 |}) = Some 5%Z.
Proof.
  refine (proj1 (proj2 (locked_account_not_counted 500 500
            {| loginAttempts := Some 5%Z; lockUntil := Some 500%Z;
               user_updatedAt := 0 |} 500 eq_refl _))).
  lia.
Defined.

Lemma failed_logins_open (times : list (Z * Z)) :
  forall user n,
    loginAttempts user = Some n -> lockUntil user = None ->
    (n + Z.of_nat (List.length times) < 5)%Z ->
    loginAttempts (failed_logins times user)
      = Some (n + Z.of_nat (List.length times))%Z /\
    lockUntil (failed_logins times user) = None.
Proof.
  induction times as [|[now stamp] times IH]; intros user n Ha Hl Hn; simpl.
  - rewrite Z.add_0_r. auto.
  - simpl List.length in Hn. rewrite Nat2Z.inj_succ in *.
    assert (Hstep : loginAttempts (failed_login now stamp user)
                      = Some (n + 1)%Z /\
                    lockUntil (failed_login now stamp user) = None).
    { unfold failed_login.
      rewrite (updateLoginAttempts_open now stamp user (or_introl Hl)).
      unfold updateUserAuth, attempts, MAX_ATTEMPTS. rewrite Ha. simpl.
      now replace (5 <=? n + 1)%Z with false
        by (symmetry; apply Z.leb_gt; lia). }
    destruct Hstep as [Ha' Hl'].
    destruct (IH _ _ Ha' Hl') as [H1 H2]; [lia|].
    split; [rewrite H1; f_equal; lia | exact H2].
Qed.

(** X12. After [resetLoginAttempts] is stored, four failed attempts
    leave the account open and the fifth locks it.  The lock running out
    does not reset the counter: the first failed attempt after it locks
    the account again. *)
Theorem five_failures_after_reset
    (user : User) (t0 : Z) (times : list (Z * Z)) (now stamp : Z) :
  let fresh := updateUserAuth resetLoginAttempts t0 user in
  List.length times = 4%nat ->
  let fourth := failed_logins times fresh in
  let fifth := failed_login now stamp fourth in
  isAccountLocked now fourth = false /\
  loginAttempts fourth = Some 4%Z /\
  lockUntil fifth = Some (stamp + 2 * 60 * 60 * 1000)%Z /\
  (forall later stamp',
     (stamp + 2 * 60 * 60 * 1000 < later)%Z ->
     isAccountLocked later fifth = false /\
     lockUntil (failed_login later stamp' fifth)
       = Some (stamp' + 2 * 60 * 60 * 1000)%Z).
Proof.
  intros fresh Hlen fourth fifth.
  destruct (failed_logins_open times fresh 0 eq_refl eq_refl) as [Ha Hl].
  { rewrite Hlen. simpl. lia. }
  rewrite Hlen in Ha. simpl in Ha. fold fourth in Ha, Hl.
  assert (E5 : fifth = {| loginAttempts := Some 5%Z;
                          lockUntil := Some (stamp + LOCK_TIME)%Z;
                          user_updatedAt := stamp |}).
  { unfold fifth, failed_login.
    rewrite (updateLoginAttempts_open now stamp fourth (or_introl Hl)).
    unfold updateUserAuth, attempts. rewrite Ha. reflexivity. }
  split; [unfold isAccountLocked; now rewrite Hl|].
  split; [exact Ha|]. split; [now rewrite E5|].
  intros later stamp' Hlater. rewrite E5. split.
  - unfold isAccountLocked. simpl. apply Z.ltb_ge. unfold LOCK_TIME. lia.
  - unfold failed_login. rewrite updateLoginAttempts_open.
    + reflexivity.
    + right. eexists. split; [reflexivity|]. unfold LOCK_TIME. lia.
Qed.

Lemma five_failures_after_reset_witness :
  lockUntil
    (failed_login 50 50
       (failed_logins [(10, 10); (20, 20); (30, 30); (40, 40)]%Z
          (updateUserAuth resetLoginAttempts 0
             {| loginAttempts := Some 7%Z; lockUntil := Some 5%Z;
                user_updatedAt := 0 |})))
  = Some (50 + 2 * 60 * 60 * 1000)%Z.
Proof.
  exact (proj1 (proj2 (proj2 (five_failures_after_reset
    {| loginAttempts := Some 7%Z; lockUntil := Some 5%Z; user_updatedAt := 0 |}
    0 [(10, 10); (20, 20); (30, 30); (40, 40)]%Z 50 50 eq_refl)))).
Defined.

End AccountFacts.

(** ** Pruning the backup directory *)
Section BackupFacts.
Import Js Backups.

Lemma firstn_skipn_descending {A : Type} (key : A -> Z) (n : nat) (l : list A) :
  StronglySorted (descending key) l ->
  forall k r, In k (firstn n l) -> In r (skipn n l) -> (key r <= key k)%Z.
Proof.
  revert l. induction n as [|n IH]; intros l Hs k r Hk Hr.
  - destruct Hk.
  - destruct l as [|x l]; [destruct Hk|]. simpl in Hk, Hr.
    apply StronglySorted_inv in Hs as [Hs Hx].
    destruct Hk as [<-|Hk].
    + rewrite Forall_forall in Hx. apply Hx.
      rewrite <- (firstn_skipn n l). apply in_or_app. now right.
    + now apply (IH l).
Qed.

Lemma NoDup_map_inj {A B : Type} (f : A -> B) (l : list A) (x y : A) :
  NoDup (map f l) -> In x l -> In y l -> f x = f y -> x = y.
Proof.
  induction l as [|a l IH]; simpl; intros Hnd Hx Hy E; [destruct Hx|].
  apply NoDup_cons_iff in Hnd as [Ha Hnd].
  destruct Hx as [<-|Hx], Hy as [<-|Hy]; auto.
  - exfalso. apply Ha. rewrite E. now apply in_map.
  - exfalso. apply Ha. rewrite <- E. now apply in_map.
Qed.

Lemma NoDup_of_map {A B : Type} (f : A -> B) (l : list A) :
  NoDup (map f l) -> NoDup l.
Proof.
  induction l as [|a l IH]; simpl; intros H; constructor;
    apply NoDup_cons_iff in H as [Ha H]; auto.
  intros Hin. apply Ha. now apply in_map.
Qed.

(** X13. In a directory of distinctly named files, [cleanupOldBackups]
    leaves the seven most recently modified backup files (all of them
    when there are not more), removes the other backups, each of which
    is no newer than any backup kept, and touches no file that is not a
    backup. *)
Theorem cleanup_keeps_seven_newest (dir : list File) :
  NoDup (map name dir) ->
  let dir' := cleanupOldBackups dir in
  incl dir' dir /\
  (forall f, In f dir -> is_backup_file f = false -> In f dir') /\
  List.length (filter is_backup_file dir')
    = Nat.min 7 (List.length (filter is_backup_file dir)) /\
  (forall kept gone,
     In kept dir' -> is_backup_file kept = true ->
     In gone dir -> ~ In gone dir' ->
     is_backup_file gone = true /\ (mtime gone <= mtime kept)%Z).
Proof.
  intros Hnd dir'.
  set (B := filter is_backup_file dir).
  set (S := sort newest_file_first B).
  assert (HS : Permutation S B) by apply sort_perm.
  assert (HndB : NoDup B) by (apply NoDup_filter; now apply (NoDup_of_map name)).
  assert (HndS : NoDup S) by (apply (Permutation_NoDup (Permutation_sym HS) HndB)).
  assert (Hsorted : StronglySorted (descending mtime) S)
    by (apply sort_descending; reflexivity).
  assert (HinS : forall f, In f S <-> In f dir /\ is_backup_file f = true).
  { intros f. unfold B in HS. rewrite <- filter_In. split; intros H.
    - exact (Permutation_in _ HS H).
    - exact (Permutation_in _ (Permutation_sym HS) H). }
  unfold dir', cleanupOldBackups. fold B. fold S.
  destruct (Nat.ltb_spec 7 (List.length S)) as [Hlt|Hge].
  - set (del := skipn 7 S). set (keep := firstn 7 S).
    assert (Hsplit : S = (keep ++ del)%list)
      by (symmetry; apply firstn_skipn).
    assert (Hdel : forall f, In f dir ->
              (existsb (fun g => String.eqb (name g) (name f)) del = true
               <-> In f del)).
    { intros f Hf. rewrite existsb_exists. split.
      - intros (g & Hg & E). apply String.eqb_eq in E.
        assert (HgS : In g S) by (rewrite Hsplit; apply in_or_app; now right).
        apply HinS in HgS as [Hgd _].
        now rewrite <- (NoDup_map_inj name dir g f Hnd Hgd Hf E).
      - intros Hd. exists f. split; [exact Hd | apply String.eqb_refl]. }
    assert (Hrem : forall f,
              In f (filter (fun f => negb (existsb
                     (fun g => String.eqb (name g) (name f)) del)) dir)
              <-> In f dir /\ ~ In f del).
    { intros f. rewrite filter_In, negb_true_iff. split.
      - intros [Hf Hn]. split; [exact Hf|]. intros Hd.
        apply (Hdel f Hf) in Hd. congruence.
      - intros [Hf Hn]. split; [exact Hf|].
        destruct (existsb _ del) eqn:E; [|reflexivity].
        apply (Hdel f Hf) in E. tauto. }
    assert (Hdisj : forall f, In f keep -> ~ In f del).
    { intros f Hk Hd. rewrite Hsplit in HndS.
      apply NoDup_app_remove_l in HndS as Hnd2.
      clear - HndS Hk Hd. induction keep as [|x keep IH]; [destruct Hk|].
      simpl in HndS. apply NoDup_cons_iff in HndS as [Hx HndS].
      destruct Hk as [->|Hk]; [|now apply IH].
      apply Hx, in_or_app. now right. }
    split; [|split; [|split]].
    + intros f Hf. now apply Hrem in Hf.
    + intros f Hf Hb. apply Hrem. split; [exact Hf|]. intros Hd.
      assert (HfS : In f S) by (rewrite Hsplit; apply in_or_app; now right).
      apply HinS in HfS. destruct HfS. congruence.
    + replace (Nat.min 7 (List.length B)) with (List.length keep).
      * apply Permutation_length, NoDup_Permutation.
        -- apply NoDup_filter, NoDup_filter. now apply (NoDup_of_map name).
        -- rewrite Hsplit in HndS. now apply NoDup_app_remove_r in HndS.
        -- intros f. rewrite filter_In, Hrem. split.
           ++ intros [[Hf Hn] Hb].
              assert (HfS : In f S) by (apply HinS; auto).
              rewrite Hsplit in HfS. apply in_app_or in HfS. tauto.
           ++ intros Hk.
              assert (HfS : In f S) by (rewrite Hsplit; apply in_or_app; now left).
              apply HinS in HfS as [Hf Hb]. repeat split; auto.
      * unfold keep. rewrite length_firstn.
        rewrite (Permutation_length HS). reflexivity.
    + intros kept gone Hk Hkb Hg Hng.
      apply Hrem in Hk as [Hkd Hkn].
      assert (Hgd : In gone del).
      { destruct (existsb (fun g => String.eqb (name g) (name gone)) del)
          eqn:E; [now apply (Hdel gone Hg)|].
        exfalso. apply Hng, Hrem. split; [exact Hg|].
        intros Hd. apply (Hdel gone Hg) in Hd. congruence. }
      assert (HgS : In gone S) by (rewrite Hsplit; apply in_or_app; now right).
      split; [now apply HinS in HgS|].
      assert (HkS : In kept S) by (apply HinS; auto).
      rewrite Hsplit in HkS. apply in_app_or in HkS as [HkK|HkD]; [|tauto].
      exact (firstn_skipn_descending mtime 7 S Hsorted kept gone HkK Hgd).
  - split; [apply incl_refl|]. split; [auto|]. split.
    + fold B. rewrite (Permutation_length HS) in Hge. lia.
    + intros kept gone _ _ Hg Hng. tauto.
Qed.

Lemma cleanup_keeps_seven_newest_witness :
  List.length
    (filter is_backup_file
       (cleanupOldBackups
          (map (fun n => {| name := "backup-2025-01-0"
                                      ++ string_of_Z (Z.of_nat n) ++ ".sql";
                            mtime := Z.of_nat n |}) (seq 1 9)
           ++ [{| name := "notes.txt"; mtime := 0 |}])%list))
  = 7%nat.
Proof.
  refine (proj1 (proj2 (proj2 (cleanup_keeps_seven_newest _ _)))).
  vm_compute. repeat constructor; simpl; intuition discriminate.
Defined.

End BackupFacts.

(** ** Submitting, fetching and removing ads *)
Section AdRouteFacts.
Import Js Exn Store Routes AdRoutes WholeWord.

Lemma missingFields_nil (d : AdData) :
  missingFields d = [] ->
  missing_text (data_title d) = false /\
  missing_text (data_description d) = false /\
  missing_text (data_email d) = false /\
  missing_text (data_phone d) = false.
Proof.
  unfold missingFields.
  destruct (missing_text (data_title d)); [discriminate|].
  destruct (missing_text (data_description d)); [discriminate|].
  destruct (missing_number (data_price d)); [discriminate|].
  destruct (missing_number (data_categoryId d)); [discriminate|].
  destruct (missing_text (data_email d)); [discriminate|].
  destruct (missing_text (data_phone d)); [discriminate|].
  auto.
Qed.

Lemma missing_text_false (o : option string) :
  missing_text o = false -> exists s, o = Some s /\ is_blank s = false.
Proof.
  destruct o as [s|]; simpl; [|discriminate]. intros H. now exists s.
Qed.

(** The four ways [postAd] answers: a refusal or failure before
    anything is written, a refusal for banned words, a stored ad, a
    failed insert. *)
Lemma postAd_cases
    (req : CreateAdRequest) (srv srv' : Server) (resp : Response) :
  postAd req srv = Some (resp, srv') ->
  let adData := adData_of (req_body req) in
  let title := or_empty (data_title adData) in
  let description := or_empty (data_description adData) in
  (srv' = srv /\
   (forall m ws, body resp <> BodyBlocked m ws) /\
   (forall a, body resp <> BodyAd a) /\
   (http_status resp = 401%Z \/ http_status resp = 400%Z \/
    http_status resp = 500%Z) /\
   (req_user req = None -> http_status resp = 401%Z)) \/
  (exists check w,
     req_user req <> None /\
     Blacklist.checkAdContent (blacklist srv) title description
       = Some (Ok check) /\
     Blacklist.allowed check = false /\
     Logger.logBlockedAd (req_io req) (req_ip req) title description
       (Blacklist.blockedWords check) (req_agent req) (log srv) = Ok w /\
     resp = respond 400 (BodyBlocked (Blacklist.reason check)
                                     (Blacklist.blockedWords check)) /\
     srv' = with_log w srv) \/
  (exists ad, req_user req <> None /\ resp = respond 200 (BodyAd ad)) \/
  (exists ins d,
     req_user req <> None /\
     createAd ins (req_time req) (db srv) = (Throw, d) /\
     resp = server_error /\ srv' = with_db d srv).
Proof.
  intros H adData title description. unfold postAd in H.
  fold adData in H. fold title in H. fold description in H.
  assert (Early : forall code b,
            (code = 401%Z \/ code = 400%Z \/ code = 500%Z) ->
            (forall m ws, b <> BodyBlocked m ws) ->
            (forall a, b <> BodyAd a) ->
            (req_user req = None -> code = 401%Z) ->
            Some (respond code b, srv) = Some (resp, srv') ->
            srv' = srv /\
            (forall m ws, body resp <> BodyBlocked m ws) /\
            (forall a, body resp <> BodyAd a) /\
            (http_status resp = 401%Z \/ http_status resp = 400%Z \/
             http_status resp = 500%Z) /\
            (req_user req = None -> http_status resp = 401%Z)).
  { intros code b Hc Hb Ha Hu E. injection E as <- <-. now repeat split. }
  destruct (req_user req) as [userId|] eqn:Eu.
  2:{ left. apply (Early _ _ (or_introl eq_refl)) in H; auto; discriminate. }
  assert (Hu : Some userId <> None) by discriminate.
  assert (Hn : Some userId = None -> 400%Z = 401%Z) by discriminate.
  assert (Hn5 : Some userId = None -> 500%Z = 401%Z) by discriminate.
  destruct (0 <? List.length (missingFields adData))%nat.
  { left. apply (Early _ _ (or_intror (or_introl eq_refl))) in H; auto;
      discriminate. }
  destruct (data_price adData) as [[|price]|];
    try (left; apply (Early _ _ (or_intror (or_introl eq_refl))) in H; auto;
         discriminate).
  destruct (price <=? 0)%Z.
  { left. apply (Early _ _ (or_intror (or_introl eq_refl))) in H; auto;
      discriminate. }
  destruct (data_categoryId adData) as [[|categoryId]|];
    try (left; apply (Early _ _ (or_intror (or_introl eq_refl))) in H; auto;
         discriminate).
  destruct (Blacklist.checkAdContent _ _ _) as [[check|]|] eqn:Ec;
    [| |discriminate].
  2:{ left. apply (Early _ _ (or_intror (or_intror eq_refl))) in H; auto;
        discriminate. }
  destruct (Blacklist.allowed check) eqn:Eal; cbn [negb] in H.
  2:{ destruct (Logger.logBlockedAd _ _ _ _ _ _ _) as [w|] eqn:El.
      - right. left. injection H as <- <-. exists check, w. now repeat split.
      - left. apply (Early _ _ (or_intror (or_intror eq_refl))) in H; auto;
          discriminate. }
  destruct (getCategory (db srv) categoryId) as [category|].
  2:{ left. apply (Early _ _ (or_intror (or_intror eq_refl))) in H; auto;
        discriminate. }
  destruct (bunkopu_price_too_high _ _ _).
  { left. apply (Early _ _ (or_intror (or_introl eq_refl))) in H; auto;
      discriminate. }
  destruct (createAd _ _ _) as [[ad|] d] eqn:Ecr; injection H as <- <-.
  - right. right. left. exists ad. now split.
  - right. right. right. eexists. exists d. now repeat split; eauto.
Qed.

Lemma with_next_same_tables (n : Z) (d : Database) :
  same_tables d (with_next_ad_id n d).
Proof. now repeat split. Qed.

(** X14. The creation route writes the tables only when it answers 200:
    a submission it refuses, for whatever reason, stores nothing, and
    leaves the database as it was unless the answer is 500 (a failed
    insert may have drawn an id from the sequence).  It never changes
    the blacklist, and it touches the blocked-ad log only when it
    refuses for banned words. *)
Theorem refused_submission_stores_nothing
    (req : CreateAdRequest) (srv srv' : Server) (resp : Response) :
  postAd req srv = Some (resp, srv') ->
  blacklist srv' = blacklist srv /\
  (http_status resp <> 200%Z -> same_tables (db srv) (db srv')) /\
  (http_status resp <> 200%Z -> http_status resp <> 500%Z ->
   db srv' = db srv) /\
  ((forall m ws, body resp <> BodyBlocked m ws) -> log srv' = log srv) /\
  (req_user req = None -> http_status resp = 401%Z /\ srv' = srv).
Proof.
  intros H.
  assert (Hsame : same_tables (db srv) (db srv)) by (now repeat split).
  destruct (postAd_cases req srv srv' resp H)
    as [(-> & Hb & _ & Hc & Hu)|[(check & w & Hu & _ & _ & _ & -> & ->)|
        [(ad & Hu & ->)|(ins & d & Hu & Hcr & -> & ->)]]].
  - repeat split; auto.
  - repeat split; auto; try tauto.
    intros Hb. exfalso. eapply Hb. reflexivity.
  - destruct (postAd_stored req srv srv' _ H eq_refl)
      as (u & p & cid & check & category & ad0 &
          _ & _ & _ & _ & _ & _ & _ & _ & _ & _ & _ & Hbl & Hlog).
    split; [exact Hbl|]. split; [intros C; now elim C|].
    split; [intros C; now elim C|]. split; [intros _; exact Hlog|].
    tauto.
  - destruct (createAd_failed _ _ _ _ Hcr) as [Hd _].
    split; [reflexivity|]. split.
    + intros _. cbn [db with_db]. rewrite Hd. apply with_next_same_tables.
    + split; [intros _ C; now elim C|]. split; [reflexivity | tauto].
Qed.

Lemma refused_submission_stores_nothing_witness :
  postAd anonymous_request moderated_server
    = Some (respond 401 (BodyMessage "Niet ingelogd"), moderated_server) /\
  db moderated_server = db moderated_server.
Proof.
  split; [reflexivity|].
  apply (proj1 (proj2 (proj2 (refused_submission_stores_nothing
           anonymous_request moderated_server moderated_server
           (respond 401 (BodyMessage "Niet ingelogd")) eq_refl))));
    discriminate.
Defined.

(** Whatever the blacklist holds, the words [checkAdContent] returns are
    the entries whose pattern matches. *)
Lemma foundWords_Ok (bl : list string) (content : string)
    (found : list string) :
  Blacklist.foundWords bl content = Some (Ok found) ->
  found = filter (entry_matches content) bl.
Proof.
  revert found. induction bl as [|w bl IH]; intros found;
    cbn [Blacklist.foundWords filter].
  - now intros [= <-].
  - unfold entry_matches at 1.
    destruct (RegExp.compile_bounded (toLowerCase w)) as [regex| |];
      try discriminate.
    destruct (Blacklist.foundWords bl content) as [[found'|]|];
      try discriminate.
    intros [= <-]. rewrite (IH found' eq_refl).
    now destruct (RegExp.test regex content).
Qed.

Lemma checkAdContent_Ok (bl : list string) (title description : string)
    (r : Blacklist.ContentCheckResult) :
  Blacklist.checkAdContent bl title description = Some (Ok r) ->
  let found :=
    filter (entry_matches (toLowerCase (title ++ " " ++ description))) bl in
  Blacklist.blockedWords r = found /\
  Blacklist.allowed r = match found with [] => true | _ :: _ => false end.
Proof.
  intros H found. unfold Blacklist.checkAdContent in H.
  destruct (Blacklist.foundWords bl _) as [[l|]|] eqn:F; try discriminate.
  apply foundWords_Ok in F. fold found in F. subst l.
  destruct found; simpl in H; injection H as <-; auto.
Qed.

(** X15. A submission refused for banned words is answered 400 with the
    entries of the blacklist whose pattern matches the text, at least
    one, and stores no ad.  For an entry that holds no syntax character
    of the pattern grammar, the pattern matches exactly when the text
    holds the entry as a whole word.  With logging enabled and the file
    operations succeeding, the log file gains an entry in front that
    records those words and the address of the client. *)
Theorem blocked_submission_is_logged
    (req : CreateAdRequest) (srv srv' : Server) (resp : Response)
    (m : option string) (ws : list string) (es : list Logger.BlockedAdEntry) :
  postAd req srv = Some (resp, srv') ->
  body resp = BodyBlocked m ws ->
  let adData := adData_of (req_body req) in
  let content :=
    toLowerCase (or_empty (data_title adData) ++ " " ++
                 or_empty (data_description adData)) in
  http_status resp = 400%Z /\
  db srv' = db srv /\
  ws <> [] /\
  ws = filter (entry_matches content) (blacklist srv) /\
  (forall w, In w (blacklist srv) -> plain_entry w ->
             (In w ws <-> whole_word_in w content)) /\
  (Logger.isLoggingEnabled (log srv) = true ->
   Logger.io_succeeds (req_io req) ->
   Logger.holds (log srv) es ->
   (List.length es < Logger.MAX_LOG_ENTRIES)%nat ->
   exists e,
     Logger.disk (log srv') = Logger.Value (Logger.JArray
                                (map Logger.Entry (e :: es))) /\
     Logger.blockedWords e = ws /\
     Logger.ipAddress e = req_ip req /\
     Logger.timestamp e = Logger.now (req_io req)).
Proof.
  intros H Hb adData content.
  destruct (postAd_cases req srv srv' resp H)
    as [(_ & Hnb & _)|[(check & w & Hu & Ec & Eal & El & -> & ->)|
        [(ad & _ & ->)|(ins & d & _ & _ & -> & _)]]];
    [now elim (Hnb m ws) | | discriminate | discriminate].
  fold adData in Ec, El. cbn [body respond] in Hb. injection Hb as <- <-.
  destruct (checkAdContent_Ok _ _ _ _ Ec) as [Hbw Hal]. fold content in Hbw, Hal.
  split; [reflexivity|]. split; [reflexivity|]. split; [|split; [|split]].
  - rewrite Hbw. rewrite Eal in Hal. now destruct (filter _ _).
  - exact Hbw.
  - intros x Hin Hp. rewrite Hbw, filter_In.
    rewrite (entry_matches_iff content x Hp). tauto.
  - intros En Hio Hh Hlen.
    pose (c := {| Logger.call_io := req_io req;
                  Logger.call_ip := req_ip req;
                  Logger.call_title := or_empty (data_title adData);
                  Logger.call_description :=
                    or_empty (data_description adData);
                  Logger.call_words := Blacklist.blockedWords check;
                  Logger.call_agent := req_agent req |}).
    destruct (logCall_step c (log srv) es En Hio Hh) as (w' & E & _ & D).
    change (Logger.logCall c (log srv)) with
      (Logger.logBlockedAd (req_io req) (req_ip req)
         (or_empty (data_title adData)) (or_empty (data_description adData))
         (Blacklist.blockedWords check) (req_agent req) (log srv)) in E.
    rewrite El in E. injection E as <-.
    replace (List.length (Logger.entry_of c :: es)
             <=? Logger.MAX_LOG_ENTRIES)%nat
      with true in D by (symmetry; apply Nat.leb_le; simpl; lia).
    exists (Logger.entry_of c). split; [exact D|]. repeat split.
Qed.

Lemma blocked_submission_is_logged_witness :
  exists resp srv',
    postAd gokken_request moderated_server = Some (resp, srv') /\
    http_status resp = 400%Z /\
    exists e,
      Logger.disk (log srv')
        = Logger.Value (Logger.JArray (map Logger.Entry [e])) /\
      Logger.blockedWords e = ["gokken"].
Proof.
  destruct (postAd gokken_request moderated_server) as [[resp srv']|] eqn:E;
    [|vm_compute in E; discriminate].
  exists resp, srv'. split; [reflexivity|].
  assert (Hb : body resp = BodyBlocked
                 (Some "Advertentie bevat verboden woorden: gokken")
                 ["gokken"])
    by (vm_compute in E; injection E as <- <-; reflexivity).
  destruct (blocked_submission_is_logged gokken_request moderated_server
              srv' resp _ _ [] E Hb) as (H1 & _ & _ & _ & _ & H5).
  split; [exact H1|].
  destruct H5 as (e & D & W & _).
  - reflexivity.
  - split; reflexivity.
  - apply reads_as_empty_holds. left. reflexivity.
  - unfold Logger.MAX_LOG_ENTRIES. simpl. lia.
  - exists e. split; assumption.
Defined.

(** Only the answer 200 carries an ad. *)
Lemma postAd_answers_ad
    (req : CreateAdRequest) (srv srv' : Server) (resp : Response) (ad : Ad) :
  postAd req srv = Some (resp, srv') ->
  body resp = BodyAd ad ->
  http_status resp = 200%Z.
Proof.
  intros H Hb.
  destruct (postAd_cases req srv srv' resp H)
    as [(_ & _ & Hna & _)|[(check & w & _ & _ & _ & _ & -> & _)|
        [(ad' & _ & ->)|(ins & d & _ & _ & -> & _)]]];
    [now elim (Hna ad) | discriminate | reflexivity | discriminate].
Qed.

Lemma is_ad_getAd (d : Database) (id : Z) :
  is_ad d id = false -> getAd d id = None.
Proof.
  unfold getAd, is_ad. intros Hfree.
  destruct (find _ (ads d)) as [a|] eqn:F; [|reflexivity].
  apply find_some in F as [Hin E].
  assert (Hex : existsb (fun a => (ad_id a =? id)%Z) (ads d) = true)
    by (apply existsb_exists; eauto).
  congruence.
Qed.

Lemma existsb_category (d : Database) (id : Z) :
  is_category d id = true ->
  exists c, In c (categories d) /\ cat_id c = id.
Proof.
  unfold is_category. intros H. apply existsb_exists in H as (c & Hin & E).
  exists c. split; [exact Hin | now apply Z.eqb_eq].
Qed.

(** X16. An ad the creation route stores belongs to the authenticated
    user, who is a user of the store, and to a category of the store; it
    has a positive price in the range of the column, and a title,
    description, e-mail and phone that are not blank; it carries the
    uploaded images and the instant of the request, and no entry of the
    blacklist that is free of syntax characters occurs in it as a whole
    word.  Its id was not in use.  A multipart submission takes the next
    id of the sequence and starts with no views; a JSON submission takes
    the id and the views its body names, and those only when it names
    none. *)
Theorem stored_ad_is_valid
    (req : CreateAdRequest) (srv srv' : Server) (resp : Response) (ad : Ad) :
  postAd req srv = Some (resp, srv') ->
  body resp = BodyAd ad ->
  http_status resp = 200%Z /\
  In ad (ads (db srv')) /\
  req_user req = Some (userId ad) /\
  In (userId ad) (users (db srv)) /\
  (exists c, In c (categories (db srv)) /\ categoryId ad = Some (cat_id c)) /\
  (exists p, price ad = Some p /\ (0 < p <= INT_MAX)%Z) /\
  is_blank (title ad) = false /\
  is_blank (description ad) = false /\
  is_blank (email ad) = false /\
  is_blank (phone ad) = false /\
  images ad = req_images req /\
  createdAt ad = req_time req /\
  getAd (db srv) (ad_id ad) = None /\
  match req_body req with
  | Multipart _ => ad_id ad = next_ad_id (db srv) /\ views ad = 0%Z
  | Json j =>
      ad_id ad = with_default (next_ad_id (db srv)) (json_id j) /\
      views ad = with_default 0%Z (json_views j)
  end /\
  (forall w, In w (blacklist srv) -> plain_entry w ->
             ~ whole_word_in w (ad_text ad)).
Proof.
  intros H Hb.
  pose proof (postAd_answers_ad req srv srv' resp ad H Hb) as H200.
  destruct (postAd_stored req srv srv' resp H H200)
    as (u & p & cid & check & category & ad0 & Hu & Hm & Hp & Hpos & Hc &
        Hck & Hal & Hg & _ & Hcr & -> & _).
  cbn [body respond] in Hb. injection Hb as ->.
  destruct (createAd_stored _ _ _ _ _ Hcr)
    as (Hpar & (ti & de & lo & Hti & Hde & Hlo & Had) & Hid & Hfree & Hcat &
        _ & Huser & Hd).
  destruct (missingFields_nil _ Hm) as (Mt & Md & Me & Mp).
  cbn [insertData ins_title ins_description] in Hti, Hde.
  assert (Et : title ad = ti) by (rewrite Had; reflexivity).
  assert (Ed : description ad = de) by (rewrite Had; reflexivity).
  split; [reflexivity|]. split.
  { rewrite Hd. cbn. apply in_or_app. right. now left. }
  assert (Eu : userId ad = u) by (rewrite Had; reflexivity).
  split; [now rewrite Eu|]. split.
  { unfold is_user in Huser. apply existsb_exists in Huser as (x & Hx & E).
    apply String.eqb_eq in E. now subst x. }
  assert (Ec : categoryId ad = Some cid).
  { rewrite Had. cbn [new_row categoryId insertData ins_categoryId].
    now rewrite Hc. }
  split.
  { rewrite Ec in Hcat. cbn [optional] in Hcat.
    destruct (existsb_category _ _ Hcat) as (c & Hin & <-). now exists c. }
  split.
  { exists p. split.
    - rewrite Had. cbn [new_row price insertData ins_price]. now rewrite Hp.
    - unfold parameters_accepted in Hpar.
      repeat (apply andb_true_iff in Hpar as [Hpar ?]).
      cbn [insertData ins_price] in *.
      match goal with
      | Hx : optional integer_parameter (data_price _) = true |- _ =>
          rewrite Hp in Hx; cbn in Hx;
          apply andb_true_iff in Hx as [_ Hx]; apply Z.leb_le in Hx
      end.
      lia. }
  split; [rewrite Et; rewrite Hti in Mt; exact Mt|].
  split; [rewrite Ed; rewrite Hde in Md; exact Md|].
  split.
  { rewrite Had. cbn [new_row email insertData ins_email].
    destruct (missing_text_false _ Me) as (e & -> & He). exact He. }
  split.
  { rewrite Had. cbn [new_row phone insertData ins_phone].
    destruct (missing_text_false _ Mp) as (e & -> & He). exact He. }
  split; [rewrite Had; reflexivity|].
  split; [rewrite Had; reflexivity|].
  split; [now apply is_ad_getAd|].
  split.
  { assert (Ev : views ad =
              with_default 0%Z (column (data_views
                                          (adData_of (req_body req)))))
      by (rewrite Had; reflexivity).
    cbn [insertData ins_id] in Hid.
    destruct (req_body req) as [f|j]; cbn [adData_of data_id data_views] in *.
    - cbn [column] in Hid. tauto.
    - destruct (json_id j), (json_views j); cbn in *; tauto. }
  intros w Hin Hpl Hw.
  destruct (checkAdContent_Ok _ _ _ _ Hck) as [_ Har].
  rewrite Hti, Hde in Har. cbn [or_empty] in Har.
  unfold ad_text in Hw. rewrite Et, Ed in Hw.
  apply (entry_matches_iff _ _ Hpl) in Hw.
  assert (Hf : In w (filter (entry_matches (toLowerCase (ti ++ " " ++ de)))
                            (blacklist srv)))
    by (apply filter_In; auto).
  rewrite Har in Hal. destruct (filter _ (blacklist srv));
    [destruct Hf | discriminate].
Qed.

Lemma stored_ad_is_valid_witness :
  exists ad srv',
    postAd chosen_request bunkopu_server
      = Some (respond 200 (BodyAd ad), srv') /\
    userId ad = "u1" /\ ad_id ad = 500%Z /\ views ad = 99%Z.
Proof.
  destruct (postAd chosen_request bunkopu_server) as [[resp srv']|] eqn:E;
    [|vm_compute in E; discriminate].
  assert (Hr : exists ad, resp = respond 200 (BodyAd ad))
    by (vm_compute in E; injection E as <- <-; eexists; reflexivity).
  destruct Hr as [ad ->].
  destruct (stored_ad_is_valid chosen_request bunkopu_server srv' _ ad E
              eq_refl)
    as (_ & _ & Hu & _ & _ & _ & _ & _ & _ & _ & _ & _ & _ & [Hi Hv] & _).
  exists ad, srv'. split; [reflexivity|]. split; [|split].
  - simpl in Hu. now injection Hu as <-.
  - exact Hi.
  - exact Hv.
Defined.

(** X17. An ad the creation route stores in a category named "Bunkopu
    Seri" costs at most 10 euro (1000 cents) when held in EUR and at
    most 400 SRD (40000 cents) when held in SRD, provided the submission
    is a multipart one or a JSON one that names its currency.  A JSON
    submission that names no currency passes unchecked and is stored in
    EUR, the default of the column, at whatever price: so is the book at
    50 euro. *)
Theorem bunkopu_price_ceiling :
  (forall (req : CreateAdRequest) (srv srv' : Server) (resp : Response)
          (ad : Ad) (cid p : Z),
     postAd req srv = Some (resp, srv') ->
     body resp = BodyAd ad ->
     categoryId ad = Some cid ->
     (forall c, In c (categories (db srv)) -> cat_id c = cid ->
                cat_name c = "Bunkopu Seri") ->
     price ad = Some p ->
     match req_body req with
     | Multipart _ => True
     | Json j => json_currency j <> None
     end ->
     (currency ad = "EUR" -> (p <= 1000)%Z) /\
     (currency ad = "SRD" -> (p <= 40000)%Z)) /\
  (exists ad srv',
     postAd (book_request None 5000 None) bunkopu_server
       = Some (respond 200 (BodyAd ad), srv') /\
     categoryId ad = Some (cat_id bunkopu) /\
     price ad = Some 5000%Z /\ currency ad = "EUR").
Proof.
  split.
  - intros req srv srv' resp ad cid p H Hb Hcid Hname Hp Hcur.
    pose proof (postAd_answers_ad req srv srv' resp ad H Hb) as H200.
    destruct (postAd_stored req srv srv' resp H H200)
      as (u & p0 & cid0 & check & category & ad0 & _ & _ & Hp0 & _ & Hc0 &
          _ & _ & Hg & Hbk & Hcr & -> & _).
    cbn [body respond] in Hb. injection Hb as ->.
    destruct (createAd_stored _ _ _ _ _ Hcr)
      as (_ & (ti & de & lo & _ & _ & _ & Had) & _ & _ & Hcat & _).
    assert (Ep : price ad = Some p0).
    { rewrite Had. cbn [new_row price insertData ins_price].
      now rewrite Hp0. }
    assert (Ec : categoryId ad = Some cid0).
    { rewrite Had. cbn [new_row categoryId insertData ins_categoryId].
      now rewrite Hc0. }
    assert (Ecur : currency ad =
                   with_default "EUR"
                     (data_currency (adData_of (req_body req))))
      by (rewrite Had; reflexivity).
    rewrite Ep in Hp. injection Hp as ->.
    rewrite Ec in Hcid. injection Hcid as ->.
    rewrite Ec in Hcat. cbn [optional] in Hcat.
    unfold getCategory in Hg.
    destruct (is_integer cid); [|discriminate]. injection Hg as <-.
    destruct (find _ (categories (db srv))) as [c|] eqn:F.
    2:{ exfalso. apply existsb_category in Hcat as (c & Hin & E).
        apply (find_none _ _ F) in Hin. rewrite E, Z.eqb_refl in Hin.
        discriminate. }
    apply find_some in F as [Hin E]. apply Z.eqb_eq in E.
    cbn [bunkopu_price_too_high] in Hbk.
    rewrite (Hname c Hin E) in Hbk. cbn [String.eqb Ascii.eqb Bool.eqb andb] in Hbk.
    assert (Hsome : exists cur,
              data_currency (adData_of (req_body req)) = Some cur).
    { destruct (req_body req) as [f|j]; cbn [adData_of data_currency].
      - eexists. reflexivity.
      - destruct (json_currency j) as [cur|]; [now exists cur | now elim Hcur]. }
    destruct Hsome as (cur & Ecu). rewrite Ecu in Ecur, Hbk.
    cbn [with_default] in Ecur. cbn [currency_is] in Hbk. rewrite <- Ecur in Hbk.
    apply orb_false_iff in Hbk as [H1 H2].
    split; intros Hx; rewrite Hx in *; cbn in H1, H2.
    + now apply Z.ltb_ge in H1.
    + now apply Z.ltb_ge in H2.
  - destruct (postAd (book_request None 5000 None) bunkopu_server)
      as [[resp srv']|] eqn:E; [|vm_compute in E; discriminate].
    vm_compute in E. injection E as <- <-.
    eexists. eexists. split; [reflexivity|]. repeat split.
Qed.

Lemma bunkopu_price_ceiling_witness :
  exists ad srv',
    postAd (book_request None 900 (Some "EUR")) bunkopu_server
      = Some (respond 200 (BodyAd ad), srv') /\
    price ad = Some 900%Z /\ (900 <= 1000)%Z.
Proof.
  destruct (postAd (book_request None 900 (Some "EUR")) bunkopu_server)
    as [[resp srv']|] eqn:E; [|vm_compute in E; discriminate].
  assert (Hr : exists ad, resp = respond 200 (BodyAd ad) /\
                          categoryId ad = Some 7%Z /\
                          price ad = Some 900%Z /\ currency ad = "EUR")
    by (vm_compute in E; injection E as <- <-; eexists; repeat split).
  destruct Hr as (ad & -> & Hc & Hp & Hcur).
  exists ad, srv'. split; [reflexivity|]. split; [exact Hp|].
  refine (proj1 (proj1 bunkopu_price_ceiling _ bunkopu_server srv' _ ad
                   7%Z 900%Z E eq_refl Hc _ Hp _) Hcur).
  - intros c [<-|[]] _. reflexivity.
  - discriminate.
Defined.







(** An id the body has chosen is not known to the sequence: when it is
    the id the sequence hands out next, the next submission that leaves
    the id to the sequence fails, and the one after it is stored. *)
Example chosen_id_meets_the_sequence :
  exists ad1 srv1 srv2 ad3 srv3,
    postAd (book_request (Some 1%Z) 900 (Some "EUR")) bunkopu_server
      = Some (respond 200 (BodyAd ad1), srv1) /\
    ad_id ad1 = 1%Z /\ next_ad_id (db srv1) = 1%Z /\
    postAd (book_request None 900 (Some "EUR")) srv1
      = Some (server_error, srv2) /\
    ads (db srv2) = [ad1] /\ next_ad_id (db srv2) = 2%Z /\
    postAd (book_request None 900 (Some "EUR")) srv2
      = Some (respond 200 (BodyAd ad3), srv3) /\
    ad_id ad3 = 2%Z /\ ads (db srv3) = [ad1; ad3].
Proof.
  do 5 eexists. split; [vm_compute; reflexivity|].
  split; [reflexivity|]. split; [reflexivity|].
  split; [vm_compute; reflexivity|].
  split; [reflexivity|]. split; [reflexivity|].
  split; [vm_compute; reflexivity|].
  split; reflexivity.
Qed.

Lemma with_ads_same (d : Database) : with_ads (ads d) d = d.
Proof. now destruct d. Qed.

Lemma filter_none_id (id : Z) (l : list Ad) :
  find (fun a => (ad_id a =? id)%Z) l = None ->
  filter (fun a => negb (ad_id a =? id)%Z) l = l /\
  filter (fun a => (ad_id a =? id)%Z) l = [].
Proof.
  induction l as [|a l IH]; simpl; [auto|].
  destruct (ad_id a =? id)%Z; [discriminate|]. simpl. intros H.
  destruct (IH H) as [-> ->]. auto.
Qed.

Lemma find_filter_other (id id' : Z) (l : list Ad) :
  id' <> id ->
  find (fun a => (ad_id a =? id')%Z)
       (filter (fun a => negb (ad_id a =? id)%Z) l)
  = find (fun a => (ad_id a =? id')%Z) l.
Proof.
  intros Hne. induction l as [|a l IH]; simpl; [reflexivity|].
  destruct (Z.eqb_spec (ad_id a) id) as [E|E]; simpl.
  - destruct (Z.eqb_spec (ad_id a) id'); [congruence | exact IH].
  - destruct (ad_id a =? id')%Z; [reflexivity | exact IH].
Qed.

Lemma is_referenced_iff (d : Database) (id : Z) :
  is_referenced d id = true <-> exists t, In (t, id) (adReferences d).
Proof.
  unfold is_referenced. rewrite existsb_exists. split.
  - intros ([t i] & Hin & E). apply Z.eqb_eq in E. cbn in E. subst i.
    now exists t.
  - intros (t & Hin). exists (t, id). split; [exact Hin|]. apply Z.eqb_refl.
Qed.

(** X19. [DELETE /api/ads/:id] on an id of the integer range: when no ad
    has the id, the answer is 404; when an ad has it and a row of
    [messages], [conversations], [chat_messages], [favorites], [bids] or
    [recently_viewed] names it, the answer is 500; in both cases the
    store is left as it was.  Otherwise the answer is 200, no ad is found
    under the id any more, and every other id leads to the ad it led to
    before.  An id out of the range is answered 500. *)
Theorem delete_removes_the_ad (id : Z) (d : Database) :
  let (resp, d') := deleteRoute id d in
  ((INT_MIN <= id <= INT_MAX)%Z ->
   (getAd d id = None -> http_status resp = 404%Z /\ d' = d) /\
   (getAd d id <> None ->
    (exists t, In (t, id) (adReferences d)) ->
    http_status resp = 500%Z /\ d' = d) /\
   (getAd d id <> None ->
    (forall t, ~ In (t, id) (adReferences d)) ->
    http_status resp = 200%Z /\
    getAd d' id = None /\
    (forall id', id' <> id -> getAd d' id' = getAd d id') /\
    d' = with_ads (ads d') d)) /\
  (~ (INT_MIN <= id <= INT_MAX)%Z -> http_status resp = 500%Z /\ d' = d).
Proof.
  unfold deleteRoute, deleteAd.
  set (gone := filter (fun a => (ad_id a =? id)%Z) (ads d)).
  set (d' := with_ads (filter (fun a => negb (ad_id a =? id)%Z) (ads d)) d).
  assert (Hrange : is_integer id = true <-> (INT_MIN <= id <= INT_MAX)%Z).
  { unfold is_integer. rewrite andb_true_iff, !Z.leb_le. tauto. }
  assert (Hnone : getAd d' id = None).
  { unfold getAd, d'. simpl.
    destruct (find _ (filter _ (ads d))) as [a|] eqn:F; [|reflexivity].
    apply find_some in F as [Hin E]. apply filter_In in Hin as [_ Hn].
    rewrite E in Hn. discriminate. }
  assert (Hother : forall id', id' <> id -> getAd d' id' = getAd d id').
  { intros id' Hne. unfold getAd, d'. simpl. now apply find_filter_other. }
  assert (Habsent : getAd d id = None -> gone = [] /\ d' = d).
  { intros G. destruct (filter_none_id id (ads d) G) as [E1 E2].
    split; [exact E2|]. unfold d'. rewrite E1. apply with_ads_same. }
  assert (Hpresent : getAd d id <> None -> gone <> []).
  { intros G Eg. apply G. unfold getAd.
    destruct (find _ (ads d)) as [a|] eqn:F; [|reflexivity].
    apply find_some in F as [Hin E].
    assert (Hg : In a gone) by (apply filter_In; auto).
    rewrite Eg in Hg. destruct Hg. }
  destruct (is_integer id) eqn:Ei; cbn [negb].
  2:{ split; [|auto]. intros Hr. apply Hrange in Hr. discriminate. }
  assert (Hin : (INT_MIN <= id <= INT_MAX)%Z) by (now apply Hrange).
  destruct (0 <? List.length gone)%nat eqn:L; cbn [andb].
  - assert (Hsome : getAd d id <> None).
    { intros G. destruct (Habsent G) as [Eg _]. rewrite Eg in L.
      discriminate. }
    destruct (is_referenced d id) eqn:R.
    + split; [|tauto]. intros _. split; [tauto|]. split; [auto|].
      intros _ Hno. apply is_referenced_iff in R as (t & Ht).
      now elim (Hno t).
    + split; [|tauto]. intros _. split; [tauto|]. split.
      * intros _ Hex. apply is_referenced_iff in Hex. congruence.
      * intros _ _. repeat split; auto.
  - assert (Hno : getAd d id = None).
    { destruct (getAd d id) eqn:G; [|reflexivity].
      assert (Hg : gone <> []) by (apply Hpresent; discriminate).
      destruct gone; [congruence | discriminate]. }
    split; [|tauto]. intros _. split; [|split]; tauto.
Qed.

Example delete_referenced_ad :
  deleteRoute 1 favorite_store = (server_error, favorite_store) /\
  (exists d', deleteRoute 2 favorite_store
                = (respond 200 (BodySuccess "Advertentie succesvol verwijderd"),
                   d') /\
              map ad_id (ads d') = [1%Z]) /\
  deleteRoute 3 favorite_store
    = (respond 404 (BodyMessage "Advertentie niet gevonden"), favorite_store).
Proof.
  split; [reflexivity|]. split; [|reflexivity].
  eexists. split; reflexivity.
Qed.






End AdRouteFacts.

(** ** Curated filters, price facets, and which ads count *)
Section FilterMoreFacts.
Import Js Store Filters FilterWords FacetWords.

(** X22. As soon as a category has an active curated filter, the route
    answers with its active curated filters and with nothing
    synthesized, whatever the ads say: the answer holds exactly those
    rows, in ascending sort order. *)
Theorem curated_filters_take_precedence (d : Database) (slug : string) :
  active_rows d slug <> [] ->
  exists fs,
    getFilters (Some d) slug = FiltersJson fs /\
    Permutation fs (active_rows d slug) /\
    StronglySorted by_order fs.
Proof.
  intros Hne.
  assert (Hp : Permutation (curated d slug) (active_rows d slug))
    by apply sort_perm.
  exists (curated d slug). split; [|split].
  - unfold getFilters. destruct (curated d slug) as [|f fs] eqn:E;
      [|reflexivity].
    apply Permutation_nil in Hp. congruence.
  - exact Hp.
  - assert (Hs : StronglySorted (descending (fun f => (- sortOrder f)%Z))
                   (curated d slug)).
    { apply sort_descending. intros x y _ _. unfold by_sortOrder.
      f_equal. lia. }
    clear - Hs. induction Hs as [|f fs Hs IH Hf]; constructor; auto.
    rewrite Forall_forall in *. intros g Hg. specialize (Hf g Hg).
    unfold descending, by_order in *. lia.
Qed.

Lemma curated_filters_take_precedence_witness :
  exists fs,
    getFilters (Some curated_db) "autos" = FiltersJson fs /\
    Permutation fs (filterDefinitions curated_db).
Proof.
  destruct (curated_filters_take_precedence curated_db "autos")
    as (fs & H1 & H2 & _).
  - discriminate.
  - exists fs. split; [exact H1 | exact H2].
Defined.

Lemma fold_min_spec (ps : list Z) (p : Z) :
  In (fold_left Z.min ps p) (p :: ps) /\
  forall x, In x (p :: ps) -> (fold_left Z.min ps p <= x)%Z.
Proof.
  revert p. induction ps as [|q ps IH]; intros p; simpl.
  - split; [now left|]. intros x [<-|[]]. lia.
  - destruct (IH (Z.min p q)) as [Hin Hle]. split.
    + destruct Hin as [E|Hin]; [|now right; right].
      rewrite <- E. destruct (Z.min_spec p q) as [[_ ->]|[_ ->]]; auto.
    + intros x [<-|[<-|Hx]].
      * specialize (Hle (Z.min p q) (or_introl eq_refl)). lia.
      * specialize (Hle (Z.min p q) (or_introl eq_refl)). lia.
      * apply Hle. now right.
Qed.

Lemma fold_max_spec (ps : list Z) (p : Z) :
  In (fold_left Z.max ps p) (p :: ps) /\
  forall x, In x (p :: ps) -> (x <= fold_left Z.max ps p)%Z.
Proof.
  revert p. induction ps as [|q ps IH]; intros p; simpl.
  - split; [now left|]. intros x [<-|[]]. lia.
  - destruct (IH (Z.max p q)) as [Hin Hle]. split.
    + destruct Hin as [E|Hin]; [|now right; right].
      rewrite <- E. destruct (Z.max_spec p q) as [[_ ->]|[_ ->]]; auto.
    + intros x [<-|[<-|Hx]].
      * specialize (Hle (Z.max p q) (or_introl eq_refl)). lia.
      * specialize (Hle (Z.max p q) (or_introl eq_refl)). lia.
      * apply Hle. now right.
Qed.

Lemma price_facets_cases (slug : string) (l : list Ad) :
  (price_facets slug l = [] /\
   forall x y, In x (positive_prices l) -> In y (positive_prices l) -> x = y)
  \/
  (exists lo hi,
     price_facets slug l =
       [number_filter "dynamic-price-min" slug "price_min" "Prijs vanaf"
          (lo / 100) 2;
        number_filter "dynamic-price-max" slug "price_max" "Prijs tot"
          (hi / 100) 3] /\
     In lo (positive_prices l) /\ In hi (positive_prices l) /\
     (lo < hi)%Z /\
     forall x, In x (positive_prices l) -> (lo <= x <= hi)%Z).
Proof.
  unfold price_facets. destruct (positive_prices l) as [|p ps].
  - left. split; [reflexivity|]. intros x y [].
  - destruct (fold_min_spec ps p) as [Hmin Hlo].
    destruct (fold_max_spec ps p) as [Hmax Hhi].
    destruct (Z.ltb_spec (fold_left Z.min ps p) (fold_left Z.max ps p))
      as [Hlt|Hge].
    + right. exists (fold_left Z.min ps p), (fold_left Z.max ps p).
      repeat split; auto.
    + left. split; [reflexivity|]. intros x y Hx Hy.
      pose proof (Hlo x Hx). pose proof (Hhi x Hx).
      pose proof (Hlo y Hy). pose proof (Hhi y Hy). lia.
Qed.

Lemma positive_prices_positive (l : list Ad) (x : Z) :
  In x (positive_prices l) -> (0 < x)%Z.
Proof.
  unfold positive_prices. rewrite in_flat_map. intros (a & _ & H).
  destruct (price a) as [p|]; [|destruct H].
  destruct (Z.ltb_spec 0 p); [|destruct H]. destruct H as [<-|[]]. exact H0.
Qed.

Lemma positive_prices_In (d : Database) (c : Category) (x : Z) :
  In x (positive_prices (categoryAds d c)) <-> exists a, priced d c a x.
Proof.
  unfold positive_prices, priced. rewrite in_flat_map. split.
  - intros (a & Ha & H). exists a. apply categoryAds_In in Ha.
    destruct (price a) as [p|]; [|destruct H].
    destruct (Z.ltb_spec 0 p); [|destruct H]. destruct H as [<-|[]]. auto.
  - intros (a & Ha & Hp & Hpos). exists a.
    split; [now apply categoryAds_In|]. rewrite Hp.
    apply Z.ltb_lt in Hpos. rewrite Hpos. now left.
Qed.

(** X23. The synthesized list offers the two price facets exactly when
    two approved ads of the category show two different positive
    prices.  Their placeholders are then the lowest and the highest
    positive price of the approved ads of the category, in whole euros;
    prices that are null, zero or negative play no part. *)
Theorem price_facets_iff (d : Database) (slug : string) (c : Category) :
  category_at d slug c ->
  let fs := generateDynamicFilters (Some d) slug in
  ((exists f, In f fs /\ field f = "price_min") <->
   (exists a b p q, priced d c a p /\ priced d c b q /\ p <> q)) /\
  (forall f, In f fs -> field f = "price_min" ->
     exists lo hi g a b,
       priced d c a lo /\ priced d c b hi /\ (lo < hi)%Z /\
       (forall x p, priced d c x p -> (lo <= p <= hi)%Z) /\
       placeholder f = PlaceholderEuro (lo / 100) /\
       In g fs /\ field g = "price_max" /\
       placeholder g = PlaceholderEuro (hi / 100)).
Proof.
  intros Hc. cbv zeta. unfold generateDynamicFilters.
  rewrite (category_at_find _ _ _ Hc).
  assert (Hpriced : forall a p, priced d c a p -> categoryAds d c <> []).
  { intros a p (Ha & _) E. apply categoryAds_In in Ha. rewrite E in Ha.
    destruct Ha. }
  destruct (categoryAds d c) as [|ad l] eqn:El.
  { split; [split; [intros (f & [] & _)|]| intros f []].
    intros (a & b & p & q & Ha & _). now apply Hpriced in Ha. }
  cbv iota. rewrite <- El in *. clear El. set (ca := categoryAds d c) in *.
  assert (Hpm : forall f,
            In f (location_facet slug ca ++ price_facets slug ca ++
                  generateCategorySpecificFilters slug ca)%list ->
            field f = "price_min" -> In f (price_facets slug ca)).
  { intros f Hin Hf. apply in_app_or in Hin as [Hin|Hin];
      [|apply in_app_or in Hin as [Hin|Hin]; [exact Hin|]].
    - unfold location_facet in Hin. destruct (1 <? _)%nat; [|destruct Hin].
      destruct Hin as [<-|[]]. discriminate.
    - exfalso. unfold generateCategorySpecificFilters in Hin.
      repeat (apply in_app_or in Hin as [Hin|Hin]);
        repeat match type of Hin with
               | In _ (if ?b then _ else _) => destruct b
               | In _ (_ ++ _)%list => apply in_app_or in Hin as [Hin|Hin]
               | In _ [] => destruct Hin
               end;
        apply keyword_facet_field in Hin as [E _]; rewrite E in Hf;
        discriminate. }
  destruct (price_facets_cases slug ca)
    as [[E Hsame]|(lo & hi & E & Hlo & Hhi & Hlt & Hrange)].
  - split.
    + split.
      * intros (f & Hin & Hf). apply Hpm in Hin; [|exact Hf].
        rewrite E in Hin. destruct Hin.
      * intros (a & b & p & q & Ha & Hb & Hne). exfalso. apply Hne.
        apply Hsame; apply positive_prices_In; eauto.
    + intros f Hin Hf. apply Hpm in Hin; [|exact Hf].
      rewrite E in Hin. destruct Hin.
  - apply positive_prices_In in Hlo as (a & Ha).
    apply positive_prices_In in Hhi as (b & Hb).
    split.
    + split.
      * intros _. exists a, b, lo, hi. repeat split; try apply Ha;
          try apply Hb. lia.
      * intros _.
        exists (number_filter "dynamic-price-min" slug "price_min"
                  "Prijs vanaf" (lo / 100) 2).
        split; [|reflexivity].
        apply in_or_app. right. apply in_or_app. left. rewrite E.
        left. reflexivity.
    + intros f Hin Hf. apply Hpm in Hin; [|exact Hf]. rewrite E in Hin.
      destruct Hin as [<-|[<-|[]]]; [|discriminate].
      exists lo, hi. eexists. exists a, b.
      split; [exact Ha|]. split; [exact Hb|]. split; [exact Hlt|].
      split.
      { intros x p Hx. apply Hrange. apply positive_prices_In. eauto. }
      split; [reflexivity|].
      split; [apply in_or_app; right; apply in_or_app; left; rewrite E;
              right; left; reflexivity|].
      split; reflexivity.
Qed.

Lemma price_facets_iff_witness :
  exists f,
    In f (generateDynamicFilters
            (Some (db_with [bmw_ad; ad_in 2 "Paramaribo"])) "autos") /\
    field f = "price_min".
Proof.
  apply (proj1 (price_facets_iff _ "autos" autos (category_at_autos _))).
  exists bmw_ad, (ad_in 2 "Paramaribo"), 1500000%Z, 5000%Z.
  repeat split; try discriminate; cbn; auto; lia.
Defined.

Lemma filter_filter {A : Type} (f g : A -> bool) (l : list A) :
  filter f (filter g l) = filter (fun x => f x && g x) l.
Proof.
  induction l as [|x l IH]; simpl; [reflexivity|].
  destruct (g x); simpl; [destruct (f x); simpl; now rewrite IH|].
  rewrite andb_false_r. exact IH.
Qed.

(** X24. Only approved ads count: two databases with the same categories
    and the same approved ads get the same synthesized filters, so a
    pending, rejected or expired ad never shows in a facet. *)
Theorem facets_depend_on_approved_ads_only (d d' : Database) (slug : string) :
  categories d = categories d' ->
  filter is_approved (ads d) = filter is_approved (ads d') ->
  generateDynamicFilters (Some d) slug = generateDynamicFilters (Some d') slug.
Proof.
  intros Hc Ha. unfold generateDynamicFilters. rewrite Hc.
  destruct (find _ (categories d')) as [category|]; [|reflexivity].
  assert (E : categoryAds d category = categoryAds d' category).
  { unfold categoryAds.
    transitivity (filter (fun ad => match categoryId ad with
                                    | Some c => (c =? cat_id category)%Z
                                    | None => false
                                    end) (filter is_approved (ads d))).
    - rewrite filter_filter. reflexivity.
    - rewrite Ha, filter_filter. reflexivity. }
  now rewrite E.
Qed.

Lemma facets_depend_on_approved_ads_only_witness :
  generateDynamicFilters (Some (db_with [bmw_ad; toyota_ad])) "autos" =
  generateDynamicFilters
    (Some (db_with [Routes.old_ad 9 pending; bmw_ad;
                    Routes.old_ad 8 rejected; toyota_ad])) "autos".
Proof.
  apply facets_depend_on_approved_ads_only; reflexivity.
Defined.

End FilterMoreFacts.

(** ** Password rules *)
Section PasswordFacts.
Import Js Password.

Lemma dot_star_class_has (class : ascii -> bool) (s : string) :
  dot_star_class class s = true -> has class s = true.
Proof.
  unfold has. induction s as [|c r IH]; simpl; [discriminate|].
  destruct (class c); [reflexivity|]. simpl.
  intros H. apply andb_true_iff in H as [_ H]. now apply IH.
Qed.

(** The look-ahead finds a code unit of the class wherever it stands,
    also behind a line break. *)
Lemma lookahead_test_has (class : ascii -> bool) (s : string) :
  lookahead_test class s = has class s.
Proof.
  unfold has. induction s as [|c r IH]; simpl; [reflexivity|].
  destruct (class c) eqn:Ec; simpl; [reflexivity|].
  rewrite IH. fold (has class r).
  destruct (negb (is_line_terminator c) && dot_star_class class r) eqn:E;
    [|reflexivity].
  apply andb_true_iff in E as [_ E].
  now rewrite (dot_star_class_has class r E).
Qed.

(** X25. [validatePassword] accepts a password exactly when it has eight
    code units or more and holds a lower-case letter, an upper-case
    letter, a digit and one of the signs @#$%^&*!? somewhere, line breaks
    or not; each rule that fails adds its own message, in the order of
    the rules. *)
Theorem validatePassword_rules (password : string) :
  let v := validatePassword password in
  (isValid v = true <->
   (8 <= String.length password)%nat /\
   has is_lower password = true /\ has is_upper password = true /\
   has is_digit password = true /\ has is_special password = true) /\
  (isValid v = true <-> errors v = []) /\
  (In TooShort (errors v) <-> (String.length password < 8)%nat) /\
  (In NoLowerCase (errors v) <-> has is_lower password = false) /\
  (In NoUpperCase (errors v) <-> has is_upper password = false) /\
  (In NoDigit (errors v) <-> has is_digit password = false) /\
  (In NoSpecial (errors v) <-> has is_special password = false) /\
  StronglySorted
    (fun a b => match a, b with
                | TooShort, _ | NoLowerCase, (NoUpperCase | NoDigit | NoSpecial)
                | NoUpperCase, (NoDigit | NoSpecial) | NoDigit, NoSpecial => True
                | _, _ => False
                end) (errors v).
Proof.
  unfold validatePassword. rewrite !lookahead_test_has. cbn [isValid errors].
  destruct (Nat.ltb_spec (String.length password) 8) as [Hl|Hl];
    destruct (has is_lower password);
    destruct (has is_upper password);
    destruct (has is_digit password);
    destruct (has is_special password); simpl;
    repeat split; intros; try lia; try discriminate; try tauto;
    try (repeat match goal with H : _ \/ _ |- _ => destruct H end;
         try discriminate; tauto);
    try (right; tauto); auto;
    repeat (constructor; auto).
Qed.

End PasswordFacts.
